(** * Restaurant ingestion pipeline: a shallow embedding

    The development follows [airflow/dags/utils/task_functions.py]:
    the string helpers and the regular expressions the address parser is
    written with, [DataFormatter], the Places API client, the PostgreSQL
    connection the processor writes through, [RestaurantDataProcessor] and
    the driver loop of [main]; then the properties of the ingestion
    pipeline, one section per component. *)

From Stdlib Require Import String Ascii.
From Stdlib Require Import List NArith ZArith Bool Lia Permutation.
Import ListNotations.

Set Implicit Arguments.

(** ** Python values *)

(** A Python [str] is a sequence of Unicode code points. *)
Definition char := N.
Definition str := list char.

Fixpoint str_eqb (a b : str) : bool :=
  match a, b with
  | [], [] => true
  | x :: a', y :: b' => (x =? y)%N && str_eqb a' b'
  | _, _ => false
  end.

(** String literals of this file are UTF-8 text; [py] decodes one into the
    code points Python sees. *)
Fixpoint utf8_decode (bs : list N) : str :=
  match bs with
  | [] => []
  | b0 :: t =>
      if (b0 <? 128)%N then b0 :: utf8_decode t
      else if (b0 <? 224)%N then
        match t with
        | b1 :: t1 => ((b0 mod 32) * 64 + b1 mod 64)%N :: utf8_decode t1
        | [] => []
        end
      else if (b0 <? 240)%N then
        match t with
        | b1 :: b2 :: t2 =>
            ((b0 mod 16) * 4096 + (b1 mod 64) * 64 + b2 mod 64)%N
              :: utf8_decode t2
        | _ => []
        end
      else
        match t with
        | b1 :: b2 :: b3 :: t3 =>
            ((b0 mod 8) * 262144 + (b1 mod 64) * 4096
             + (b2 mod 64) * 64 + b3 mod 64)%N :: utf8_decode t3
        | _ => []
        end
  end.

Definition py (s : string) : str :=
  utf8_decode (map N_of_ascii (list_ascii_of_string s)).
Arguments py s%_string.

(** Exceptions the modelled code can raise, and the outcome of a call. *)
Inductive exn : Type :=
| KeyError (key : str)
| IndexError
| AttributeError
| MissingAddressData        (* Exception("Missing address data") *)
| RequestException          (* requests could not reach the service *)
| ProgrammingError          (* psycopg2: the statement is malformed *)
| DatabaseError.            (* psycopg2: the statement or the commit failed *)

Inductive outcome (A : Type) : Type :=
| Ok (a : A)
| Raise (e : exn).
Arguments Ok {A} a.
Arguments Raise {A} e.

Definition bind {A B} (m : outcome A) (f : A -> outcome B) : outcome B :=
  match m with
  | Ok a => f a
  | Raise e => Raise e
  end.

Declare Scope py_scope.
Delimit Scope py_scope with py_scope.
Notation "x <- m ;; k" := (bind m (fun x => k))
  (at level 61, m at next level, right associativity) : py_scope.
Notation "' p <- m ;; k" := (bind m (fun x => let p := x in k))
  (at level 61, p pattern, m at next level, right associativity) : py_scope.
Open Scope py_scope.

(** Truthiness of the values the code tests with [if x] and [not x]. *)
Definition truthy_str (s : str) : bool :=
  match s with [] => false | _ => true end.

Definition truthy_opt_str (o : option str) : bool :=
  match o with Some s => truthy_str s | None => false end.

Definition truthy_list {A} (l : list A) : bool :=
  match l with [] => false | _ => true end.

(** ** Character classes

    The classes of [str] methods and of str patterns are those of the
    Unicode database of the interpreter; the tables below are the ones of
    Unicode 14.0, each a list of inclusive ranges of code points. *)

Definition in_ranges (rs : list (N * N)) (c : char) : bool :=
  existsb (fun r => (fst r <=? c)%N && (c <=? snd r)%N) rs.

(** [str.isspace], which is also what [str.split()], [str.strip()] and the
    class [\s] of a str pattern use. *)
Definition space_ranges : list (N * N) :=
  [(9, 13); (28, 32); (133, 133); (160, 160); (5760, 5760); (8192, 8202);
   (8232, 8233); (8239, 8239); (8287, 8287); (12288, 12288)]%N.

(** Code points [c] with [chr(c).isdecimal()]: the class [\d] of a str pattern. *)
Definition decimal_ranges : list (N * N) :=
  [(48, 57); (1632, 1641); (1776, 1785); (1984, 1993); (2406, 2415);
   (2534, 2543); (2662, 2671); (2790, 2799); (2918, 2927); (3046, 3055);
   (3174, 3183); (3302, 3311); (3430, 3439); (3558, 3567); (3664, 3673);
   (3792, 3801); (3872, 3881); (4160, 4169); (4240, 4249); (6112, 6121);
   (6160, 6169); (6470, 6479); (6608, 6617); (6784, 6793); (6800, 6809);
   (6992, 7001); (7088, 7097); (7232, 7241); (7248, 7257); (42528, 42537);
   (43216, 43225); (43264, 43273); (43472, 43481); (43504, 43513);
   (43600, 43609); (44016, 44025); (65296, 65305); (66720, 66729);
   (68912, 68921); (69734, 69743); (69872, 69881); (69942, 69951);
   (70096, 70105); (70384, 70393); (70736, 70745); (70864, 70873);
   (71248, 71257); (71360, 71369); (71472, 71481); (71904, 71913);
   (72016, 72025); (72784, 72793); (73040, 73049); (73120, 73129);
   (92768, 92777); (92864, 92873); (93008, 93017); (120782, 120831);
   (123200, 123209); (123632, 123641); (125264, 125273); (130032, 130041)]%N.

(** Code points [c] with [chr(c).isalnum()]; with the underscore, the class [\w]. *)
Definition alnum_ranges : list (N * N) :=
  [(48, 57); (65, 90); (97, 122); (170, 170); (178, 179); (181, 181);
   (185, 186); (188, 190); (192, 214); (216, 246); (248, 705); (710, 721);
   (736, 740); (748, 748); (750, 750); (880, 884); (886, 887); (890, 893);
   (895, 895); (902, 902); (904, 906); (908, 908); (910, 929); (931, 1013);
   (1015, 1153); (1162, 1327); (1329, 1366); (1369, 1369); (1376, 1416);
   (1488, 1514); (1519, 1522); (1568, 1610); (1632, 1641); (1646, 1647);
   (1649, 1747); (1749, 1749); (1765, 1766); (1774, 1788); (1791, 1791);
   (1808, 1808); (1810, 1839); (1869, 1957); (1969, 1969); (1984, 2026);
   (2036, 2037); (2042, 2042); (2048, 2069); (2074, 2074); (2084, 2084);
   (2088, 2088); (2112, 2136); (2144, 2154); (2160, 2183); (2185, 2190);
   (2208, 2249); (2308, 2361); (2365, 2365); (2384, 2384); (2392, 2401);
   (2406, 2415); (2417, 2432); (2437, 2444); (2447, 2448); (2451, 2472);
   (2474, 2480); (2482, 2482); (2486, 2489); (2493, 2493); (2510, 2510);
   (2524, 2525); (2527, 2529); (2534, 2545); (2548, 2553); (2556, 2556);
   (2565, 2570); (2575, 2576); (2579, 2600); (2602, 2608); (2610, 2611);
   (2613, 2614); (2616, 2617); (2649, 2652); (2654, 2654); (2662, 2671);
   (2674, 2676); (2693, 2701); (2703, 2705); (2707, 2728); (2730, 2736);
   (2738, 2739); (2741, 2745); (2749, 2749); (2768, 2768); (2784, 2785);
   (2790, 2799); (2809, 2809); (2821, 2828); (2831, 2832); (2835, 2856);
   (2858, 2864); (2866, 2867); (2869, 2873); (2877, 2877); (2908, 2909);
   (2911, 2913); (2918, 2927); (2929, 2935); (2947, 2947); (2949, 2954);
   (2958, 2960); (2962, 2965); (2969, 2970); (2972, 2972); (2974, 2975);
   (2979, 2980); (2984, 2986); (2990, 3001); (3024, 3024); (3046, 3058);
   (3077, 3084); (3086, 3088); (3090, 3112); (3114, 3129); (3133, 3133);
   (3160, 3162); (3165, 3165); (3168, 3169); (3174, 3183); (3192, 3198);
   (3200, 3200); (3205, 3212); (3214, 3216); (3218, 3240); (3242, 3251);
   (3253, 3257); (3261, 3261); (3293, 3294); (3296, 3297); (3302, 3311);
   (3313, 3314); (3332, 3340); (3342, 3344); (3346, 3386); (3389, 3389);
   (3406, 3406); (3412, 3414); (3416, 3425); (3430, 3448); (3450, 3455);
   (3461, 3478); (3482, 3505); (3507, 3515); (3517, 3517); (3520, 3526);
   (3558, 3567); (3585, 3632); (3634, 3635); (3648, 3654); (3664, 3673);
   (3713, 3714); (3716, 3716); (3718, 3722); (3724, 3747); (3749, 3749);
   (3751, 3760); (3762, 3763); (3773, 3773); (3776, 3780); (3782, 3782);
   (3792, 3801); (3804, 3807); (3840, 3840); (3872, 3891); (3904, 3911);
   (3913, 3948); (3976, 3980); (4096, 4138); (4159, 4169); (4176, 4181);
   (4186, 4189); (4193, 4193); (4197, 4198); (4206, 4208); (4213, 4225);
   (4238, 4238); (4240, 4249); (4256, 4293); (4295, 4295); (4301, 4301);
   (4304, 4346); (4348, 4680); (4682, 4685); (4688, 4694); (4696, 4696);
   (4698, 4701); (4704, 4744); (4746, 4749); (4752, 4784); (4786, 4789);
   (4792, 4798); (4800, 4800); (4802, 4805); (4808, 4822); (4824, 4880);
   (4882, 4885); (4888, 4954); (4969, 4988); (4992, 5007); (5024, 5109);
   (5112, 5117); (5121, 5740); (5743, 5759); (5761, 5786); (5792, 5866);
   (5870, 5880); (5888, 5905); (5919, 5937); (5952, 5969); (5984, 5996);
   (5998, 6000); (6016, 6067); (6103, 6103); (6108, 6108); (6112, 6121);
   (6128, 6137); (6160, 6169); (6176, 6264); (6272, 6276); (6279, 6312);
   (6314, 6314); (6320, 6389); (6400, 6430); (6470, 6509); (6512, 6516);
   (6528, 6571); (6576, 6601); (6608, 6618); (6656, 6678); (6688, 6740);
   (6784, 6793); (6800, 6809); (6823, 6823); (6917, 6963); (6981, 6988);
   (6992, 7001); (7043, 7072); (7086, 7141); (7168, 7203); (7232, 7241);
   (7245, 7293); (7296, 7304); (7312, 7354); (7357, 7359); (7401, 7404);
   (7406, 7411); (7413, 7414); (7418, 7418); (7424, 7615); (7680, 7957);
   (7960, 7965); (7968, 8005); (8008, 8013); (8016, 8023); (8025, 8025);
   (8027, 8027); (8029, 8029); (8031, 8061); (8064, 8116); (8118, 8124);
   (8126, 8126); (8130, 8132); (8134, 8140); (8144, 8147); (8150, 8155);
   (8160, 8172); (8178, 8180); (8182, 8188); (8304, 8305); (8308, 8313);
   (8319, 8329); (8336, 8348); (8450, 8450); (8455, 8455); (8458, 8467);
   (8469, 8469); (8473, 8477); (8484, 8484); (8486, 8486); (8488, 8488);
   (8490, 8493); (8495, 8505); (8508, 8511); (8517, 8521); (8526, 8526);
   (8528, 8585); (9312, 9371); (9450, 9471); (10102, 10131); (11264, 11492);
   (11499, 11502); (11506, 11507); (11517, 11517); (11520, 11557);
   (11559, 11559); (11565, 11565); (11568, 11623); (11631, 11631);
   (11648, 11670); (11680, 11686); (11688, 11694); (11696, 11702);
   (11704, 11710); (11712, 11718); (11720, 11726); (11728, 11734);
   (11736, 11742); (11823, 11823); (12293, 12295); (12321, 12329);
   (12337, 12341); (12344, 12348); (12353, 12438); (12445, 12447);
   (12449, 12538); (12540, 12543); (12549, 12591); (12593, 12686);
   (12690, 12693); (12704, 12735); (12784, 12799); (12832, 12841);
   (12872, 12879); (12881, 12895); (12928, 12937); (12977, 12991);
   (13312, 19903); (19968, 42124); (42192, 42237); (42240, 42508);
   (42512, 42539); (42560, 42606); (42623, 42653); (42656, 42735);
   (42775, 42783); (42786, 42888); (42891, 42954); (42960, 42961);
   (42963, 42963); (42965, 42969); (42994, 43009); (43011, 43013);
   (43015, 43018); (43020, 43042); (43056, 43061); (43072, 43123);
   (43138, 43187); (43216, 43225); (43250, 43255); (43259, 43259);
   (43261, 43262); (43264, 43301); (43312, 43334); (43360, 43388);
   (43396, 43442); (43471, 43481); (43488, 43492); (43494, 43518);
   (43520, 43560); (43584, 43586); (43588, 43595); (43600, 43609);
   (43616, 43638); (43642, 43642); (43646, 43695); (43697, 43697);
   (43701, 43702); (43705, 43709); (43712, 43712); (43714, 43714);
   (43739, 43741); (43744, 43754); (43762, 43764); (43777, 43782);
   (43785, 43790); (43793, 43798); (43808, 43814); (43816, 43822);
   (43824, 43866); (43868, 43881); (43888, 44002); (44016, 44025);
   (44032, 55203); (55216, 55238); (55243, 55291); (63744, 64109);
   (64112, 64217); (64256, 64262); (64275, 64279); (64285, 64285);
   (64287, 64296); (64298, 64310); (64312, 64316); (64318, 64318);
   (64320, 64321); (64323, 64324); (64326, 64433); (64467, 64829);
   (64848, 64911); (64914, 64967); (65008, 65019); (65136, 65140);
   (65142, 65276); (65296, 65305); (65313, 65338); (65345, 65370);
   (65382, 65470); (65474, 65479); (65482, 65487); (65490, 65495);
   (65498, 65500); (65536, 65547); (65549, 65574); (65576, 65594);
   (65596, 65597); (65599, 65613); (65616, 65629); (65664, 65786);
   (65799, 65843); (65856, 65912); (65930, 65931); (66176, 66204);
   (66208, 66256); (66273, 66299); (66304, 66339); (66349, 66378);
   (66384, 66421); (66432, 66461); (66464, 66499); (66504, 66511);
   (66513, 66517); (66560, 66717); (66720, 66729); (66736, 66771);
   (66776, 66811); (66816, 66855); (66864, 66915); (66928, 66938);
   (66940, 66954); (66956, 66962); (66964, 66965); (66967, 66977);
   (66979, 66993); (66995, 67001); (67003, 67004); (67072, 67382);
   (67392, 67413); (67424, 67431); (67456, 67461); (67463, 67504);
   (67506, 67514); (67584, 67589); (67592, 67592); (67594, 67637);
   (67639, 67640); (67644, 67644); (67647, 67669); (67672, 67702);
   (67705, 67742); (67751, 67759); (67808, 67826); (67828, 67829);
   (67835, 67867); (67872, 67897); (67968, 68023); (68028, 68047);
   (68050, 68096); (68112, 68115); (68117, 68119); (68121, 68149);
   (68160, 68168); (68192, 68222); (68224, 68255); (68288, 68295);
   (68297, 68324); (68331, 68335); (68352, 68405); (68416, 68437);
   (68440, 68466); (68472, 68497); (68521, 68527); (68608, 68680);
   (68736, 68786); (68800, 68850); (68858, 68899); (68912, 68921);
   (69216, 69246); (69248, 69289); (69296, 69297); (69376, 69415);
   (69424, 69445); (69457, 69460); (69488, 69505); (69552, 69579);
   (69600, 69622); (69635, 69687); (69714, 69743); (69745, 69746);
   (69749, 69749); (69763, 69807); (69840, 69864); (69872, 69881);
   (69891, 69926); (69942, 69951); (69956, 69956); (69959, 69959);
   (69968, 70002); (70006, 70006); (70019, 70066); (70081, 70084);
   (70096, 70106); (70108, 70108); (70113, 70132); (70144, 70161);
   (70163, 70187); (70272, 70278); (70280, 70280); (70282, 70285);
   (70287, 70301); (70303, 70312); (70320, 70366); (70384, 70393);
   (70405, 70412); (70415, 70416); (70419, 70440); (70442, 70448);
   (70450, 70451); (70453, 70457); (70461, 70461); (70480, 70480);
   (70493, 70497); (70656, 70708); (70727, 70730); (70736, 70745);
   (70751, 70753); (70784, 70831); (70852, 70853); (70855, 70855);
   (70864, 70873); (71040, 71086); (71128, 71131); (71168, 71215);
   (71236, 71236); (71248, 71257); (71296, 71338); (71352, 71352);
   (71360, 71369); (71424, 71450); (71472, 71483); (71488, 71494);
   (71680, 71723); (71840, 71922); (71935, 71942); (71945, 71945);
   (71948, 71955); (71957, 71958); (71960, 71983); (71999, 71999);
   (72001, 72001); (72016, 72025); (72096, 72103); (72106, 72144);
   (72161, 72161); (72163, 72163); (72192, 72192); (72203, 72242);
   (72250, 72250); (72272, 72272); (72284, 72329); (72349, 72349);
   (72368, 72440); (72704, 72712); (72714, 72750); (72768, 72768);
   (72784, 72812); (72818, 72847); (72960, 72966); (72968, 72969);
   (72971, 73008); (73030, 73030); (73040, 73049); (73056, 73061);
   (73063, 73064); (73066, 73097); (73112, 73112); (73120, 73129);
   (73440, 73458); (73648, 73648); (73664, 73684); (73728, 74649);
   (74752, 74862); (74880, 75075); (77712, 77808); (77824, 78894);
   (82944, 83526); (92160, 92728); (92736, 92766); (92768, 92777);
   (92784, 92862); (92864, 92873); (92880, 92909); (92928, 92975);
   (92992, 92995); (93008, 93017); (93019, 93025); (93027, 93047);
   (93053, 93071); (93760, 93846); (93952, 94026); (94032, 94032);
   (94099, 94111); (94176, 94177); (94179, 94179); (94208, 100343);
   (100352, 101589); (101632, 101640); (110576, 110579); (110581, 110587);
   (110589, 110590); (110592, 110882); (110928, 110930); (110948, 110951);
   (110960, 111355); (113664, 113770); (113776, 113788); (113792, 113800);
   (113808, 113817); (119520, 119539); (119648, 119672); (119808, 119892);
   (119894, 119964); (119966, 119967); (119970, 119970); (119973, 119974);
   (119977, 119980); (119982, 119993); (119995, 119995); (119997, 120003);
   (120005, 120069); (120071, 120074); (120077, 120084); (120086, 120092);
   (120094, 120121); (120123, 120126); (120128, 120132); (120134, 120134);
   (120138, 120144); (120146, 120485); (120488, 120512); (120514, 120538);
   (120540, 120570); (120572, 120596); (120598, 120628); (120630, 120654);
   (120656, 120686); (120688, 120712); (120714, 120744); (120746, 120770);
   (120772, 120779); (120782, 120831); (122624, 122654); (123136, 123180);
   (123191, 123197); (123200, 123209); (123214, 123214); (123536, 123565);
   (123584, 123627); (123632, 123641); (124896, 124902); (124904, 124907);
   (124909, 124910); (124912, 124926); (124928, 125124); (125127, 125135);
   (125184, 125251); (125259, 125259); (125264, 125273); (126065, 126123);
   (126125, 126127); (126129, 126132); (126209, 126253); (126255, 126269);
   (126464, 126467); (126469, 126495); (126497, 126498); (126500, 126500);
   (126503, 126503); (126505, 126514); (126516, 126519); (126521, 126521);
   (126523, 126523); (126530, 126530); (126535, 126535); (126537, 126537);
   (126539, 126539); (126541, 126543); (126545, 126546); (126548, 126548);
   (126551, 126551); (126553, 126553); (126555, 126555); (126557, 126557);
   (126559, 126559); (126561, 126562); (126564, 126564); (126567, 126570);
   (126572, 126578); (126580, 126583); (126585, 126588); (126590, 126590);
   (126592, 126601); (126603, 126619); (126625, 126627); (126629, 126633);
   (126635, 126651); (127232, 127244); (130032, 130041); (131072, 173791);
   (173824, 177976); (177984, 178205); (178208, 183969); (183984, 191456);
   (194560, 195101); (196608, 201546)]%N.

Definition is_space : char -> bool := in_ranges space_ranges.
Definition is_digit : char -> bool := in_ranges decimal_ranges.
Definition is_word (c : char) : bool := in_ranges alnum_ranges c || (c =? 95)%N.
Definition is_upper_az (c : char) : bool := (65 <=? c)%N && (c <=? 90)%N.
Definition is_lower_az (c : char) : bool := (97 <=? c)%N && (c <=? 122)%N.
Definition is_letter_az (c : char) : bool := is_upper_az c || is_lower_az c.
Definition is_char (x : char) (c : char) : bool := (c =? x)%N.
Definition not_char (x : char) (c : char) : bool := negb (c =? x)%N.
Definition not_newline : char -> bool := not_char 10%N.

Definition comma : char := 44%N.
Definition dash : char := 45%N.
Definition blank : char := 32%N.

(** ** str methods *)

Fixpoint dropwhile (p : char -> bool) (s : str) : str :=
  match s with
  | c :: s' => if p c then dropwhile p s' else s
  | [] => []
  end.

(** [s.strip()] and [s.strip(chars)] *)
Definition strip_by (p : char -> bool) (s : str) : str :=
  rev (dropwhile p (rev (dropwhile p s))).
Definition strip : str -> str := strip_by is_space.
Definition strip_chars (chars : str) : str -> str :=
  strip_by (fun c => existsb (N.eqb c) chars).

(** [s.split()]: the maximal runs of non-whitespace *)
Fixpoint split_ws_from (cur : str) (s : str) : list str :=
  match s with
  | [] => match cur with [] => [] | _ => [rev cur] end
  | c :: s' =>
      if is_space c
      then match cur with
           | [] => split_ws_from [] s'
           | _ => rev cur :: split_ws_from [] s'
           end
      else split_ws_from (c :: cur) s'
  end.
Definition split_ws : str -> list str := split_ws_from [].

(** [s.split(sep)] for a separator of one character: never empty *)
Fixpoint split_on_from (sep : char) (cur : str) (s : str) : list str :=
  match s with
  | [] => [rev cur]
  | c :: s' =>
      if (c =? sep)%N then rev cur :: split_on_from sep [] s'
      else split_on_from sep (c :: cur) s'
  end.
Definition split_on (sep : char) : str -> list str := split_on_from sep [].

(** [sep.join(l)] *)
Fixpoint join (sep : str) (l : list str) : str :=
  match l with
  | [] => []
  | [x] => x
  | x :: l' => x ++ sep ++ join sep l'
  end.

Fixpoint startswith (s pre : str) : bool :=
  match pre, s with
  | [], _ => true
  | p :: pre', c :: s' => (c =? p)%N && startswith s' pre'
  | _ :: _, [] => false
  end.

(** [s.replace(old, new)]: every occurrence, left to right, not overlapping.
    [skip] counts the characters of an occurrence still to be passed over. *)
Fixpoint replace_from (old new : str) (skip : nat) (s : str) : str :=
  match s with
  | [] => match skip, old with O, [] => new | _, _ => [] end
  | c :: s' =>
      match skip with
      | S n => replace_from old new n s'
      | O =>
          if startswith s old
          then match old with
               | [] => new ++ c :: replace_from old new 0 s'
               | _ :: old' => new ++ replace_from old new (length old') s'
               end
          else c :: replace_from old new 0 s'
      end
  end.
Definition replace (old new s : str) : str := replace_from old new 0 s.

(** [s.rfind(sub)]: the highest index where [sub] starts, or -1 *)
Fixpoint rfind_from (sub : str) (i best : Z) (s : str) : Z :=
  match s with
  | [] => if startswith [] sub then i else best
  | _ :: s' => rfind_from sub (i + 1) (if startswith s sub then i else best) s'
  end.
Definition rfind (s sub : str) : Z := rfind_from sub 0 (-1) s.

(** Slice bounds are clipped the way Python clips them. *)
Definition clip_index {A} (l : list A) (i : Z) : nat :=
  let n := Z.of_nat (length l) in
  Z.to_nat (if i <? 0 then Z.max (i + n) 0 else Z.min i n)%Z.
Definition slice_from {A} (l : list A) (i : Z) : list A := skipn (clip_index l i) l.
Definition slice_to {A} (l : list A) (j : Z) : list A := firstn (clip_index l j) l.

(** [l[0]], [l[-1]], [l[0] = v] and [l[-1] = v] raise IndexError on an
    empty list. *)
Definition first_item {A} (l : list A) : outcome A :=
  match l with x :: _ => Ok x | [] => Raise IndexError end.
Definition last_item {A} (l : list A) : outcome A :=
  match rev l with x :: _ => Ok x | [] => Raise IndexError end.
Definition set_first {A} (l : list A) (v : A) : outcome (list A) :=
  match l with _ :: l' => Ok (v :: l') | [] => Raise IndexError end.
Definition set_last {A} (l : list A) (v : A) : outcome (list A) :=
  match l with _ :: _ => Ok (removelast l ++ [v]) | [] => Raise IndexError end.

(** [str(n)] for an int, and [s.zfill(width)] *)
Fixpoint uint_digits (u : Decimal.uint) : str :=
  match u with
  | Decimal.Nil => []
  | Decimal.D0 u' => 48%N :: uint_digits u'
  | Decimal.D1 u' => 49%N :: uint_digits u'
  | Decimal.D2 u' => 50%N :: uint_digits u'
  | Decimal.D3 u' => 51%N :: uint_digits u'
  | Decimal.D4 u' => 52%N :: uint_digits u'
  | Decimal.D5 u' => 53%N :: uint_digits u'
  | Decimal.D6 u' => 54%N :: uint_digits u'
  | Decimal.D7 u' => 55%N :: uint_digits u'
  | Decimal.D8 u' => 56%N :: uint_digits u'
  | Decimal.D9 u' => 57%N :: uint_digits u'
  end.

Definition str_of_int (z : Z) : str :=
  match Z.to_int z with
  | Decimal.Pos u => uint_digits u
  | Decimal.Neg u => dash :: uint_digits u
  end.

Definition zfill (width : nat) (s : str) : str :=
  let pad := repeat 48%N (width - length s) in
  match s with
  | c :: s' => if (c =? 43)%N || (c =? 45)%N then c :: pad ++ s' else pad ++ s
  | [] => pad
  end.

(** ** Regular expressions

    The patterns of the parser repeat single characters of a class only, so
    the syntax has [Star] and [Opt] on classes.  Matching is Python's:
    backtracking, leftmost, greedy, alternatives tried in order. *)

Inductive regex : Type :=
| Eps
| Cls (p : char -> bool)        (* one character of the class *)
| Star (p : char -> bool)       (* class*, greedy *)
| Opt (p : char -> bool)        (* class?, greedy *)
| Bol                           (* ^ *)
| Eol                           (* $ *)
| WordB                         (* \b *)
| Seq (a b : regex)
| Alt (a b : regex)
| Grp (i : nat) (a : regex).    (* capturing group number i *)

Fixpoint Cat (l : list regex) : regex :=
  match l with
  | [] => Eps
  | [a] => a
  | a :: l' => Seq a (Cat l')
  end.

Definition Plus (p : char -> bool) : regex := Seq (Cls p) (Star p).
Definition Rep (n : nat) (p : char -> bool) : regex := Cat (repeat (Cls p) n).

(** A position in the subject: the text before it (latest character first),
    the text after it, and the groups captured so far. *)
Record cursor : Type := Cursor {
  before : str;
  after : str;
  groups : list (nat * str)
}.

Definition advance (c : char) (rest : str) (cur : cursor) : cursor :=
  Cursor (c :: before cur) rest (groups cur).

Definition word_boundary (cur : cursor) : bool :=
  xorb (match before cur with c :: _ => is_word c | [] => false end)
       (match after cur with c :: _ => is_word c | [] => false end).

(** [$] without MULTILINE: at the end, or before a newline that ends the
    subject. *)
Definition at_end (cur : cursor) : bool :=
  match after cur with
  | [] => true
  | [c] => (c =? 10)%N
  | _ => false
  end.

Definition or_else {A} (a b : option A) : option A :=
  match a with Some _ => a | None => b end.

Fixpoint star (p : char -> bool) (bef aft : str) (gs : list (nat * str))
    (k : cursor -> option cursor) : option cursor :=
  match aft with
  | c :: aft' =>
      if p c then or_else (star p (c :: bef) aft' gs k) (k (Cursor bef aft gs))
      else k (Cursor bef aft gs)
  | [] => k (Cursor bef aft gs)
  end.

(** The text between two positions of one subject, [cur] being the earlier. *)
Definition matched (cur cur' : cursor) : str :=
  rev (firstn (length (before cur') - length (before cur)) (before cur')).

Fixpoint rx (r : regex) (cur : cursor) (k : cursor -> option cursor)
    : option cursor :=
  match r with
  | Eps => k cur
  | Cls p =>
      match after cur with
      | c :: rest => if p c then k (advance c rest cur) else None
      | [] => None
      end
  | Star p => star p (before cur) (after cur) (groups cur) k
  | Opt p =>
      match after cur with
      | c :: rest =>
          if p c then or_else (k (advance c rest cur)) (k cur) else k cur
      | [] => k cur
      end
  | Bol => match before cur with [] => k cur | _ => None end
  | Eol => if at_end cur then k cur else None
  | WordB => if word_boundary cur then k cur else None
  | Seq a b => rx a cur (fun cur' => rx b cur' k)
  | Alt a b => or_else (rx a cur k) (rx b cur k)
  | Grp i a =>
      rx a cur (fun cur' =>
        k (Cursor (before cur') (after cur')
                  ((i, matched cur cur') :: groups cur')))
  end.

(** Match objects: [m.start()], [m.group(0)] and [m.group(i)], which is
    None for a group that took no part in the match. *)
Record rmatch : Type := Match {
  m_start : nat;
  m_end : nat;
  group0 : str;
  m_groups : list (nat * str)
}.

Definition group (m : rmatch) (i : nat) : option str :=
  option_map snd (find (fun g => Nat.eqb (fst g) i) (m_groups m)).

Definition match_at (r : regex) (bef aft : str) : option rmatch :=
  let cur := Cursor bef aft [] in
  option_map
    (fun cur' => Match (length bef) (length (before cur'))
                       (matched cur cur') (groups cur'))
    (rx r cur (fun c => Some c)).

(** [re.match(r, s)] *)
Definition re_match (r : regex) (s : str) : option rmatch := match_at r [] s.

(** [re.search(r, s)]: the first position where the pattern matches *)
Fixpoint search_from (r : regex) (bef aft : str) : option rmatch :=
  or_else (match_at r bef aft)
          (match aft with
           | c :: aft' => search_from r (c :: bef) aft'
           | [] => None
           end).
Definition re_search (r : regex) (s : str) : option rmatch :=
  search_from r [] s.

(** [re.sub(r, repl, s)] for a replacement without group references: every
    match, left to right, not overlapping.  [skip] counts the characters of
    a match still to be passed over.  Both patterns substituted below need a
    dash, so none matches the empty string; an empty match is replaced and
    the scan moves one character on. *)
Fixpoint sub_from (r : regex) (repl : str) (skip : nat) (bef aft : str)
    {struct aft} : str :=
  match skip, aft with
  | S n, c :: aft' => sub_from r repl n (c :: bef) aft'
  | S _, [] => []
  | O, _ =>
      match match_at r bef aft with
      | Some m =>
          repl ++
          match aft with
          | [] => []
          | c :: aft' =>
              match m_end m - m_start m with
              | O => c :: sub_from r repl 0 (c :: bef) aft'
              | S n => sub_from r repl n (c :: bef) aft'
              end
          end
      | None =>
          match aft with
          | [] => []
          | c :: aft' => c :: sub_from r repl 0 (c :: bef) aft'
          end
      end
  end.
Definition re_sub (r : regex) (repl s : str) : str := sub_from r repl 0 [] s.

(** A method called on what [m.group(i)] returned: AttributeError on None. *)
Definition attr_of (o : option str) : outcome str :=
  match o with Some s => Ok s | None => Raise AttributeError end.

(** The patterns of [parse_street_name], in the order they appear. *)

(* ,\s*([^,]+)$ *)
Definition country_re : regex :=
  Cat [Cls (is_char comma); Star is_space; Grp 1 (Plus (not_char comma)); Eol].

(* \b(\d{5}-?\d{3})\b *)
Definition postalcode_re : regex :=
  Cat [WordB;
       Grp 1 (Cat [Rep 5 is_digit; Opt (is_char dash); Rep 3 is_digit]);
       WordB].

(* -\s*([A-Z]{2})\s*,?\s*$ *)
Definition state_re : regex :=
  Cat [Cls (is_char dash); Star is_space; Grp 1 (Rep 2 is_upper_az);
       Star is_space; Opt (is_char comma); Star is_space; Eol].

(* ^\s*-\s* *)
Definition leading_dash_re : regex :=
  Cat [Bol; Star is_space; Cls (is_char dash); Star is_space].

(* \d+[A-Za-z]? *)
Definition number_re : regex := Seq (Plus is_digit) (Opt is_letter_az).

(* ^\d+[A-Za-z]?$ *)
Definition number_only_re : regex := Cat [Bol; number_re; Eol].

(* ^(\d+[A-Za-z]?)\s*-\s*(.+)$ *)
Definition number_dash_rest_re : regex :=
  Cat [Bol; Grp 1 number_re; Star is_space; Cls (is_char dash);
       Star is_space; Grp 2 (Plus not_newline); Eol].

(* ^(\d+[A-Za-z]?)\s+(.+)$ *)
Definition number_space_rest_re : regex :=
  Cat [Bol; Grp 1 number_re; Plus is_space; Grp 2 (Plus not_newline); Eol].

(* ^\s*-\s*|\s*-\s*$ *)
Definition outer_dashes_re : regex :=
  Alt leading_dash_re
      (Cat [Star is_space; Cls (is_char dash); Star is_space; Eol]).

(** ** Detail records of the Places API

    A key of the JSON object is absent ([None]) or holds a value of the type
    the API declares for it.  A float is kept as the text [str()] gives for
    it, the only thing the code does with one. *)

Record pyfloat : Type := Float { float_str : str }.

Module Api.

Record localized_text : Type := LocalizedText { text : option str }.

Record lat_lng : Type := LatLng {
  latitude : option pyfloat;
  longitude : option pyfloat
}.

Record point : Type := Point {
  day : option Z;
  hour : option Z;
  minute : option Z
}.

Record period : Type := Period {
  open : option point;
  close : option point
}.

Record opening_hours : Type := OpeningHours {
  periods : option (list period);
  weekdayDescriptions : option (list str)
}.

Record place : Type := Place {
  displayName : option localized_text;
  formattedAddress : option str;
  location : option lat_lng;
  googleMapsUri : option str;
  types : option (list str);
  primaryTypeDisplayName : option localized_text;
  websiteUri : option str;
  regularOpeningHours : option opening_hours;
  businessStatus : option str;
  editorialSummary : option localized_text;
  priceLevel : option str;
  rating : option pyfloat;
  servesVegetarianFood : option bool
}.

End Api.

(** [d.get(key, {})] for the nested objects, and [d.get(key, default)] *)
Definition get_or {A} (o : option A) (default : A) : A :=
  match o with Some a => a | None => default end.

Definition no_text : Api.localized_text := Api.LocalizedText None.
Definition no_point : Api.point := Api.Point None None None.
Definition no_hours : Api.opening_hours := Api.OpeningHours None None.

(** An object is falsy when it has no key. *)
Definition truthy_point (p : Api.point) : bool :=
  match Api.day p, Api.hour p, Api.minute p with
  | None, None, None => false
  | _, _, _ => true
  end.

Definition is_some {A} (o : option A) : bool :=
  match o with Some _ => true | None => false end.

(** ** DataFormatter *)

Definition format_opening_hours_description
    (opening_hours_description : option (list str)) : option str :=
  match opening_hours_description with
  | None | Some [] => None
  | Some lines =>
      let joined := join [10%N] lines in
      let cleaned := replace [10%N] (py ", ") (replace [8201%N] [] joined) in
      Some cleaned
  end.

Definition format_day_name (day_number : Z) : option str :=
  match day_number with
  | 0%Z => Some (py "Domingo")
  | 1%Z => Some (py "Segunda-feira")
  | 2%Z => Some (py "Terça-feira")
  | 3%Z => Some (py "Quarta-feira")
  | 4%Z => Some (py "Quinta-feira")
  | 5%Z => Some (py "Sexta-feira")
  | 6%Z => Some (py "Sábado")
  | _ => None
  end.

(** A row for the opening_hours table, as the formatter builds it. *)
Record period_entry : Type := PeriodEntry {
  restaurant_id : Z;
  day_of_the_week : option str;
  opens_at : option str;
  closes_at : option str;
  is_opened : bool
}.

Definition format_time (data : Api.point) : str :=
  let h := zfill 2 (str_of_int (get_or (Api.hour data) 0%Z)) in
  let m := zfill 2 (str_of_int (get_or (Api.minute data) 0%Z)) in
  h ++ py ":" ++ m.

Definition format_period (restaurant_id : Z) (period : Api.period)
    : period_entry :=
  let open_data := get_or (Api.open period) no_point in
  let day_of_week := get_or (Api.day open_data) 0%Z in
  let close_data := get_or (Api.close period) no_point in
  PeriodEntry restaurant_id (format_day_name day_of_week)
              (Some (format_time open_data)) (Some (format_time close_data))
              true.

(** The days of the periods that have a non-empty [open] with a [day]; the
    source keeps them in a set and only tests membership. *)
Fixpoint opened_days (opening_hours_periods : list Api.period) : list Z :=
  match opening_hours_periods with
  | [] => []
  | period :: rest =>
      match Api.open period with
      | Some o =>
          match truthy_point o, Api.day o with
          | true, Some d => d :: opened_days rest
          | _, _ => opened_days rest
          end
      | None => opened_days rest
      end
  end.

Definition day_in (d : Z) (days : list Z) : bool := existsb (Z.eqb d) days.

Definition closed_day_entry (restaurant_id : Z) (day_of_week : Z)
    : period_entry :=
  PeriodEntry restaurant_id (format_day_name day_of_week) None None false.

Definition week : list Z := [0; 1; 2; 3; 4; 5; 6]%Z.     (* range(7) *)

Definition format_opening_hours_periods
    (opening_hours_periods : option (list Api.period)) (restaurant_id : Z)
    : list period_entry :=
  match opening_hours_periods with
  | None | Some [] => []
  | Some ps =>
      let result := map (format_period restaurant_id) ps in
      let opened := opened_days ps in
      result ++
      map (closed_day_entry restaurant_id)
          (filter (fun d => negb (day_in d opened)) week)
  end.

(** The dictionary [parse_street_name] returns. *)
Record parsed_address : Type := ParsedAddress {
  street_type : option str;
  street_name : option str;
  street_number : option str;
  street_complement : option str;
  street_neighborhood : option str;
  postalcode : option str;
  city : option str;
  state : option str;
  country : option str
}.

Definition no_address : parsed_address :=
  ParsedAddress None None None None None None None None None.

Definition set_street_type v (r : parsed_address) :=
  ParsedAddress v (street_name r) (street_number r) (street_complement r)
    (street_neighborhood r) (postalcode r) (city r) (state r) (country r).
Definition set_street_name v (r : parsed_address) :=
  ParsedAddress (street_type r) v (street_number r) (street_complement r)
    (street_neighborhood r) (postalcode r) (city r) (state r) (country r).
Definition set_street_number v (r : parsed_address) :=
  ParsedAddress (street_type r) (street_name r) v (street_complement r)
    (street_neighborhood r) (postalcode r) (city r) (state r) (country r).
Definition set_street_complement v (r : parsed_address) :=
  ParsedAddress (street_type r) (street_name r) (street_number r) v
    (street_neighborhood r) (postalcode r) (city r) (state r) (country r).
Definition set_street_neighborhood v (r : parsed_address) :=
  ParsedAddress (street_type r) (street_name r) (street_number r)
    (street_complement r) v (postalcode r) (city r) (state r) (country r).
Definition set_postalcode v (r : parsed_address) :=
  ParsedAddress (street_type r) (street_name r) (street_number r)
    (street_complement r) (street_neighborhood r) v (city r) (state r)
    (country r).
Definition set_city v (r : parsed_address) :=
  ParsedAddress (street_type r) (street_name r) (street_number r)
    (street_complement r) (street_neighborhood r) (postalcode r) v (state r)
    (country r).
Definition set_state v (r : parsed_address) :=
  ParsedAddress (street_type r) (street_name r) (street_number r)
    (street_complement r) (street_neighborhood r) (postalcode r) (city r) v
    (country r).
Definition set_country v (r : parsed_address) :=
  ParsedAddress (street_type r) (street_name r) (street_number r)
    (street_complement r) (street_neighborhood r) (postalcode r) (city r)
    (state r) v.

Definition street_types : list str :=
  [py "Avenida"; py "Rua"; py "Alameda"; py "Travessa"; py "Praça";
   py "Rodovia"; py "Estrada"; py "Viela"; py "Largo"; py "Beco";
   py "Av."; py "Al."; py "R."; py "Tv."; py "Pç."].

(** The steps of [parse_street_name], each on the dictionary built so far
    and on what is left of the address. *)

Definition extract_country (result : parsed_address) (address : str)
    : outcome (parsed_address * str) :=
  match re_search country_re address with
  | Some country_match =>
      g <- attr_of (group country_match 1) ;;
      Ok (set_country (Some (strip g)) result,
          strip (slice_to address (Z.of_nat (m_start country_match))))
  | None => Ok (result, address)
  end.

Definition extract_postalcode (result : parsed_address) (address : str)
    : outcome (parsed_address * str) :=
  match re_search postalcode_re address with
  | Some postalcode_match =>
      g <- attr_of (group postalcode_match 1) ;;
      Ok (set_postalcode (Some (replace [dash] [] g)) result,
          strip_chars (py " ,") (replace (group0 postalcode_match) [] address))
  | None => Ok (result, address)
  end.

Definition extract_state (result : parsed_address) (address : str)
    : parsed_address * str :=
  match re_search state_re address with
  | Some state_match =>
      (set_state (group state_match 1) result,
       strip (slice_to address (Z.of_nat (m_start state_match))))
  | None => (result, address)
  end.

Definition extract_city (result : parsed_address) (address : str)
    : outcome (parsed_address * str) :=
  if truthy_str address then
    let parts_temp := split_on comma address in
    if (0 <? length parts_temp)%nat then
      last <- last_item parts_temp ;;
      Ok (set_city (Some (strip last)) result,
          strip (join [comma] (removelast parts_temp)))
    else Ok (result, address)
  else Ok (result, address).

Definition extract_street (result : parsed_address) (first_part : str)
    : parsed_address :=
  match find (startswith first_part) street_types with
  | Some st_type =>
      set_street_name
        (Some (strip (strip (slice_from first_part
                                        (Z.of_nat (length st_type))))))
        (set_street_type (Some st_type) result)
  | None => set_street_name (Some (strip first_part)) result
  end.

(** [parts[0] = number_match.group(2)] would store None for a group that
    took no part, and the next use of that part would raise; the raise is
    placed at the assignment here. *)
Definition extract_number (result : parsed_address) (parts : list str)
    : outcome (parsed_address * list str) :=
  if (1 <=? length parts)%nat then
    p0 <- first_item parts ;;
    let potential_number := strip (re_sub leading_dash_re [] (strip p0)) in
    match re_match number_only_re potential_number with
    | Some _ =>
        Ok (set_street_number (Some potential_number) result, tl parts)
    | None =>
        match re_match number_dash_rest_re potential_number with
        | Some number_match =>
            rest <- attr_of (group number_match 2) ;;
            parts' <- set_first parts rest ;;
            Ok (set_street_number (group number_match 1) result, parts')
        | None =>
            match re_match number_space_rest_re potential_number with
            | Some number_match =>
                rest <- attr_of (group number_match 2) ;;
                parts' <- set_first parts rest ;;
                Ok (set_street_number (group number_match 1) result, parts')
            | None => Ok (result, parts)
            end
        end
    end
  else Ok (result, parts).

Definition extract_complement (result : parsed_address) (parts : list str)
    : parsed_address :=
  if (0 <? length parts)%nat then
    let complement_parts :=
      filter truthy_str
             (map (fun part => strip (re_sub outer_dashes_re [] part)) parts) in
    if truthy_list complement_parts
    then set_street_complement (Some (join (py " - ") complement_parts)) result
    else result
  else result.

Definition extract_neighborhood (result : parsed_address) (parts : list str)
    : outcome parsed_address :=
  if (0 <? length parts)%nat then
    last <- last_item parts ;;
    let last_part := strip (re_sub leading_dash_re [] (strip last)) in
    let last_dash := rfind last_part (py " - ") in
    '(result, parts) <-
      (if negb (last_dash =? -1)%Z then
         let result :=
           set_street_neighborhood
             (Some (strip (slice_from last_part (last_dash + 3)))) result in
         let before_dash := strip (slice_to last_part last_dash) in
         if truthy_str before_dash then
           parts' <- set_last parts before_dash ;;
           Ok (result, parts')
         else Ok (result, removelast parts)
       else
         Ok (set_street_neighborhood (Some last_part) result,
             removelast parts)) ;;
    Ok (extract_complement result parts)
  else Ok result.

Definition parse_street_name (address : option str) : outcome parsed_address :=
  let result := no_address in
  match address with
  | None => Ok result
  | Some address =>
      if negb (truthy_str address) then Ok result else
      let address := join [blank] (split_ws address) in
      '(result, address) <- extract_country result address ;;
      '(result, address) <- extract_postalcode result address ;;
      let '(result, address) := extract_state result address in
      '(result, address) <- extract_city result address ;;
      if negb (truthy_str address) then Ok result else
      let parts :=
        map strip
            (filter (fun p => truthy_str (strip p)) (split_on comma address)) in
      if (length parts =? 0)%nat then Ok result else
      first_part <- first_item parts ;;
      let result := extract_street result first_part in
      let parts := tl parts in
      '(result, parts) <- extract_number result parts ;;
      extract_neighborhood result parts
  end.

(** ** The PostgreSQL store

    The tables the code reads and writes, with the columns its statements
    name.  A connection holds the committed tables and the tables as the
    open transaction sees them. *)

(** The [restaurant_params] dictionary; the nine address keys are kept
    together. *)
Record restaurant_params : Type := RestaurantParams {
  google_id : str;
  google_name : str;
  google_display_name : option str;
  address_columns : parsed_address;
  business_status : option str;
  editorial_summary : option str;
  google_url : option str;
  latitude : option str;
  longitude : option str;
  ratings : option str;
  vegetarian_food : bool;
  website : option str;
  opening_hours_description : option str
}.

Record restaurant_row : Type := RestaurantRow {
  id : Z;
  columns : restaurant_params;
  updated_at : option Z
}.

Record type_row : Type := TypeRow {
  type_restaurant_id : Z;
  restaurant_type : str;
  is_primary_type : bool
}.

Record quota_row : Type := QuotaRow {
  month_year : str;
  api_service : str;
  quota_limit : Z;
  quota_used : Z
}.

Record tables : Type := Tables {
  restaurants : list restaurant_row;
  opening_hours : list period_entry;
  restaurant_types : list type_row;
  google_api_quota : list quota_row
}.

Definition set_restaurants v (t : tables) :=
  Tables v (opening_hours t) (restaurant_types t) (google_api_quota t).
Definition set_opening_hours v (t : tables) :=
  Tables (restaurants t) v (restaurant_types t) (google_api_quota t).
Definition set_restaurant_types v (t : tables) :=
  Tables (restaurants t) (opening_hours t) v (google_api_quota t).
Definition set_google_api_quota v (t : tables) :=
  Tables (restaurants t) (opening_hours t) (restaurant_types t) v.

Record connection : Type := Connection {
  committed : tables;
  working : tables;
  restaurants_id_seq : Z          (* sequences are outside transactions *)
}.

Definition set_working (t : tables) (conn : connection) : connection :=
  Connection (committed conn) t (restaurants_id_seq conn).

(** The statements the code sends. *)
Inductive statement : Type :=
| UpsertRestaurant (p : restaurant_params)
| SelectQuota (month service : str)
| UpdateQuota (month service : str)
| InsertQuota (q : quota_row)
| InsertOpeningHours (e : period_entry)
| InsertRestaurantType (t : type_row)
| SelectNamesToInsert (placeholders : str) (names : list str)
| Commit.

(** The wall clock: [datetime.now().strftime('%Y-%m-01')] and
    CURRENT_TIMESTAMP. *)
Record clock : Type := Clock {
  first_of_month : str;
  current_timestamp : Z
}.

(** Code that works on the connection: the outcome and the connection
    afterwards. *)
Definition db (A : Type) : Type := connection -> outcome A * connection.

Definition ret {A} (a : A) : db A := fun conn => (Ok a, conn).
Definition throw {A} (e : exn) : db A := fun conn => (Raise e, conn).
Definition lift {A} (m : outcome A) : db A := fun conn => (m, conn).

Definition dbind {A B} (m : db A) (f : A -> db B) : db B :=
  fun conn =>
    match m conn with
    | (Ok a, conn') => f a conn'
    | (Raise e, conn') => (Raise e, conn')
    end.

Notation "x <~ m ;; k" := (dbind m (fun x => k))
  (at level 61, m at next level, right associativity) : py_scope.
Notation "m ;;; k" := (dbind m (fun _ => k))
  (at level 61, right associativity) : py_scope.

(** [for x in l: body x] *)
Fixpoint for_each {A} (l : list A) (body : A -> db unit) : db unit :=
  match l with
  | [] => ret tt
  | x :: l' => body x ;;; for_each l' body
  end.

(** ON CONFLICT (google_id) DO UPDATE ... RETURNING id *)
Definition same_google_id (p : restaurant_params) (r : restaurant_row) : bool :=
  str_eqb (google_id (columns r)) (google_id p).

Definition upsert_restaurant (inserted_at : option Z) (now : Z) (new_id : Z)
    (p : restaurant_params) (rows : list restaurant_row)
    : list restaurant_row * Z :=
  match find (same_google_id p) rows with
  | Some r =>
      (map (fun r' => if same_google_id p r'
                      then RestaurantRow (id r') p (Some now) else r') rows,
       id r)
  | None => (rows ++ [RestaurantRow new_id p inserted_at], new_id)
  end.

(** ON CONFLICT (restaurant_id, restaurant_type) DO NOTHING *)
Definition same_type (t r : type_row) : bool :=
  (type_restaurant_id r =? type_restaurant_id t)%Z
  && str_eqb (restaurant_type r) (restaurant_type t).

Definition insert_type (t : type_row) (rows : list type_row) : list type_row :=
  if existsb (same_type t) rows then rows else rows ++ [t].

Definition same_quota (month service : str) (q : quota_row) : bool :=
  str_eqb (month_year q) month && str_eqb (api_service q) service.

Definition increment_quota (month service : str) (rows : list quota_row)
    : list quota_row :=
  map (fun q => if same_quota month service q
                then QuotaRow (month_year q) (api_service q) (quota_limit q)
                              (quota_used q + 1)
                else q) rows.

(** The VALUES list of [get_restaurants_to_insert] is well formed when it
    is one or more [(%s)] separated by commas; the number of rows then. *)
Definition values_rows (placeholders : str) : option nat :=
  let items := split_on comma placeholders in
  if forallb (str_eqb (py "(%s)")) items then Some (length items) else None.

(** WHERE NOT EXISTS (SELECT 1 FROM restaurants r
                      WHERE r.google_name = lista.nome) *)
Definition name_stored (rows : list restaurant_row) (nome : str) : bool :=
  existsb (fun r => str_eqb (google_name (columns r)) nome) rows.

Definition names_not_stored (rows : list restaurant_row) (names : list str)
    : list str :=
  filter (fun nome => negb (name_stored rows nome)) names.

(** The query has no ORDER BY: the server returns the rows it selects in an
    order of its choosing.  [next_row] tells, of the rows still to be
    returned, the position of the one returned next; every order is the
    choice of some [next_row]. *)
Fixpoint rows_returned (next_row : list str -> nat) (n : nat)
    (rows : list str) : list str :=
  match n, rows with
  | S n', r :: _ =>
      let i := (next_row rows mod length rows)%nat in
      nth i rows r
      :: rows_returned next_row n' (firstn i rows ++ skipn (S i) rows)
  | _, _ => []
  end.

(** [cursor.fetchall()] *)
Definition fetchall (next_row : list str -> nat) (rows : list str)
    : list str :=
  rows_returned next_row (length rows) rows.

(** ** The Places API *)

Record response (A : Type) : Type := Response {
  status_code : Z;
  json : A
}.

Record found_place : Type := FoundPlace { place_id : option str }.
Record search_result : Type := SearchResult {
  places : option (list found_place)
}.

Definition truthy_place (d : Api.place) : bool :=
  is_some (Api.displayName d) || is_some (Api.formattedAddress d)
  || is_some (Api.location d) || is_some (Api.googleMapsUri d)
  || is_some (Api.types d) || is_some (Api.primaryTypeDisplayName d)
  || is_some (Api.websiteUri d) || is_some (Api.regularOpeningHours d)
  || is_some (Api.businessStatus d) || is_some (Api.editorialSummary d)
  || is_some (Api.priceLevel d) || is_some (Api.rating d)
  || is_some (Api.servesVegetarianFood d).

Definition str_of_opt_float (o : option pyfloat) : str :=
  match o with Some f => float_str f | None => py "None" end.

Definition quota_limits_standard (service : str) : option Z :=
  if str_eqb service (py "essential") then Some 10000%Z
  else if str_eqb service (py "pro") then Some 5000%Z
  else if str_eqb service (py "enterprise") then Some 1000%Z
  else None.

Section Pipeline.

(** What lies outside the repository: the answers of the Places API, by
    restaurant name and by place id ([requests] raises when the service
    cannot be reached); which statements the server refuses, given the
    tables the transaction sees (the constraints of the schema, a lost
    connection); the value the schema gives updated_at on insert; and the
    order in which the server returns the rows of a query. *)
Variable post_search_text : str -> outcome (response search_result).
Variable get_place : str -> outcome (response Api.place).
Variable refuses : tables -> statement -> bool.
Variable inserted_updated_at : Z -> option Z.
Variable next_row : list str -> nat.

(** [cursor.execute]: the statement fails, or its effect is applied to the
    tables of the transaction.  After a statement that failed the code sends
    nothing more on the transaction: the exception leaves the function, and
    its caller rolls back or closes the connection.  What the transaction
    holds after a failure is therefore of no account before that rollback,
    and nothing is stated about it. *)
Definition execute (s : statement) (effect : tables -> tables) : db unit :=
  fun conn =>
    if refuses (working conn) s then (Raise DatabaseError, conn)
    else (Ok tt, set_working (effect (working conn)) conn).

Definition query {A} (s : statement) (rows : tables -> A) : db A :=
  fun conn =>
    if refuses (working conn) s then (Raise DatabaseError, conn)
    else (Ok (rows (working conn)), conn).

(** [conn.rollback()], and what [conn.close()] does to a transaction. *)
Definition rollback (conn : connection) : connection :=
  Connection (committed conn) (committed conn) (restaurants_id_seq conn).

(** [conn.commit()]: a COMMIT that fails ends the transaction rolled
    back. *)
Definition commit : db unit :=
  fun conn =>
    if refuses (working conn) Commit then (Raise DatabaseError, rollback conn)
    else (Ok tt, Connection (working conn) (working conn)
                            (restaurants_id_seq conn)).

(** *** add_quota_counter *)

Definition count_service (month_year : str) (api_service : str) : db unit :=
  result <~ query (SelectQuota month_year api_service)
                  (fun t => find (same_quota month_year api_service)
                                 (google_api_quota t)) ;;
  match result with
  | Some _ =>
      execute (UpdateQuota month_year api_service)
              (fun t => set_google_api_quota
                          (increment_quota month_year api_service
                                           (google_api_quota t)) t)
  | None =>
      match quota_limits_standard api_service with
      | None => ret tt
      | Some quota_limit =>
          let q := QuotaRow month_year api_service quota_limit 1 in
          execute (InsertQuota q)
                  (fun t => set_google_api_quota (google_api_quota t ++ [q]) t)
      end
  end.

Definition add_quota_counter (now : clock) (api_services : option (list str))
    : db unit :=
  let api_services :=
    match api_services with
    | None => [py "pro"; py "essential"; py "enterprise"]
    | Some l => l
    end in
  let month_year := first_of_month now in
  for_each api_services (count_service month_year) ;;;
  commit.

(** *** GooglePlacesAPIClient *)

Definition get_place_id (restaurant_name : str) : outcome (option str) :=
  response <- post_search_text restaurant_name ;;
  if (status_code response =? 200)%Z then
    found <- match places (json response) with
             | Some l => Ok l
             | None => Raise (KeyError (py "places"))
             end ;;
    first <- first_item found ;;
    Ok (place_id first)
  else Ok None.

Definition get_place_details (restaurant_name : str)
    : outcome (option str * option Api.place) :=
  google_id <- get_place_id restaurant_name ;;
  match google_id with
  | Some gid =>
      if truthy_str gid then
        response <- get_place gid ;;
        if (status_code response =? 200)%Z
        then Ok (google_id, Some (json response))
        else Ok (google_id, None)
      else Ok (None, None)
  | None => Ok (None, None)
  end.

(** *** RestaurantDataProcessor *)

Definition build_restaurant_params (google_id restaurant_name : str)
    (google_fields_data : Api.place) (street_parsed : parsed_address)
    : outcome restaurant_params :=
  location <- match Api.location google_fields_data with
              | Some l => Ok l
              | None => Raise (KeyError (py "location"))
              end ;;
  Ok {| google_id := google_id;
        google_name := restaurant_name;
        google_display_name :=
          Api.text (get_or (Api.displayName google_fields_data) no_text);
        address_columns := street_parsed;
        business_status := Api.businessStatus google_fields_data;
        editorial_summary :=
          Api.text (get_or (Api.editorialSummary google_fields_data) no_text);
        google_url := Api.googleMapsUri google_fields_data;
        latitude := Some (str_of_opt_float (Api.latitude location));
        longitude := Some (str_of_opt_float (Api.longitude location));
        ratings := option_map float_str (Api.rating google_fields_data);
        vegetarian_food :=
          get_or (Api.servesVegetarianFood google_fields_data) false;
        website := Api.websiteUri google_fields_data;
        opening_hours_description :=
          format_opening_hours_description
            (Api.weekdayDescriptions
               (get_or (Api.regularOpeningHours google_fields_data) no_hours))
     |}.

Definition _insert_restaurant (now : clock) (google_id restaurant_name : str)
    (google_fields_data : Api.place) (street_parsed : parsed_address) : db Z :=
  restaurant_params <~ lift (build_restaurant_params google_id restaurant_name
                               google_fields_data street_parsed) ;;
  fun conn =>
    (* DEFAULT nextval(...) is evaluated before the row is checked, so an
       upsert the server refuses has drawn from the sequence as well *)
    if refuses (working conn) (UpsertRestaurant restaurant_params)
    then (Raise DatabaseError,
          Connection (committed conn) (working conn)
                     (restaurants_id_seq conn + 1))
    else
      let t := working conn in
      let new_id := restaurants_id_seq conn in
      let '(rows, restaurant_id) :=
        upsert_restaurant (inserted_updated_at (current_timestamp now))
                          (current_timestamp now) new_id restaurant_params
                          (restaurants t) in
      (Ok restaurant_id,
       Connection (committed conn) (set_restaurants rows t) (new_id + 1)).

Definition _insert_opening_hours (google_fields_data : Api.place)
    (restaurant_id : Z) : db unit :=
  let opening_hours_periods :=
    Api.periods (get_or (Api.regularOpeningHours google_fields_data) no_hours) in
  match opening_hours_periods with
  | None | Some [] => ret tt
  | Some _ =>
      let formatted_periods :=
        format_opening_hours_periods opening_hours_periods restaurant_id in
      for_each formatted_periods (fun period_entry =>
        execute (InsertOpeningHours period_entry)
                (fun t => set_opening_hours (opening_hours t ++ [period_entry]) t))
  end.

Definition insert_restaurant_type (t : type_row) : db unit :=
  execute (InsertRestaurantType t)
          (fun tb => set_restaurant_types (insert_type t (restaurant_types tb)) tb).

Definition _insert_restaurant_types (google_fields_data : Api.place)
    (restaurant_id : Z) : db unit :=
  let restaurant_types_list := get_or (Api.types google_fields_data) [] in
  let primary_type :=
    Api.text (get_or (Api.primaryTypeDisplayName google_fields_data) no_text) in
  for_each (filter truthy_str restaurant_types_list) (fun restaurant_type =>
    insert_restaurant_type (TypeRow restaurant_id restaurant_type false)) ;;;
  match primary_type with
  | Some primary =>
      if truthy_str primary
      then insert_restaurant_type (TypeRow restaurant_id primary true)
      else ret tt
  | None => ret tt
  end.

(** The body of the try block of [process_and_store]. *)
Definition store (now : clock) (google_id restaurant_name : str)
    (google_fields_data : Api.place) : db Z :=
  let address := Api.formattedAddress google_fields_data in
  if negb (truthy_opt_str address) then throw MissingAddressData else
  street_parsed <~ lift (parse_street_name address) ;;
  restaurant_id <~ _insert_restaurant now google_id restaurant_name
                     google_fields_data street_parsed ;;
  add_quota_counter now None ;;;
  _insert_opening_hours google_fields_data restaurant_id ;;;
  _insert_restaurant_types google_fields_data restaurant_id ;;;
  commit ;;;
  ret restaurant_id.

Definition process_and_store (now : clock) (restaurant_name : str) : db unit :=
  fun conn =>
    match get_place_details restaurant_name with
    | Raise e => (Raise e, conn)
    | Ok (Some google_id, Some google_fields_data) =>
        if truthy_str google_id && truthy_place google_fields_data then
          match store now google_id restaurant_name google_fields_data conn with
          | (Ok _, conn') => (Ok tt, conn')
          | (Raise e, conn') => (Raise e, rollback conn')
          end
        else (Ok tt, conn)
    | Ok _ => (Ok tt, conn)
    end.

Definition get_restaurants_to_insert (restaurants_names_list : list str)
    : db (list str) :=
  let placeholders :=
    join [comma] (repeat (py "(%s)") (length restaurants_names_list)) in
  fun conn =>
    let s := SelectNamesToInsert placeholders restaurants_names_list in
    match values_rows placeholders with
    | None => (Raise ProgrammingError, conn)
    | Some n =>
        if negb (n =? length restaurants_names_list)%nat
        then (Raise ProgrammingError, conn)
        else query s (fun t => fetchall next_row
                                 (names_not_stored (restaurants t)
                                                   restaurants_names_list))
                   conn
    end.

(** *** main

    [restaurants_names_list] is what [extract_google_maps_names] returned;
    [conn.close()] drops what was not committed.  One reading of the clock
    serves a run of the loop. *)
Definition process_names (now : clock) (names : list str) : db unit :=
  for_each names (process_and_store now).

Definition main (now : clock) (restaurants_names_list : list str) : db unit :=
  fun conn =>
    let '(r, conn') :=
      (restaurants_to_insert <~
         get_restaurants_to_insert restaurants_names_list ;;
       let restaurants_to_insert := firstn 1 restaurants_to_insert in
       process_names now restaurants_to_insert) conn in
    (r, rollback conn').

End Pipeline.

(** ** A small world for the closed examples *)

Module World.

Definition now : clock := Clock (py "2025-06-01") 1000.
Definition later : clock := Clock (py "2025-06-01") 2000.

Definition monday_only : Api.opening_hours :=
  Api.OpeningHours
    (Some [Api.Period (Some (Api.Point (Some 1%Z) (Some 10%Z) (Some 0%Z)))
                      (Some (Api.Point (Some 1%Z) (Some 22%Z) (Some 0%Z)))])
    (Some [py "segunda-feira: 10:00 – 22:00"]).

Definition bar_x : Api.place :=
  {| Api.displayName := Some (Api.LocalizedText (Some (py "Bar X")));
     Api.formattedAddress :=
       Some (py "Av. Paulista, 1000, Bela Vista, São Paulo - SP, Brasil");
     Api.location :=
       Some (Api.LatLng (Some (Float (py "-23.5614")))
                        (Some (Float (py "-46.6559"))));
     Api.googleMapsUri := Some (py "https://maps.google.com/?cid=1");
     Api.types := Some [py "bar"; py "restaurant"];
     Api.primaryTypeDisplayName := Some (Api.LocalizedText (Some (py "Bar")));
     Api.websiteUri := None;
     Api.regularOpeningHours := Some monday_only;
     Api.businessStatus := Some (py "OPERATIONAL");
     Api.editorialSummary := None;
     Api.priceLevel := None;
     Api.rating := Some (Float (py "4.5"));
     Api.servesVegetarianFood := None |}.

(** The same place, the address missing from the answer. *)
Definition no_address_place : Api.place :=
  {| Api.displayName := Api.displayName bar_x;
     Api.formattedAddress := None;
     Api.location := Api.location bar_x;
     Api.googleMapsUri := Api.googleMapsUri bar_x;
     Api.types := Api.types bar_x;
     Api.primaryTypeDisplayName := Api.primaryTypeDisplayName bar_x;
     Api.websiteUri := None;
     Api.regularOpeningHours := Api.regularOpeningHours bar_x;
     Api.businessStatus := Api.businessStatus bar_x;
     Api.editorialSummary := None;
     Api.priceLevel := None;
     Api.rating := Api.rating bar_x;
     Api.servesVegetarianFood := None |}.

(** An answer with an address and a location object without coordinates. *)
Definition no_coordinates_place : Api.place :=
  {| Api.displayName := None;
     Api.formattedAddress :=
       Some (py "Rua Augusta, 123 - Consolação, São Paulo - SP, 01305-000, Brasil");
     Api.location := Some (Api.LatLng None None);
     Api.googleMapsUri := None;
     Api.types := None;
     Api.primaryTypeDisplayName := None;
     Api.websiteUri := None;
     Api.regularOpeningHours := None;
     Api.businessStatus := None;
     Api.editorialSummary := None;
     Api.priceLevel := None;
     Api.rating := None;
     Api.servesVegetarianFood := None |}.

(** An answer without the location object. *)
Definition no_location_place : Api.place :=
  {| Api.displayName := None;
     Api.formattedAddress := Api.formattedAddress no_coordinates_place;
     Api.location := None;
     Api.googleMapsUri := None;
     Api.types := None;
     Api.primaryTypeDisplayName := None;
     Api.websiteUri := None;
     Api.regularOpeningHours := None;
     Api.businessStatus := None;
     Api.editorialSummary := None;
     Api.priceLevel := None;
     Api.rating := None;
     Api.servesVegetarianFood := None |}.

(** The search finds every name but "Nowhere"; the place id is the name. *)
Definition post_search_text (name : str) : outcome (response search_result) :=
  if str_eqb name (py "Nowhere")
  then Ok (Response 404 (SearchResult None))
  else Ok (Response 200 (SearchResult (Some [FoundPlace (Some name)]))).

Definition get_place (gid : str) : outcome (response Api.place) :=
  if str_eqb gid (py "Bar X") then Ok (Response 200 bar_x)
  else if str_eqb gid (py "Bar Y") then Ok (Response 200 bar_x)
  else if str_eqb gid (py "Sem Endereço") then Ok (Response 200 no_address_place)
  else if str_eqb gid (py "Sem Coordenadas")
  then Ok (Response 200 no_coordinates_place)
  else if str_eqb gid (py "Sem Local") then Ok (Response 200 no_location_place)
  else Ok (Response 404 no_address_place).

(** The answer for "Bar X" once its primary type has changed. *)
Definition bar_x_pizzeria : Api.place :=
  {| Api.displayName := Api.displayName bar_x;
     Api.formattedAddress := Api.formattedAddress bar_x;
     Api.location := Api.location bar_x;
     Api.googleMapsUri := Api.googleMapsUri bar_x;
     Api.types := Api.types bar_x;
     Api.primaryTypeDisplayName :=
       Some (Api.LocalizedText (Some (py "Pizzaria")));
     Api.websiteUri := None;
     Api.regularOpeningHours := Api.regularOpeningHours bar_x;
     Api.businessStatus := Api.businessStatus bar_x;
     Api.editorialSummary := None;
     Api.priceLevel := None;
     Api.rating := Api.rating bar_x;
     Api.servesVegetarianFood := None |}.

Definition get_place_later (gid : str) : outcome (response Api.place) :=
  if str_eqb gid (py "Bar X") then Ok (Response 200 bar_x_pizzeria)
  else get_place gid.

Definition accepts_all (_ : tables) (_ : statement) : bool := false.

Definition refuses_opening_hours (_ : tables) (s : statement) : bool :=
  match s with InsertOpeningHours _ => true | _ => false end.

Definition inserted_updated_at (now : Z) : option Z := Some now.

(** A server that returns the rows as the VALUES list has them, and one
    that returns them last to first. *)
Definition in_order (_ : list str) : nat := 0.
Definition last_first (rows : list str) : nat := length rows - 1.

Definition no_tables : tables := Tables [] [] [] [].
Definition fresh : connection := Connection no_tables no_tables 1.

End World.

(** ** Definitions the statements below are written with *)

(** An outcome that is a value, not an exception. *)
Definition returns {A} (m : outcome A) : Prop := exists a, m = Ok a.

(** The groups a successful match of a pattern is sure to have set. *)
Fixpoint captures (r : regex) (i : nat) : bool :=
  match r with
  | Seq a b => captures a i || captures b i
  | Alt a b => captures a i && captures b i
  | Grp j a => Nat.eqb j i || captures a i
  | _ => false
  end.

Definition has_group (i : nat) (gs : list (nat * str)) : bool :=
  is_some (find (fun g => Nat.eqb (fst g) i) gs).

(** *** The weekly schedule, in the words of the specification

    A raw opening period carries a day of the week from 0 (Sunday) to 6 and
    times of day; an hour or minute the API left out counts as 0, a missing
    [close] as midnight. *)

Definition period_day (p : Api.period) : option Z :=
  match Api.open p with Some o => Api.day o | None => None end.

Definition time_of_day (t : Api.point) : bool :=
  let h := get_or (Api.hour t) 0%Z in
  let m := get_or (Api.minute t) 0%Z in
  ((0 <=? h) && (h <=? 23) && (0 <=? m) && (m <=? 59))%Z.

Definition raw_period (p : Api.period) : bool :=
  match period_day p with
  | Some d => ((0 <=? d) && (d <=? 6))%Z
  | None => false
  end
  && time_of_day (get_or (Api.open p) no_point)
  && time_of_day (get_or (Api.close p) no_point).

Definition days_of (ps : list Api.period) : list Z :=
  map (fun p => get_or (period_day p) 0%Z) ps.

(** HH:MM, zero-padded *)
Definition two_digits (n : Z) : str :=
  [Z.to_N (48 + n / 10); Z.to_N (48 + n mod 10)].

Definition hh_mm (t : Api.point) : str :=
  two_digits (get_or (Api.hour t) 0%Z) ++ py ":"
  ++ two_digits (get_or (Api.minute t) 0%Z).

Definition open_entry (rid : Z) (p : Api.period) : period_entry :=
  {| restaurant_id := rid;
     day_of_the_week := format_day_name (get_or (period_day p) 0%Z);
     opens_at := Some (hh_mm (get_or (Api.open p) no_point));
     closes_at := Some (hh_mm (get_or (Api.close p) no_point));
     is_opened := true |}.

Definition closed_entry (rid : Z) (d : Z) : period_entry :=
  {| restaurant_id := rid;
     day_of_the_week := format_day_name d;
     opens_at := None;
     closes_at := None;
     is_opened := false |}.

Definition absent_days (ps : list Api.period) : list Z :=
  filter (fun d => negb (existsb (Z.eqb d) (days_of ps))) [0; 1; 2; 3; 4; 5; 6]%Z.

Definition weekly_schedule (rid : Z) (ps : list Api.period)
    : list period_entry :=
  match ps with
  | [] => []
  | _ => map (open_entry rid) ps ++ map (closed_entry rid) (absent_days ps)
  end.

(** *** What a commit leaves in the tables *)

(** The rows [_insert_restaurant_types] sends, in order. *)
Definition primary_name (d : Api.place) : option str :=
  match Api.text (get_or (Api.primaryTypeDisplayName d) no_text) with
  | Some p => if truthy_str p then Some p else None
  | None => None
  end.

Definition type_rows (d : Api.place) (rid : Z) : list type_row :=
  map (fun t => TypeRow rid t false)
      (filter truthy_str (get_or (Api.types d) []))
  ++ match primary_name d with
     | Some p => [TypeRow rid p true]
     | None => []
     end.

Definition insert_types (ts : list type_row) (rows : list type_row)
    : list type_row :=
  fold_left (fun rows t => insert_type t rows) ts rows.

(** The key of the unique constraint on restaurant_types, and the tags of a
    restaurant flagged primary. *)
Definition type_key (r : type_row) : Z * str :=
  (type_restaurant_id r, restaurant_type r).

Definition primary_tags (rid : Z) (rows : list type_row) : list type_row :=
  filter (fun r => (type_restaurant_id r =? rid)%Z && is_primary_type r) rows.

(** A restaurant row after an update that changed nothing but updated_at. *)
Definition touch (gid : str) (now : Z) (r : restaurant_row) : restaurant_row :=
  if str_eqb (google_id (columns r)) gid
  then RestaurantRow (id r) (columns r) (Some now)
  else r.

Definition periods_of (d : Api.place) : option (list Api.period) :=
  Api.periods (get_or (Api.regularOpeningHours d) no_hours).

(** The tables of two connections differ in the quota counters at most. *)
Definition same_records (conn conn' : connection) : Prop :=
  restaurants (working conn') = restaurants (working conn)
  /\ opening_hours (working conn') = opening_hours (working conn)
  /\ restaurant_types (working conn') = restaurant_types (working conn)
  /\ committed conn' = committed conn
  /\ restaurants_id_seq conn' = restaurants_id_seq conn.

(** *** Reconciliation, in the words of the specification: a desired name
    is to be created when, after trimming, it equals no stored name. *)
Definition reconcile_trimmed (desired stored : list str) : list str :=
  filter (fun n => negb (existsb (fun s => str_eqb (strip s) (strip n)) stored))
         desired.

Definition stored_names (t : tables) : list str :=
  map (fun r => google_name (columns r)) (restaurants t).

(** What [get_place_details] returned can be stored: there is a place id
    and a non-empty detail record. *)
Definition usable (fetched : option str * option Api.place) : bool :=
  match fetched with
  | (Some google_id, Some google_fields_data) =>
      truthy_str google_id && truthy_place google_fields_data
  | _ => false
  end.

(** Code that leaves the committed tables alone, whatever its outcome; and
    code that does so at least when it raises. *)
Definition keeps_committed {A} (m : db A) : Prop :=
  forall conn r conn', m conn = (r, conn') -> committed conn' = committed conn.

Definition raise_keeps_committed {A} (m : db A) : Prop :=
  forall conn e conn',
    m conn = (Raise e, conn') -> committed conn' = committed conn.

(** *** Further notions the statements are written with *)

(** The rows of the quota table for a month and a service tier, and a row
    counted once more. *)
Definition counter_rows (month service : str) (t : tables) : list quota_row :=
  filter (same_quota month service) (google_api_quota t).

Definition counted_again (q : quota_row) : quota_row :=
  QuotaRow (month_year q) (api_service q) (quota_limit q) (quota_used q + 1).

(** Code that, whatever its outcome, commits nothing and draws no id. *)
Definition keeps_stored {A} (m : db A) : Prop :=
  forall conn r conn',
    m conn = (r, conn') ->
    committed conn' = committed conn
    /\ restaurants_id_seq conn' = restaurants_id_seq conn.

(** A line break and the thin space U+2009. *)
Definition newline : char := 10%N.
Definition thin_space : char := 8201%N.

(** A text with one character left out. *)
Definition without (c : char) (s : str) : str :=
  filter (fun x => negb (x =? c)%N) s.

(** The texts a pattern can consume, the positions left aside; and whether a
    pattern has a group of a given number. *)
Fixpoint lang (r : regex) (s : str) : Prop :=
  match r with
  | Eps | Bol | Eol | WordB => s = []
  | Cls p => exists c, s = [c] /\ p c = true
  | Star p => forallb p s = true
  | Opt p => s = [] \/ exists c, s = [c] /\ p c = true
  | Seq a b => exists s1 s2, s = s1 ++ s2 /\ lang a s1 /\ lang b s2
  | Alt a b => lang a s \/ lang b s
  | Grp _ a => lang a s
  end.

Fixpoint mentions (r : regex) (i : nat) : bool :=
  match r with
  | Seq a b | Alt a b => mentions a i || mentions b i
  | Grp j a => Nat.eqb j i || mentions a i
  | _ => false
  end.

Definition group_of (i : nat) (gs : list (nat * str)) : option str :=
  option_map snd (find (fun g => Nat.eqb (fst g) i) gs).

(** Digits, with at most one ASCII letter behind: a street number. *)
Definition number_shaped (n : str) : Prop :=
  exists digits letter,
    n = digits ++ letter
    /\ digits <> []
    /\ forallb is_digit digits = true
    /\ (letter = [] \/ exists c, letter = [c] /\ is_letter_az c = true).

(** The shape of the fields [parse_street_name] reads with a pattern or
    from a list. *)
Definition well_shaped (r : parsed_address) : Prop :=
  (forall pc, postalcode r = Some pc ->
              length pc = 8%nat /\ forallb is_digit pc = true)
  /\ (forall st, state r = Some st ->
                 length st = 2%nat /\ forallb is_upper_az st = true)
  /\ (forall c, country r = Some c -> ~ In comma c)
  /\ (forall t, street_type r = Some t -> In t street_types)
  /\ (forall n, street_number r = Some n -> number_shaped n).

(** The restaurants of a transaction are consistent when no two rows share
    an external id or a surrogate id and the id sequence is past every id. *)
Definition restaurants_consistent (conn : connection) : Prop :=
  let rows := restaurants (working conn) in
  NoDup (map (fun r => google_id (columns r)) rows)
  /\ NoDup (map id rows)
  /\ Forall (fun r => (id r < restaurants_id_seq conn)%Z) rows.

(** The restaurants [rows'] are those of [rows] after at most one upsert. *)
Definition at_most_one_upsert (rows rows' : list restaurant_row) : Prop :=
  (length rows <= length rows' <= length rows + 1)%nat
  /\ forall r, In r rows ->
       exists r', In r' rows' /\ id r' = id r
                  /\ google_id (columns r') = google_id (columns r).

(** * Properties *)

Unset Implicit Arguments.

(** ** Strings and outcomes *)

Lemma str_eqb_eq (a b : str) : str_eqb a b = true <-> a = b.
Proof.
  revert b; induction a as [|x a IH]; intros [|y b]; simpl;
    try (split; [discriminate | congruence]); [tauto|].
  rewrite andb_true_iff, N.eqb_eq, IH.
  split; [intros [-> ->]; reflexivity | intros H; injection H; auto].
Qed.

Lemma str_eqb_refl (a : str) : str_eqb a a = true.
Proof. now apply str_eqb_eq. Qed.

Lemma bind_ok {A B} (m : outcome A) (f : A -> outcome B) (a : A) :
  m = Ok a -> bind m f = f a.
Proof. now intros ->. Qed.

Lemma first_item_nonempty {A} (l : list A) :
  l <> [] -> returns (first_item l).
Proof. destruct l as [|x l]; [congruence|]; intros _; now exists x. Qed.

Lemma last_item_nonempty {A} (l : list A) :
  l <> [] -> returns (last_item l).
Proof.
  intros Hl; unfold last_item.
  destruct (rev l) as [|x r] eqn:E.
  - apply (f_equal (@rev A)) in E; rewrite rev_involutive in E; now subst.
  - now exists x.
Qed.

Lemma set_first_nonempty {A} (l : list A) (v : A) :
  l <> [] -> returns (set_first l v).
Proof. destruct l; [congruence|]; intros _; now eexists. Qed.

Lemma set_last_nonempty {A} (l : list A) (v : A) :
  l <> [] -> returns (set_last l v).
Proof. destruct l; [congruence|]; intros _; now eexists. Qed.

Lemma positive_length {A} (l : list A) : (0 <? length l)%nat = true -> l <> [].
Proof. destruct l; simpl; [discriminate | congruence]. Qed.

(** ** The regular expression matcher *)

Section Matcher.

Lemma or_else_some {A} (a b : option A) (x : A) :
  or_else a b = Some x -> a = Some x \/ b = Some x.
Proof. destruct a; simpl; auto. Qed.

(** A match through [star] ends in the continuation, the groups untouched. *)
Lemma star_continues p aft : forall bef gs k res,
  star p bef aft gs k = Some res ->
  exists bef' aft', k (Cursor bef' aft' gs) = Some res.
Proof.
  induction aft as [|c aft IH]; intros bef gs k res H; simpl in H.
  - eauto.
  - destruct (p c); [|eauto].
    apply or_else_some in H as [H|H]; eauto.
Qed.

(** A match through a pattern ends in the continuation, at a cursor that
    kept the groups it had and gained those the pattern captures. *)
Lemma rx_continues r : forall cur k res,
  rx r cur k = Some res ->
  exists cur',
    k cur' = Some res
    /\ (forall i, has_group i (groups cur) = true ->
                  has_group i (groups cur') = true)
    /\ (forall i, captures r i = true -> has_group i (groups cur') = true).
Proof.
  induction r as [|p|p|p| | | |a IHa b IHb|a IHa b IHb|j a IHa];
    intros cur k res H; simpl in H.
  - exists cur; simpl; intuition discriminate.
  - destruct (after cur) as [|c rest]; [discriminate|].
    destruct (p c); [|discriminate].
    exists (advance c rest cur); simpl; intuition discriminate.
  - apply star_continues in H as (bef' & aft' & H).
    eexists; split; [exact H|]; simpl; intuition discriminate.
  - destruct (after cur) as [|c rest].
    + exists cur; simpl; intuition discriminate.
    + destruct (p c).
      * apply or_else_some in H as [H|H];
          [exists (advance c rest cur) | exists cur];
          simpl; intuition discriminate.
      * exists cur; simpl; intuition discriminate.
  - destruct (before cur); [|discriminate].
    exists cur; simpl; intuition discriminate.
  - destruct (at_end cur); [|discriminate].
    exists cur; simpl; intuition discriminate.
  - destruct (word_boundary cur); [|discriminate].
    exists cur; simpl; intuition discriminate.
  - apply IHa in H as (cur1 & H & Hkeep1 & Hcap1).
    apply IHb in H as (cur2 & H & Hkeep2 & Hcap2).
    exists cur2; split; [exact H|]; split.
    + auto.
    + intros i Hi; simpl in Hi; apply orb_true_iff in Hi as [Hi|Hi]; auto.
  - apply or_else_some in H as [H|H].
    + apply IHa in H as (cur1 & H & Hkeep & Hcap).
      exists cur1; repeat split; auto.
      intros i Hi; simpl in Hi; apply andb_true_iff in Hi as [Hi _]; auto.
    + apply IHb in H as (cur1 & H & Hkeep & Hcap).
      exists cur1; repeat split; auto.
      intros i Hi; simpl in Hi; apply andb_true_iff in Hi as [_ Hi]; auto.
  - apply IHa in H as (cur1 & H & Hkeep & Hcap).
    eexists; split; [exact H|]; simpl; split.
    + intros i Hi; unfold has_group; simpl.
      destruct (Nat.eqb j i); [reflexivity|]; now apply Hkeep.
    + intros i Hi; unfold has_group; simpl.
      destruct (Nat.eqb j i); [reflexivity|].
      simpl in Hi; now apply Hcap.
Qed.

Lemma match_at_group r bef aft m i :
  match_at r bef aft = Some m -> captures r i = true ->
  exists s, group m i = Some s.
Proof.
  unfold match_at; intros H Hi.
  destruct (rx r (Cursor bef aft []) (fun c => Some c)) as [cur'|] eqn:E;
    [|discriminate].
  injection H as <-.
  apply rx_continues in E as (cur1 & E & _ & Hcap).
  injection E as ->.
  specialize (Hcap i Hi); unfold has_group in Hcap.
  unfold group; simpl.
  destruct (find _ (groups cur')) as [g|]; [|discriminate].
  now exists (snd g).
Qed.

Lemma re_match_group r s m i :
  re_match r s = Some m -> captures r i = true -> exists t, group m i = Some t.
Proof. apply match_at_group. Qed.

Lemma search_from_group r aft : forall bef m i,
  search_from r bef aft = Some m -> captures r i = true ->
  exists s, group m i = Some s.
Proof.
  induction aft as [|c aft IH]; intros bef m i H Hi; simpl in H;
    apply or_else_some in H as [H|H]; try discriminate;
    eauto using match_at_group.
Qed.

Lemma re_search_group r s m i :
  re_search r s = Some m -> captures r i = true -> exists t, group m i = Some t.
Proof. apply search_from_group. Qed.

End Matcher.

(** ** AddressParser *)

Lemma extract_country_returns result address :
  returns (extract_country result address).
Proof.
  unfold extract_country.
  destruct (re_search country_re address) as [m|] eqn:E; [|now eexists].
  destruct (re_search_group country_re address m 1 E eq_refl) as [s ->].
  now eexists.
Qed.

Lemma extract_postalcode_returns result address :
  returns (extract_postalcode result address).
Proof.
  unfold extract_postalcode.
  destruct (re_search postalcode_re address) as [m|] eqn:E; [|now eexists].
  destruct (re_search_group postalcode_re address m 1 E eq_refl) as [s ->].
  now eexists.
Qed.

Lemma extract_city_returns result address :
  returns (extract_city result address).
Proof.
  unfold extract_city.
  destruct (truthy_str address); [|now eexists].
  destruct (0 <? length (split_on comma address))%nat eqn:E; [|now eexists].
  destruct (last_item_nonempty _ (positive_length _ E)) as [x ->].
  now eexists.
Qed.

Lemma extract_number_returns result parts :
  returns (extract_number result parts).
Proof.
  unfold extract_number.
  destruct parts as [|p0 parts]; [now eexists|].
  cbn [Nat.leb length first_item bind].
  set (potential_number := strip (re_sub leading_dash_re [] (strip p0))).
  destruct (re_match number_only_re potential_number); [now eexists|].
  destruct (re_match number_dash_rest_re potential_number) as [m|] eqn:E.
  - destruct (re_match_group number_dash_rest_re potential_number m 2 E eq_refl)
      as [s ->].
    now eexists.
  - destruct (re_match number_space_rest_re potential_number) as [m|] eqn:E';
      [|now eexists].
    destruct (re_match_group number_space_rest_re potential_number m 2 E' eq_refl)
      as [s ->].
    now eexists.
Qed.

Lemma extract_neighborhood_returns result parts :
  returns (extract_neighborhood result parts).
Proof.
  unfold extract_neighborhood.
  destruct (0 <? length parts)%nat eqn:E; [|now eexists].
  apply positive_length in E.
  destruct (last_item_nonempty _ E) as [last ->]; cbn [bind].
  set (last_part := strip (re_sub leading_dash_re [] (strip last))).
  destruct (negb (rfind last_part (py " - ") =? -1)%Z); [|now eexists].
  destruct (truthy_str (strip (slice_to last_part (rfind last_part (py " - ")))));
    [|now eexists].
  destruct (set_last_nonempty parts
              (strip (slice_to last_part (rfind last_part (py " - ")))) E)
    as [parts' ->].
  now eexists.
Qed.

(** C5: on "Rua Augusta, 123 - Consolação, São Paulo - SP, 01305-000, Brasil"
    the address parser returns street type "Rua", street name "Augusta",
    number "123", neighborhood "Consolação", city "São Paulo", state "SP",
    postal code "01305000" with the dash stripped, country "Brasil", and no
    complement. *)
Theorem parse_street_name_rua_augusta :
  parse_street_name
    (Some (py "Rua Augusta, 123 - Consolação, São Paulo - SP, 01305-000, Brasil"))
  = Ok {| street_type := Some (py "Rua");
          street_name := Some (py "Augusta");
          street_number := Some (py "123");
          street_complement := None;
          street_neighborhood := Some (py "Consolação");
          postalcode := Some (py "01305000");
          city := Some (py "São Paulo");
          state := Some (py "SP");
          country := Some (py "Brasil") |}.
Proof. vm_compute. reflexivity. Qed.

(** The forms the comments of the parser name: a number with the
    neighborhood behind a dash, a complement before the neighborhood, an
    abbreviated street type. *)
Example parse_street_name_number_dash_neighborhood :
  parse_street_name (Some (py "Rua dos Pinheiros, 275 - Pinheiros, São Paulo - SP, 05422-010, Brasil"))
  = Ok {| street_type := Some (py "Rua");
          street_name := Some (py "dos Pinheiros");
          street_number := Some (py "275");
          street_complement := None;
          street_neighborhood := Some (py "Pinheiros");
          postalcode := Some (py "05422010");
          city := Some (py "São Paulo");
          state := Some (py "SP");
          country := Some (py "Brasil") |}.
Proof. vm_compute. reflexivity. Qed.

Example parse_street_name_complement :
  parse_street_name (Some (py "R. Augusta, 1508, loja 14 - Consolação, São Paulo - SP, Brasil"))
  = Ok {| street_type := Some (py "R.");
          street_name := Some (py "Augusta");
          street_number := Some (py "1508");
          street_complement := Some (py "loja 14");
          street_neighborhood := Some (py "Consolação");
          postalcode := None;
          city := Some (py "São Paulo");
          state := Some (py "SP");
          country := Some (py "Brasil") |}.
Proof. vm_compute. reflexivity. Qed.

Example parse_street_name_avenida_paulista :
  parse_street_name (Some (py "Av. Paulista, 1000, Bela Vista, São Paulo - SP, Brasil"))
  = Ok {| street_type := Some (py "Av.");
          street_name := Some (py "Paulista");
          street_number := Some (py "1000");
          street_complement := None;
          street_neighborhood := Some (py "Bela Vista");
          postalcode := None;
          city := Some (py "São Paulo");
          state := Some (py "SP");
          country := Some (py "Brasil") |}.
Proof. vm_compute. reflexivity. Qed.

(** C9: the address parser is total: on every input, the empty string and
    malformed text included, it returns a dictionary and raises nothing; on
    the empty string (and on None) each of the nine fields is absent. *)
Theorem parse_street_name_total :
  (forall address : option str, returns (parse_street_name address))
  /\ parse_street_name (Some []) = Ok no_address
  /\ parse_street_name None = Ok no_address
  /\ no_address = ParsedAddress None None None None None None None None None.
Proof.
  split; [|repeat split].
  intros [address|]; [|now eexists].
  unfold parse_street_name.
  destruct (negb (truthy_str address)); [now eexists|].
  set (a0 := join [blank] (split_ws address)); clearbody a0.
  destruct (extract_country_returns no_address a0) as [[r1 a1] ->]; cbn [bind].
  destruct (extract_postalcode_returns r1 a1) as [[r2 a2] ->]; cbn [bind].
  destruct (extract_state r2 a2) as [r3 a3].
  destruct (extract_city_returns r3 a3) as [[r4 a4] ->]; cbn [bind].
  destruct (negb (truthy_str a4)); [now eexists|].
  set (parts := map strip _); clearbody parts.
  destruct parts as [|first_part parts]; [now eexists|].
  cbn [length Nat.eqb first_item bind tl].
  destruct (extract_number_returns (extract_street r4 first_part) parts)
    as [[r5 parts5] ->]; cbn [bind].
  apply extract_neighborhood_returns.
Qed.

(** ** OpeningHoursNormalizer *)

Lemma zfill_two_digits (n : Z) :
  (0 <= n < 100)%Z -> zfill 2 (str_of_int n) = two_digits n.
Proof.
  intros Hn.
  assert (H : exists k, (k < 100)%nat /\ n = Z.of_nat k)
    by (exists (Z.to_nat n); lia).
  destruct H as (k & Hk & ->); clear Hn.
  do 100 (destruct k as [|k]; [reflexivity|]).
  lia.
Qed.

Lemma format_time_hh_mm (t : Api.point) :
  time_of_day t = true -> format_time t = hh_mm t.
Proof.
  unfold time_of_day, format_time, hh_mm; intros H.
  repeat (apply andb_true_iff in H as [H ?]).
  rewrite !zfill_two_digits by lia.
  reflexivity.
Qed.

Lemma format_period_open_entry (rid : Z) (p : Api.period) :
  raw_period p = true -> format_period rid p = open_entry rid p.
Proof.
  unfold raw_period, format_period, open_entry, period_day; intros H.
  apply andb_true_iff in H as [H Hclose].
  apply andb_true_iff in H as [Hday Hopen].
  rewrite !format_time_hh_mm by assumption.
  destruct (Api.open p) as [o|]; [|discriminate]; simpl.
  reflexivity.
Qed.

Lemma opened_days_days_of (ps : list Api.period) :
  forallb raw_period ps = true -> opened_days ps = days_of ps.
Proof.
  induction ps as [|p ps IH]; simpl; [reflexivity|]; intros H.
  apply andb_true_iff in H as [Hp Hps].
  rewrite IH by assumption.
  unfold raw_period, period_day in Hp |- *.
  destruct (Api.open p) as [o|]; [|discriminate].
  unfold truthy_point.
  destruct (Api.day o); [|discriminate].
  reflexivity.
Qed.

Lemma days_of_in_week (ps : list Api.period) :
  forallb raw_period ps = true -> incl (days_of ps) week.
Proof.
  induction ps as [|p ps IH]; simpl; intros H d Hd; [contradiction|].
  apply andb_true_iff in H as [Hp Hps].
  destruct Hd as [<-|Hd]; [|now apply IH].
  unfold raw_period in Hp.
  destruct (period_day p) as [d|]; [|discriminate]; simpl.
  repeat (apply andb_true_iff in Hp as [Hp ?]).
  assert (d = 0 \/ d = 1 \/ d = 2 \/ d = 3 \/ d = 4 \/ d = 5 \/ d = 6)%Z
    as Hd by lia.
  unfold week; simpl; intuition.
Qed.

Lemma day_in_spec (d : Z) (days : list Z) : day_in d days = true <-> In d days.
Proof.
  unfold day_in; rewrite existsb_exists; split.
  - intros (x & Hx & E); apply Z.eqb_eq in E; now subst.
  - intros H; exists d; split; [assumption | apply Z.eqb_refl].
Qed.

(** The days given and the days left over are the week. *)
Lemma days_and_absent_days (days : list Z) :
  NoDup days -> incl days week ->
  Permutation (days ++ filter (fun d => negb (day_in d days)) week) week.
Proof.
  intros Hnd Hincl.
  apply NoDup_Permutation.
  - apply NoDup_app; [assumption | | ].
    + apply NoDup_filter; unfold week.
      repeat (constructor; [simpl; intuition lia|]); constructor.
    + intros d Hd Hf; apply filter_In in Hf as [_ Hf].
      apply day_in_spec in Hd; rewrite Hd in Hf; discriminate.
  - unfold week; repeat (constructor; [simpl; intuition lia|]); constructor.
  - intros d; rewrite in_app_iff, filter_In; split.
    + intros [H|[H _]]; auto.
    + intros H; destruct (day_in d days) eqn:E.
      * left; now apply day_in_spec.
      * right; now split.
Qed.

Lemma week_names_distinct : NoDup (map format_day_name week).
Proof.
  unfold week; simpl.
  repeat (constructor; [simpl; intuition discriminate|]); constructor.
Qed.

Example hh_mm_nine : hh_mm (Api.Point (Some 1%Z) (Some 9%Z) (Some 0%Z)) = py "09:00".
Proof. reflexivity. Qed.

(** C4: for a list of raw opening periods in which each day 0-6 occurs at
    most once, the normalizer returns the empty list on empty (or absent)
    input and otherwise exactly 7 entries, whose days are the days 0-6
    without duplicates: an open entry for every period, with zero-padded
    HH:MM times, in the order given, then a closed entry with null times for
    each absent day in ascending order. *)
Theorem format_opening_hours_periods_week (rid : Z) (ps : list Api.period) :
  forallb raw_period ps = true ->
  NoDup (days_of ps) ->
  format_opening_hours_periods None rid = []
  /\ format_opening_hours_periods (Some ps) rid = weekly_schedule rid ps
  /\ (ps = [] -> format_opening_hours_periods (Some ps) rid = [])
  /\ (ps <> [] ->
      let out := format_opening_hours_periods (Some ps) rid in
      length out = 7%nat
      /\ Permutation (map day_of_the_week out) (map format_day_name week)
      /\ NoDup (map day_of_the_week out)).
Proof.
  intros Hraw Hnd.
  assert (Hout : format_opening_hours_periods (Some ps) rid
                 = weekly_schedule rid ps).
  { destruct ps as [|p ps]; [reflexivity|].
    unfold format_opening_hours_periods, weekly_schedule, absent_days.
    rewrite (opened_days_days_of _ Hraw).
    f_equal.
    apply map_ext_in; intros q Hq.
    apply format_period_open_entry.
    rewrite forallb_forall in Hraw; now apply Hraw. }
  split; [reflexivity|]. split; [exact Hout|].
  split; [intros ->; reflexivity|].
  intros Hne; cbv zeta; rewrite Hout.
  destruct ps as [|p ps]; [congruence|].
  unfold weekly_schedule.
  set (qs := p :: ps) in *.
  pose proof (days_and_absent_days (days_of qs) Hnd (days_of_in_week qs Hraw))
    as Hperm.
  assert (Hdays : map day_of_the_week
                      (map (open_entry rid) qs
                       ++ map (closed_entry rid) (absent_days qs))
                  = map format_day_name
                      (days_of qs
                       ++ filter (fun d => negb (day_in d (days_of qs))) week)).
  { rewrite !map_app, !map_map; unfold days_of; rewrite map_map; reflexivity. }
  assert (Hp : Permutation
                 (map day_of_the_week
                      (map (open_entry rid) qs
                       ++ map (closed_entry rid) (absent_days qs)))
                 (map format_day_name week))
    by (rewrite Hdays; now apply Permutation_map).
  split; [|split].
  - rewrite <- (length_map day_of_the_week).
    rewrite (Permutation_length Hp); reflexivity.
  - exact Hp.
  - apply (Permutation_NoDup (Permutation_sym Hp)), week_names_distinct.
Qed.

(** Outside the statement: a period whose [open] has no [day] is formatted
    as a Sunday, yet Sunday is not among the opened days, so it is added as
    a closed day as well. *)
Example period_without_day_is_sunday_twice :
  let p := Api.Period (Some (Api.Point None (Some 9%Z) (Some 0%Z))) None in
  map (fun e => (day_of_the_week e, is_opened e))
      (format_opening_hours_periods (Some [p]) 1)
  = (format_day_name 0, true)
      :: map (fun d => (format_day_name d, false)) week.
Proof. reflexivity. Qed.

(** Periods for Monday, Wednesday and Friday: a witness for the statement. *)
Lemma format_opening_hours_periods_week_witness :
  let at_nine (d : Z) :=
    Api.Period (Some (Api.Point (Some d) (Some 9%Z) (Some 0%Z)))
               (Some (Api.Point (Some d) (Some 18%Z) (Some 30%Z))) in
  let ps := [at_nine 1%Z; at_nine 3%Z; at_nine 5%Z] in
  forallb raw_period ps = true
  /\ NoDup (days_of ps)
  /\ length (format_opening_hours_periods (Some ps) 1) = 7%nat
  /\ map is_opened (format_opening_hours_periods (Some ps) 1)
     = [true; true; true; false; false; false; false]
  /\ map opens_at (format_opening_hours_periods (Some ps) 1)
     = [Some (py "09:00"); Some (py "09:00"); Some (py "09:00");
        None; None; None; None]
  /\ map day_of_the_week (format_opening_hours_periods (Some ps) 1)
     = map format_day_name [1; 3; 5; 0; 2; 4; 6]%Z.
Proof.
  intros at_nine ps.
  assert (Hraw : forallb raw_period ps = true) by reflexivity.
  assert (Hnd : NoDup (days_of ps)).
  { simpl. repeat (constructor; [simpl; intuition discriminate|]). constructor. }
  destruct (format_opening_hours_periods_week 1 ps Hraw Hnd)
    as (_ & Hout & _ & Hweek).
  split; [exact Hraw|]. split; [exact Hnd|].
  split; [apply Hweek; discriminate|].
  rewrite Hout; repeat split.
Defined.

(** ** Statements on the connection *)

Section Statements.

Variable refuses : tables -> statement -> bool.

Lemma dbind_ok {A B} (m : db A) (f : A -> db B) conn b conn' :
  dbind m f conn = (Ok b, conn') ->
  exists a conn1, m conn = (Ok a, conn1) /\ f a conn1 = (Ok b, conn').
Proof.
  unfold dbind; destruct (m conn) as [[a|e] conn1]; [eauto | discriminate].
Qed.

Lemma dbind_step {A B} (m : db A) (f : A -> db B) conn a conn1 :
  m conn = (Ok a, conn1) -> dbind m f conn = f a conn1.
Proof. unfold dbind; now intros ->. Qed.

Lemma execute_ok s effect conn conn' :
  execute refuses s effect conn = (Ok tt, conn') ->
  conn' = set_working (effect (working conn)) conn.
Proof.
  unfold execute; destruct (refuses _ _); congruence.
Qed.

Lemma commit_ok conn conn' :
  commit refuses conn = (Ok tt, conn') ->
  conn' = Connection (working conn) (working conn) (restaurants_id_seq conn).
Proof.
  unfold commit; destruct (refuses _ _); congruence.
Qed.

(** A loop of statements that all succeed applies their effects in order. *)
Lemma for_each_execute {A} (stmt : A -> statement) (effect : A -> tables -> tables)
    (l : list A) : forall conn conn',
  for_each l (fun x => execute refuses (stmt x) (effect x)) conn = (Ok tt, conn') ->
  conn' = set_working (fold_left (fun t x => effect x t) l (working conn)) conn.
Proof.
  induction l as [|x l IH]; intros conn conn' H; simpl in H.
  - unfold ret in H; injection H as <-; now destruct conn.
  - apply dbind_ok in H as ([] & conn1 & H1 & H2).
    apply execute_ok in H1; subst conn1.
    apply IH in H2; subst conn'; reflexivity.
Qed.

Lemma same_records_refl conn : same_records conn conn.
Proof. repeat split. Qed.

Lemma same_records_trans c1 c2 c3 :
  same_records c1 c2 -> same_records c2 c3 -> same_records c1 c3.
Proof. unfold same_records; intuition congruence. Qed.

Lemma count_service_same_records month service conn conn' :
  count_service refuses month service conn = (Ok tt, conn') ->
  same_records conn conn'.
Proof.
  unfold count_service; intros H.
  apply dbind_ok in H as (found & conn1 & H1 & H2).
  unfold query in H1; destruct (refuses _ _); [discriminate|].
  injection H1 as <- <-.
  destruct (find _ _).
  - apply execute_ok in H2; subst; repeat split.
  - destruct (quota_limits_standard service).
    + apply execute_ok in H2; subst; repeat split.
    + unfold ret in H2; injection H2 as <-; apply same_records_refl.
Qed.

Lemma for_each_same_records {A} (body : A -> db unit) (l : list A) :
  (forall x conn conn', body x conn = (Ok tt, conn') -> same_records conn conn') ->
  forall conn conn',
    for_each l body conn = (Ok tt, conn') -> same_records conn conn'.
Proof.
  intros Hbody; induction l as [|x l IH]; intros conn conn' H; simpl in H.
  - unfold ret in H; injection H as <-; apply same_records_refl.
  - apply dbind_ok in H as ([] & conn1 & H1 & H2).
    eapply same_records_trans; eauto.
Qed.

(** [add_quota_counter] commits whatever the transaction holds. *)
Lemma add_quota_counter_ok now services conn conn' :
  add_quota_counter refuses now services conn = (Ok tt, conn') ->
  committed conn' = working conn'
  /\ restaurants (working conn') = restaurants (working conn)
  /\ opening_hours (working conn') = opening_hours (working conn)
  /\ restaurant_types (working conn') = restaurant_types (working conn)
  /\ restaurants_id_seq conn' = restaurants_id_seq conn.
Proof.
  unfold add_quota_counter; intros H.
  apply dbind_ok in H as ([] & conn1 & H1 & H2).
  apply for_each_same_records in H1;
    [|intros x c c'; apply count_service_same_records].
  apply commit_ok in H2; subst conn'; simpl.
  unfold same_records in H1; intuition.
Qed.

Lemma fold_left_append (l : list period_entry) : forall rows,
  fold_left (fun t x => set_opening_hours (opening_hours t ++ [x]) t) l rows
  = set_opening_hours (opening_hours rows ++ l) rows.
Proof.
  induction l as [|x l IH]; intros rows; simpl.
  - rewrite app_nil_r; now destruct rows.
  - rewrite IH; simpl; now rewrite <- app_assoc.
Qed.

Lemma _insert_opening_hours_ok data rid conn conn' :
  _insert_opening_hours refuses data rid conn = (Ok tt, conn') ->
  conn' = set_working
            (set_opening_hours
               (opening_hours (working conn)
                ++ format_opening_hours_periods (periods_of data) rid)
               (working conn)) conn.
Proof.
  unfold _insert_opening_hours; fold (periods_of data); intros H.
  destruct (periods_of data) as [[|p ps]|] eqn:E.
  - unfold ret in H; injection H as <-; simpl.
    rewrite app_nil_r; now destruct conn as [c []].
  - apply for_each_execute in H; rewrite fold_left_append in H; exact H.
  - unfold ret in H; injection H as <-; simpl.
    rewrite app_nil_r; now destruct conn as [c []].
Qed.

Lemma fold_left_insert_type {A} (g : A -> type_row) (l : list A) : forall t,
  fold_left (fun t x => set_restaurant_types
                          (insert_type (g x) (restaurant_types t)) t) l t
  = set_restaurant_types (insert_types (map g l) (restaurant_types t)) t.
Proof.
  unfold insert_types; induction l as [|x l IH]; intros t; simpl.
  - now destruct t.
  - rewrite IH; reflexivity.
Qed.

Lemma insert_types_app (l1 l2 : list type_row) (rows : list type_row) :
  insert_types (l1 ++ l2) rows = insert_types l2 (insert_types l1 rows).
Proof. unfold insert_types; apply fold_left_app. Qed.

Lemma _insert_restaurant_types_ok data rid conn conn' :
  _insert_restaurant_types refuses data rid conn = (Ok tt, conn') ->
  conn' = set_working
            (set_restaurant_types
               (insert_types (type_rows data rid)
                             (restaurant_types (working conn)))
               (working conn)) conn.
Proof.
  unfold _insert_restaurant_types, type_rows, primary_name; intros H.
  apply dbind_ok in H as ([] & conn1 & H1 & H2).
  rewrite insert_types_app.
  set (plain := filter truthy_str (get_or (Api.types data) [])) in *.
  assert (E1 : conn1 = set_working
                         (set_restaurant_types
                            (insert_types (map (fun t => TypeRow rid t false) plain)
                                          (restaurant_types (working conn)))
                            (working conn)) conn).
  { clear H2. unfold insert_restaurant_type in H1.
    apply (for_each_execute
             (fun t => InsertRestaurantType (TypeRow rid t false))
             (fun t tb => set_restaurant_types
                            (insert_type (TypeRow rid t false)
                                         (restaurant_types tb)) tb)) in H1.
    subst conn1; f_equal.
    apply fold_left_insert_type. }
  subst conn1.
  destruct (Api.text _) as [p|].
  - destruct (truthy_str p).
    + apply execute_ok in H2; subst conn'; reflexivity.
    + unfold ret in H2; injection H2 as <-; reflexivity.
  - unfold ret in H2; injection H2 as <-; reflexivity.
Qed.

Lemma execute_keeps_committed s effect : keeps_committed (execute refuses s effect).
Proof.
  intros conn r conn'; unfold execute.
  destruct (refuses _ _); intros H; injection H as <- <-; reflexivity.
Qed.

Lemma ret_keeps_committed {A} (a : A) : keeps_committed (ret a).
Proof. intros conn r conn' H; injection H as <- <-; reflexivity. Qed.

Lemma dbind_keeps_committed {A B} (m : db A) (f : A -> db B) :
  keeps_committed m -> (forall a, keeps_committed (f a)) ->
  keeps_committed (dbind m f).
Proof.
  intros Hm Hf conn r conn'; unfold dbind.
  destruct (m conn) as [[a|e] c1] eqn:E; intros H.
  - rewrite (Hf a _ _ _ H); exact (Hm _ _ _ E).
  - injection H as <- <-; exact (Hm _ _ _ E).
Qed.

Lemma for_each_keeps_committed {A} (body : A -> db unit) (l : list A) :
  (forall x, keeps_committed (body x)) -> keeps_committed (for_each l body).
Proof.
  intros Hbody; induction l as [|x l IH]; simpl.
  - apply ret_keeps_committed.
  - apply dbind_keeps_committed; auto.
Qed.

Lemma _insert_opening_hours_keeps_committed data rid :
  keeps_committed (_insert_opening_hours refuses data rid).
Proof.
  unfold _insert_opening_hours.
  destruct (Api.periods _) as [[|p ps]|]; try apply ret_keeps_committed.
  apply for_each_keeps_committed; intros x; apply execute_keeps_committed.
Qed.

Lemma _insert_restaurant_types_keeps_committed data rid :
  keeps_committed (_insert_restaurant_types refuses data rid).
Proof.
  unfold _insert_restaurant_types.
  apply dbind_keeps_committed.
  - apply for_each_keeps_committed; intros x; apply execute_keeps_committed.
  - intros _; destruct (Api.text _) as [p|]; [|apply ret_keeps_committed].
    destruct (truthy_str p);
      [apply execute_keeps_committed | apply ret_keeps_committed].
Qed.

Lemma dbind_raise_keeps_committed {A B} (m : db A) (f : A -> db B) :
  keeps_committed m -> (forall a, raise_keeps_committed (f a)) ->
  raise_keeps_committed (dbind m f).
Proof.
  intros Hm Hf conn e conn'; unfold dbind.
  destruct (m conn) as [[a|e'] c1] eqn:E; intros H.
  - rewrite (Hf a _ _ _ H); exact (Hm _ _ _ E).
  - injection H as <- <-; exact (Hm _ _ _ E).
Qed.

Lemma commit_raise_keeps_committed {A} (a : A) :
  raise_keeps_committed (dbind (commit refuses) (fun _ => ret a)).
Proof.
  intros conn e conn'; unfold dbind, commit, ret.
  destruct (refuses _ _); intros H; [|discriminate].
  injection H as <- <-; reflexivity.
Qed.

End Statements.

(** ** Type tags *)

Lemma same_type_key (t r : type_row) :
  same_type t r = true <-> type_key r = type_key t.
Proof.
  unfold same_type, type_key; rewrite andb_true_iff, Z.eqb_eq, str_eqb_eq.
  split; [intros [-> ->]; reflexivity | intros H; injection H; auto].
Qed.

Lemma absent_key (t : type_row) (rows : list type_row) :
  existsb (same_type t) rows = false -> ~ In (type_key t) (map type_key rows).
Proof.
  intros H Hin; apply in_map_iff in Hin as (r & Hk & Hr).
  assert (existsb (same_type t) rows = true); [|congruence].
  apply existsb_exists; exists r; split; [assumption|].
  now apply same_type_key.
Qed.

Lemma insert_type_cases (t : type_row) (rows : list type_row) :
  (existsb (same_type t) rows = true /\ insert_type t rows = rows)
  \/ (existsb (same_type t) rows = false /\ insert_type t rows = rows ++ [t]).
Proof. unfold insert_type; destruct (existsb _ rows); auto. Qed.

Lemma insert_type_unique (t : type_row) (rows : list type_row) :
  NoDup (map type_key rows) -> NoDup (map type_key (insert_type t rows)).
Proof.
  intros Hnd; destruct (insert_type_cases t rows) as [[_ ->]|[Habs ->]];
    [assumption|].
  rewrite map_app; simpl.
  apply NoDup_app; [assumption | repeat constructor; intros [] |].
  intros k Hk [<-|[]]; revert Hk; now apply absent_key.
Qed.

Lemma insert_types_unique (ts : list type_row) : forall rows,
  NoDup (map type_key rows) -> NoDup (map type_key (insert_types ts rows)).
Proof.
  unfold insert_types; induction ts as [|t ts IH]; intros rows H; simpl;
    [assumption|].
  apply IH, insert_type_unique, H.
Qed.

(** An insert that meets a conflict changes nothing; no insert changes a
    row that was there. *)
Lemma insert_types_extends (ts : list type_row) : forall rows,
  exists added, insert_types ts rows = rows ++ added.
Proof.
  unfold insert_types; induction ts as [|t ts IH]; intros rows; simpl.
  - exists []; now rewrite app_nil_r.
  - destruct (IH (insert_type t rows)) as [added ->].
    destruct (insert_type_cases t rows) as [[_ ->]|[_ ->]].
    + now exists added.
    + exists (t :: added); now rewrite <- app_assoc.
Qed.

Lemma insert_type_present (t : type_row) (rows : list type_row) :
  existsb (same_type t) (insert_type t rows) = true.
Proof.
  destruct (insert_type_cases t rows) as [[H ->]|[_ ->]]; [assumption|].
  rewrite existsb_app; simpl.
  replace (same_type t t) with true; [apply orb_true_r|].
  symmetry; now apply same_type_key.
Qed.

Lemma insert_type_keeps (t u : type_row) (rows : list type_row) :
  existsb (same_type t) rows = true ->
  existsb (same_type t) (insert_type u rows) = true.
Proof.
  intros H; destruct (insert_type_cases u rows) as [[_ ->]|[_ ->]];
    [assumption|].
  rewrite existsb_app, H; reflexivity.
Qed.

Lemma insert_types_keeps (t : type_row) (ts : list type_row) : forall rows,
  existsb (same_type t) rows = true ->
  existsb (same_type t) (insert_types ts rows) = true.
Proof.
  unfold insert_types; induction ts as [|u ts IH]; intros rows H; simpl;
    [assumption|].
  apply IH, insert_type_keeps, H.
Qed.

Lemma insert_types_present (ts : list type_row) : forall rows t,
  In t ts -> existsb (same_type t) (insert_types ts rows) = true.
Proof.
  induction ts as [|u ts IH]; intros rows t Hin; [contradiction|].
  change (insert_types (u :: ts) rows)
    with (insert_types ts (insert_type u rows)).
  destruct Hin as [->|Hin]; [|now apply IH].
  apply insert_types_keeps, insert_type_present.
Qed.

Lemma insert_types_noop (ts : list type_row) : forall rows,
  (forall t, In t ts -> existsb (same_type t) rows = true) ->
  insert_types ts rows = rows.
Proof.
  induction ts as [|u ts IH]; intros rows H; [reflexivity|].
  change (insert_types (u :: ts) rows)
    with (insert_types ts (insert_type u rows)).
  unfold insert_type at 1; rewrite (H u (or_introl eq_refl)).
  apply IH; intros t Ht; apply H; now right.
Qed.

(** Sending the same tags again inserts nothing. *)
Lemma insert_types_twice (ts rows : list type_row) :
  insert_types ts (insert_types ts rows) = insert_types ts rows.
Proof.
  apply insert_types_noop; intros t Ht; now apply insert_types_present.
Qed.

Lemma primary_tags_app (rid : Z) (a b : list type_row) :
  primary_tags rid (a ++ b) = primary_tags rid a ++ primary_tags rid b.
Proof. apply filter_app. Qed.

Lemma insert_type_primary_count (rid : Z) (t : type_row) (rows : list type_row) :
  (length (primary_tags rid (insert_type t rows))
   <= length (primary_tags rid rows) + (if is_primary_type t then 1 else 0))%nat.
Proof.
  destruct (insert_type_cases t rows) as [[_ ->]|[_ ->]]; [lia|].
  rewrite primary_tags_app, length_app; simpl.
  destruct (is_primary_type t); [|rewrite andb_false_r; simpl; lia].
  destruct (_ && _); simpl; lia.
Qed.

Lemma insert_types_primary_count (rid : Z) (ts : list type_row) : forall rows,
  (length (primary_tags rid (insert_types ts rows))
   <= length (primary_tags rid rows)
      + length (filter is_primary_type ts))%nat.
Proof.
  induction ts as [|t ts IH]; intros rows; [simpl; lia|].
  change (insert_types (t :: ts) rows)
    with (insert_types ts (insert_type t rows)).
  specialize (IH (insert_type t rows)).
  pose proof (insert_type_primary_count rid t rows).
  simpl; destruct (is_primary_type t); simpl; lia.
Qed.

(** A commit sends at most one tag flagged primary. *)
Lemma type_rows_one_primary (d : Api.place) (rid : Z) :
  (length (filter is_primary_type (type_rows d rid)) <= 1)%nat.
Proof.
  unfold type_rows; rewrite filter_app, length_app.
  assert (H : filter is_primary_type
                (map (fun t => TypeRow rid t false)
                     (filter truthy_str (get_or (Api.types d) []))) = []).
  { induction (filter truthy_str _) as [|t l IH]; simpl; auto. }
  rewrite H; destruct (primary_name d); simpl; lia.
Qed.

Lemma insert_types_primary_named (rid : Z) (p : str) (ts : list type_row) :
  (forall t, In t ts -> is_primary_type t = true -> restaurant_type t = p) ->
  forall rows,
    (forall r, In r (primary_tags rid rows) -> restaurant_type r = p) ->
    forall r, In r (primary_tags rid (insert_types ts rows)) ->
              restaurant_type r = p.
Proof.
  induction ts as [|t ts IH]; intros Hts rows Hrows r Hr; [now apply Hrows|].
  change (insert_types (t :: ts) rows)
    with (insert_types ts (insert_type t rows)) in Hr.
  revert r Hr; apply IH; [intros u Hu; apply Hts; now right|].
  intros r Hr.
  destruct (insert_type_cases t rows) as [[_ E]|[_ E]]; rewrite E in Hr;
    [now apply Hrows|].
  rewrite primary_tags_app in Hr; apply in_app_iff in Hr as [Hr|Hr];
    [now apply Hrows|].
  simpl in Hr.
  destruct (_ && is_primary_type t) eqn:Et; [|contradiction].
  destruct Hr as [<-|[]].
  apply andb_true_iff in Et as [_ Et].
  apply Hts; [now left | assumption].
Qed.

Lemma type_rows_primary_named (d : Api.place) (rid : Z) (p : str) :
  primary_name d = Some p \/ primary_name d = None ->
  forall t, In t (type_rows d rid) -> is_primary_type t = true ->
            restaurant_type t = p.
Proof.
  intros Hd t Ht Hp; unfold type_rows in Ht.
  apply in_app_iff in Ht as [Ht|Ht].
  - apply in_map_iff in Ht as (x & <- & _); discriminate.
  - destruct Hd as [Hd|Hd]; rewrite Hd in Ht; [|contradiction].
    destruct Ht as [<-|[]]; reflexivity.
Qed.

(** Rows with distinct keys, all of one restaurant and one tag: one at most. *)
Lemma one_row_per_key (rid : Z) (p : str) (rows : list type_row) :
  NoDup (map type_key rows) ->
  (forall r, In r (primary_tags rid rows) -> restaurant_type r = p) ->
  (length (primary_tags rid rows) <= 1)%nat.
Proof.
  intros Hnd Hp.
  assert (Hk : forall r, In r (primary_tags rid rows) -> type_key r = (rid, p)).
  { intros r Hr; unfold type_key; rewrite (Hp r Hr).
    apply filter_In in Hr as [_ Hr]; apply andb_true_iff in Hr as [Hr _].
    apply Z.eqb_eq in Hr; now rewrite Hr. }
  assert (Hnd' : NoDup (map type_key (primary_tags rid rows))).
  { clear Hp Hk; unfold primary_tags.
    induction rows as [|r rows IH]; simpl; [constructor|].
    inversion Hnd as [|? ? Hnotin Hnd1]; subst.
    destruct (_ && _); [|now apply IH].
    simpl; constructor; [|now apply IH].
    intros Hin; apply Hnotin.
    apply in_map_iff in Hin as (x & Hx & Hin).
    apply filter_In in Hin as [Hin _].
    apply in_map_iff; eauto. }
  destruct (primary_tags rid rows) as [|a [|b l]]; simpl; try lia.
  exfalso.
  simpl in Hnd'; inversion Hnd' as [|? ? Hnotin _]; subst.
  apply Hnotin; left.
  rewrite (Hk a), (Hk b); simpl; auto.
Qed.

Section TypeTags.

Variable refuses : tables -> statement -> bool.

(** The tags after commits for one restaurant that all succeeded. *)
Lemma tag_commits_ok (rid : Z) (ds : list Api.place) : forall conn conn',
  for_each ds (fun d => _insert_restaurant_types refuses d rid) conn
  = (Ok tt, conn') ->
  restaurant_types (working conn')
  = fold_left (fun rows d => insert_types (type_rows d rid) rows) ds
              (restaurant_types (working conn)).
Proof.
  induction ds as [|d ds IH]; intros conn conn' H; simpl in H.
  - unfold ret in H; now injection H as <-.
  - apply dbind_ok in H as ([] & conn1 & H1 & H2).
    apply _insert_restaurant_types_ok in H1.
    rewrite (IH _ _ H2), H1; reflexivity.
Qed.

(** C7, as the code has it: after any sequence of commits of type tags for
    one restaurant, the stored tags are unique on (restaurant, tag string);
    an insert that meets a conflict is ignored and no stored row is changed;
    each commit adds at most one tag flagged primary; and at most one tag of
    the restaurant is flagged primary as long as the commits, and the
    primary tags stored before, name one and the same primary type. *)
Theorem type_tags_unique_one_primary (rid : Z) (ds : list Api.place)
    (conn conn' : connection) :
  for_each ds (fun d => _insert_restaurant_types refuses d rid) conn
  = (Ok tt, conn') ->
  NoDup (map type_key (restaurant_types (working conn))) ->
  let stored := restaurant_types (working conn) in
  let stored' := restaurant_types (working conn') in
  NoDup (map type_key stored')
  /\ (exists added, stored' = stored ++ added)
  /\ (length (primary_tags rid stored')
      <= length (primary_tags rid stored) + length ds)%nat
  /\ (forall p,
        (forall d, In d ds -> primary_name d = Some p \/ primary_name d = None) ->
        (forall r, In r (primary_tags rid stored) -> restaurant_type r = p) ->
        (length (primary_tags rid stored') <= 1)%nat).
Proof.
  intros H Hnd stored stored'.
  apply tag_commits_ok in H.
  subst stored stored'; rewrite H; clear H conn'.
  generalize dependent (restaurant_types (working conn)); clear conn.
  induction ds as [|d ds IH]; intros rows Hnd; simpl.
  - repeat split; [assumption | exists []; now rewrite app_nil_r | lia |].
    intros p _ Hp; now apply one_row_per_key with p.
  - destruct (IH (insert_types (type_rows d rid) rows)
                 (insert_types_unique _ _ Hnd)) as (U & [added E] & C & P).
    split; [exact U|]. split; [|split].
    + destruct (insert_types_extends (type_rows d rid) rows) as [a Ea].
      exists (a ++ added); rewrite E, Ea; now rewrite app_assoc.
    + pose proof (insert_types_primary_count rid (type_rows d rid) rows).
      pose proof (type_rows_one_primary d rid).
      lia.
    + intros p Hds Hp; apply (P p).
      * intros d' Hd'; apply Hds; now right.
      * apply insert_types_primary_named; [|assumption].
        apply type_rows_primary_named, Hds; now left.
Qed.

End TypeTags.

Lemma type_tags_unique_one_primary_witness :
  let ds := [World.bar_x; World.bar_x] in
  let conn' := snd (for_each ds (fun d =>
                      _insert_restaurant_types World.accepts_all d 7)
                    World.fresh) in
  NoDup (map type_key (restaurant_types (working World.fresh)))
  /\ NoDup (map type_key (restaurant_types (working conn')))
  /\ (length (primary_tags 7 (restaurant_types (working conn'))) <= 1)%nat.
Proof.
  intros ds conn'.
  assert (Hnd : NoDup (map type_key (restaurant_types (working World.fresh))))
    by constructor.
  assert (Hrun : for_each ds (fun d =>
                   _insert_restaurant_types World.accepts_all d 7) World.fresh
                 = (Ok tt, conn')) by (vm_compute; reflexivity).
  destruct (type_tags_unique_one_primary World.accepts_all 7 ds World.fresh
              conn' Hrun Hnd) as (U & _ & _ & P).
  split; [exact Hnd|]. split; [exact U|].
  apply (P (py "Bar")).
  - intros d [<-|[<-|[]]]; left; reflexivity.
  - intros r [].
Defined.

(** C7, as stated, fails: "Bar X" is committed twice, and between the two
    commits the API changed its primary type from "Bar" to "Pizzaria".  Both
    commits succeed and the restaurant ends with two tags flagged primary. *)
Lemma two_primary_tags :
  let commit1 :=
    process_and_store World.post_search_text World.get_place
      World.accepts_all World.inserted_updated_at World.now (py "Bar X")
      World.fresh in
  let commit2 :=
    process_and_store World.post_search_text World.get_place_later
      World.accepts_all World.inserted_updated_at World.later (py "Bar X")
      (snd commit1) in
  fst commit1 = Ok tt /\ fst commit2 = Ok tt
  /\ map id (restaurants (committed (snd commit2))) = [1%Z]
  /\ primary_tags 1 (restaurant_types (committed (snd commit2)))
     = [TypeRow 1 (py "Bar") true; TypeRow 1 (py "Pizzaria") true]
  /\ ~ (length (primary_tags 1 (restaurant_types (committed (snd commit2))))
        <= 1)%nat.
Proof.
  vm_compute; repeat split; lia.
Qed.

(** ** NameReconciler *)

Lemma placeholder_chars : py "(%s)" = [40; 37; 115; 41]%N.
Proof. reflexivity. Qed.

Lemma split_placeholders (n : nat) :
  split_on comma (join [comma] (repeat (py "(%s)") (S n)))
  = repeat (py "(%s)") (S n).
Proof.
  rewrite placeholder_chars.
  induction n as [|n IH]; [reflexivity|].
  change (repeat [40; 37; 115; 41]%N (S (S n)))
    with ([40; 37; 115; 41]%N :: repeat [40; 37; 115; 41]%N (S n)).
  rewrite <- IH at 2.
  reflexivity.
Qed.

Lemma values_rows_placeholders (n : nat) :
  values_rows (join [comma] (repeat (py "(%s)") (S n))) = Some (S n).
Proof.
  unfold values_rows; rewrite split_placeholders, repeat_length.
  replace (forallb _ _) with true; [reflexivity|].
  symmetry; apply forallb_forall; intros x Hx.
  apply repeat_spec in Hx; subst x; apply str_eqb_refl.
Qed.

Lemma name_stored_spec (rows : list restaurant_row) (nome : str) :
  name_stored rows nome = true
  <-> In nome (map (fun r => google_name (columns r)) rows).
Proof.
  unfold name_stored; rewrite existsb_exists, in_map_iff; split.
  - intros (r & Hr & E); apply str_eqb_eq in E; eauto.
  - intros (r & E & Hr); exists r; split; [assumption|]; now apply str_eqb_eq.
Qed.

(** Whatever order the server chooses, it returns the rows it selected, each
    as many times as it was selected. *)
Lemma rows_returned_permutation (next_row : list str -> nat) (n : nat) :
  forall rows, length rows = n ->
               Permutation (rows_returned next_row n rows) rows.
Proof.
  induction n as [|n IH]; intros rows Hlen.
  - destruct rows; [constructor | discriminate].
  - destruct rows as [|r rest]; [discriminate|].
    cbn [rows_returned].
    set (rows := r :: rest) in *.
    set (i := (next_row rows mod length rows)%nat).
    assert (Hi : (i < length rows)%nat)
      by (apply Nat.mod_upper_bound; rewrite Hlen; discriminate).
    destruct (nth_split rows r Hi) as (l1 & l2 & E & Hl1).
    set (x := nth i rows r) in *.
    assert (E1 : firstn i rows = l1).
    { rewrite E, <- Hl1, firstn_app, firstn_all, Nat.sub_diag; simpl.
      apply app_nil_r. }
    assert (E2 : skipn (S i) rows = l2).
    { rewrite E, <- Hl1.
      change (x :: l2) with ([x] ++ l2); rewrite app_assoc.
      replace (S (length l1)) with (length (l1 ++ [x]))
        by (rewrite length_app; simpl; lia).
      rewrite skipn_app, skipn_all, Nat.sub_diag; reflexivity. }
    rewrite E1, E2, E; apply Permutation_cons_app, IH.
    rewrite E, length_app in Hlen; simpl in Hlen.
    rewrite length_app; lia.
Qed.

Lemma fetchall_permutation (next_row : list str -> nat) (rows : list str) :
  Permutation (fetchall next_row rows) rows.
Proof. now apply rows_returned_permutation. Qed.

Section Reconciler.

Variable refuses : tables -> statement -> bool.
Variable next_row : list str -> nat.

(** C10: when the list of names is empty the VALUES list is empty, the
    query is malformed and the call raises rather than return an empty
    result. *)
Theorem get_restaurants_to_insert_empty_raises (conn : connection) :
  join [comma] (repeat (py "(%s)") (length (@nil str))) = []
  /\ values_rows [] = None
  /\ get_restaurants_to_insert refuses next_row [] conn
     = (Raise ProgrammingError, conn).
Proof. repeat split. Qed.

(** C8, as the code has it: for a non-empty list of desired names, when the
    server runs the query, the names returned are the desired names that
    equal no stored name, strings compared exactly as they are, untrimmed,
    each as many times as it is desired and in the order the server chooses
    (the query has no ORDER BY): a name is returned if and only if it is
    desired and is not the name of a stored restaurant. *)
Theorem get_restaurants_to_insert_difference (names : list str)
    (conn : connection) :
  names <> [] ->
  refuses (working conn)
          (SelectNamesToInsert
             (join [comma] (repeat (py "(%s)") (length names))) names) = false ->
  exists to_insert,
    get_restaurants_to_insert refuses next_row names conn
    = (Ok to_insert, conn)
    /\ Permutation to_insert
         (filter (fun n => negb (name_stored (restaurants (working conn)) n))
                 names)
    /\ (forall n, In n to_insert
                  <-> In n names /\ ~ In n (stored_names (working conn))).
Proof.
  intros Hne Hrun.
  set (selected := names_not_stored (restaurants (working conn)) names).
  pose proof (fetchall_permutation next_row selected) as Hperm.
  exists (fetchall next_row selected).
  split; [|split; [exact Hperm|]].
  - unfold get_restaurants_to_insert.
    destruct names as [|n names]; [congruence|].
    cbn [length] in *.
    rewrite values_rows_placeholders, Nat.eqb_refl; simpl negb; cbv iota.
    unfold query; rewrite Hrun; reflexivity.
  - intros n.
    assert (Hin : In n (fetchall next_row selected) <-> In n selected).
    { split; apply Permutation_in;
        [exact Hperm | apply Permutation_sym, Hperm]. }
    rewrite Hin; unfold selected, names_not_stored, stored_names.
    rewrite filter_In, negb_true_iff, <- name_stored_spec.
    split; intros [H1 H2]; split; auto; [congruence|].
    now destruct (name_stored _ n).
Qed.

End Reconciler.

(** "Bar X" is stored; of "Bar Y", "Bar X", "Bar Z" a server that returns
    the rows last to first gives "Bar Z", then "Bar Y". *)
Lemma get_restaurants_to_insert_difference_witness :
  let names := [py "Bar Y"; py "Bar X"; py "Bar Z"] in
  let stored := Tables [RestaurantRow 1 (RestaurantParams (py "id-x") (py "Bar X")
                          None no_address None None None None None None false
                          None None) None] [] [] [] in
  let conn := Connection stored stored 2 in
  names <> []
  /\ fst (get_restaurants_to_insert World.accepts_all World.last_first
                                    names conn)
     = Ok [py "Bar Z"; py "Bar Y"]
  /\ Permutation [py "Bar Z"; py "Bar Y"] [py "Bar Y"; py "Bar Z"].
Proof.
  intros names stored conn.
  assert (Hne : names <> []) by discriminate.
  assert (Hrows : fst (get_restaurants_to_insert World.accepts_all
                         World.last_first names conn)
                  = Ok [py "Bar Z"; py "Bar Y"])
    by (vm_compute; reflexivity).
  assert (Hsel : filter (fun n => negb (name_stored
                                          (restaurants (working conn)) n))
                        names = [py "Bar Y"; py "Bar Z"])
    by (vm_compute; reflexivity).
  destruct (get_restaurants_to_insert_difference World.accepts_all
              World.last_first names conn Hne eq_refl)
    as (to_insert & Hrun & Hperm & _).
  assert (E : to_insert = [py "Bar Z"; py "Bar Y"]).
  { pose proof Hrows as H; rewrite Hrun in H; cbn [fst] in H.
    now injection H. }
  rewrite E, Hsel in Hperm.
  exact (conj Hne (conj Hrows Hperm)).
Defined.

(** C8, as stated, fails: names are not trimmed before they are compared.
    With "Bar X" stored, the desired name "Bar X " (a trailing blank) equals
    a stored name after trimming, so the set difference of the claim is
    empty; the code returns it as a name to create. *)
Lemma untrimmed_name_returned :
  let names := [py "Bar X "] in
  let stored := Tables [RestaurantRow 1 (RestaurantParams (py "id-x") (py "Bar X")
                          None no_address None None None None None None false
                          None None) None] [] [] [] in
  let conn := Connection stored stored 2 in
  reconcile_trimmed names (stored_names stored) = []
  /\ fst (get_restaurants_to_insert World.accepts_all World.in_order
                                    names conn)
     = Ok [py "Bar X "]
  /\ fst (get_restaurants_to_insert World.accepts_all World.in_order
                                    names conn)
     <> Ok (reconcile_trimmed names (stored_names stored)).
Proof.
  vm_compute; repeat split; discriminate.
Qed.

(** ** RecordEnricher *)

(** The fields that are copied through as they are: absent stays absent. *)
Lemma optional_fields_copied (google_id restaurant_name : str)
    (d : Api.place) (street_parsed : parsed_address) (p : restaurant_params) :
  build_restaurant_params google_id restaurant_name d street_parsed = Ok p ->
  business_status p = Api.businessStatus d
  /\ website p = Api.websiteUri d
  /\ google_url p = Api.googleMapsUri d
  /\ ratings p = option_map float_str (Api.rating d)
  /\ (Api.editorialSummary d = None -> editorial_summary p = None)
  /\ (Api.displayName d = None -> google_display_name p = None)
  /\ vegetarian_food p = get_or (Api.servesVegetarianFood d) false.
Proof.
  unfold build_restaurant_params.
  destruct (Api.location d); [|discriminate].
  intros H; injection H as <-; simpl.
  repeat split; intros ->; reflexivity.
Qed.

(** C6 fails on the coordinates.  The answer for "Sem Coordenadas" has an
    address and a location object without latitude and longitude: the row
    is stored with the four-character text "None" in both columns, not with
    NULL, while the rating, the website, the business status and the
    editorial summary, absent as well, are stored as NULL.  The answer for
    "Sem Local" has no location object at all: building the parameters
    raises KeyError and nothing is stored. *)
Theorem missing_coordinates_stored_as_text :
  let stored :=
    process_and_store World.post_search_text World.get_place
      World.accepts_all World.inserted_updated_at World.now
      (py "Sem Coordenadas") World.fresh in
  let failed :=
    process_and_store World.post_search_text World.get_place
      World.accepts_all World.inserted_updated_at World.now
      (py "Sem Local") World.fresh in
  Api.location World.no_coordinates_place = Some (Api.LatLng None None)
  /\ Api.location World.no_location_place = None
  /\ fst stored = Ok tt
  /\ map (fun r => (latitude (columns r), longitude (columns r)))
         (restaurants (committed (snd stored)))
     = [(Some (py "None"), Some (py "None"))]
  /\ map (fun r => (ratings (columns r), website (columns r),
                    business_status (columns r), editorial_summary (columns r)))
         (restaurants (committed (snd stored)))
     = [(None, None, None, None)]
  /\ fst failed = Raise (KeyError (py "location"))
  /\ restaurants (committed (snd failed)) = [].
Proof. vm_compute; repeat split. Qed.

(** ** UpsertTransaction *)

(** C1 fails.  "Bar X" is not stored; the server refuses the inserts into
    opening_hours.  [process_and_store] raises and rolls back, but
    [add_quota_counter] has committed the connection in between: the
    restaurant row stays, with no schedule and no type tag. *)
Theorem schedule_failure_leaves_restaurant_row :
  let outcome :=
    process_and_store World.post_search_text World.get_place
      World.refuses_opening_hours World.inserted_updated_at World.now
      (py "Bar X") World.fresh in
  restaurants (committed World.fresh) = []
  /\ fst outcome = Raise DatabaseError
  /\ map (fun r => (id r, google_name (columns r)))
         (restaurants (committed (snd outcome))) = [(1%Z, py "Bar X")]
  /\ opening_hours (committed (snd outcome)) = []
  /\ restaurant_types (committed (snd outcome)) = []
  /\ committed (snd outcome) <> committed World.fresh.
Proof. vm_compute; repeat split; discriminate. Qed.

Lemma find_map_same (P : restaurant_row -> bool)
    (f : restaurant_row -> restaurant_row) (rows : list restaurant_row) :
  (forall r, P (f r) = P r) ->
  find P (map f rows) = option_map f (find P rows).
Proof.
  intros HP; induction rows as [|r rows IH]; simpl; [reflexivity|].
  rewrite HP; destruct (P r); [reflexivity | exact IH].
Qed.

Lemma find_same_test (P Q : restaurant_row -> bool) (rows : list restaurant_row) :
  (forall r, P r = Q r) -> find P rows = find Q rows.
Proof.
  intros H; induction rows as [|r rows IH]; simpl; [reflexivity|].
  now rewrite H, IH.
Qed.

(** After the upsert the first row with the external id carries the id
    returned, and every row with the external id carries the new columns. *)
Lemma upsert_restaurant_row (inserted_at : option Z) (now new_id : Z)
    (p : restaurant_params) (rows rows' : list restaurant_row) (rid : Z) :
  upsert_restaurant inserted_at now new_id p rows = (rows', rid) ->
  (exists r, find (same_google_id p) rows' = Some r /\ id r = rid)
  /\ (forall r, In r rows' -> same_google_id p r = true -> columns r = p).
Proof.
  unfold upsert_restaurant.
  assert (Hself : forall i u, same_google_id p (RestaurantRow i p u) = true)
    by (intros; apply str_eqb_refl).
  destruct (find (same_google_id p) rows) as [r0|] eqn:E;
    intros H; injection H as <- <-.
  - split.
    + rewrite find_map_same, E; simpl.
      * apply find_some in E as [_ E]; rewrite E; eauto.
      * intros r; destruct (same_google_id p r) eqn:Er;
          [apply Hself | exact Er].
    + intros r Hr Hs; apply in_map_iff in Hr as (x & <- & _).
      destruct (same_google_id p x) eqn:Ex; [reflexivity | congruence].
  - split.
    + exists (RestaurantRow new_id p inserted_at); split; [|reflexivity].
      induction rows as [|x rows IH]; simpl in *; [now rewrite Hself|].
      destruct (same_google_id p x); [discriminate | now apply IH].
    + intros r Hr Hs; apply in_app_iff in Hr as [Hr|[<-|[]]]; [|reflexivity].
      pose proof (find_none _ _ E r Hr); congruence.
Qed.

(** An upsert that finds the row with the columns it brings changes the
    timestamp only. *)
Lemma upsert_restaurant_again (inserted_at : option Z) (now new_id : Z)
    (p : restaurant_params) (rows : list restaurant_row) (r : restaurant_row) :
  find (same_google_id p) rows = Some r ->
  (forall r', In r' rows -> same_google_id p r' = true -> columns r' = p) ->
  upsert_restaurant inserted_at now new_id p rows
  = (map (touch (google_id p) now) rows, id r).
Proof.
  intros E Hall; unfold upsert_restaurant; rewrite E; f_equal.
  apply map_ext_in; intros r' Hr'; unfold touch.
  fold (same_google_id p r').
  destruct (same_google_id p r') eqn:Es; [|reflexivity].
  now rewrite (Hall r' Hr' Es).
Qed.

Lemma build_restaurant_params_google_id (gid name : str) (d : Api.place)
    (sp : parsed_address) (p : restaurant_params) :
  build_restaurant_params gid name d sp = Ok p -> google_id p = gid.
Proof.
  unfold build_restaurant_params; destruct (Api.location d); [|discriminate].
  intros H; injection H as <-; reflexivity.
Qed.

Section Transaction.

Variable post_search_text : str -> outcome (response search_result).
Variable get_place : str -> outcome (response Api.place).
Variable refuses : tables -> statement -> bool.
Variable inserted_updated_at : Z -> option Z.

(** What a successful run of the try block leaves behind. *)
Lemma store_ok (now : clock) (gid name : str) (d : Api.place)
    (conn conn' : connection) (rid : Z) :
  store refuses inserted_updated_at now gid name d conn = (Ok rid, conn') ->
  exists sp p,
    parse_street_name (Api.formattedAddress d) = Ok sp
    /\ build_restaurant_params gid name d sp = Ok p
    /\ upsert_restaurant (inserted_updated_at (current_timestamp now))
                         (current_timestamp now) (restaurants_id_seq conn) p
                         (restaurants (working conn))
       = (restaurants (working conn'), rid)
    /\ committed conn' = working conn'
    /\ opening_hours (working conn')
       = opening_hours (working conn)
         ++ format_opening_hours_periods (periods_of d) rid
    /\ restaurant_types (working conn')
       = insert_types (type_rows d rid) (restaurant_types (working conn)).
Proof.
  unfold store; intros H.
  destruct (negb (truthy_opt_str (Api.formattedAddress d))); [discriminate|].
  apply dbind_ok in H as (sp & c0 & Hsp & H).
  unfold lift in Hsp; injection Hsp as Hsp <-.
  apply dbind_ok in H as (rid' & c1 & Hins & H).
  apply dbind_ok in H as ([] & c2 & Hquota & H).
  apply dbind_ok in H as ([] & c3 & Hhours & H).
  apply dbind_ok in H as ([] & c4 & Htypes & H).
  apply dbind_ok in H as ([] & c5 & Hcommit & H).
  unfold ret in H; injection H as -> <-.
  unfold _insert_restaurant in Hins.
  apply dbind_ok in Hins as (p & c0' & Hp & Hins).
  unfold lift in Hp; injection Hp as Hp <-.
  destruct (refuses (working conn) (UpsertRestaurant p)); [discriminate|].
  destruct (upsert_restaurant _ _ _ p (restaurants (working conn)))
    as [rows rid0] eqn:Eup.
  injection Hins as -> <-.
  apply add_quota_counter_ok in Hquota as (Hc2 & Hr2 & Hh2 & Ht2 & _).
  apply _insert_opening_hours_ok in Hhours.
  apply _insert_restaurant_types_ok in Htypes.
  apply commit_ok in Hcommit.
  exists sp, p; subst c5 c4 c3; simpl in *.
  rewrite Hr2, Hh2, Ht2; simpl.
  repeat split; assumption.
Qed.

(** Whatever fails after [add_quota_counter] has returned, the rollback
    keeps the restaurant rows of the upsert: they were committed with the
    counters. *)
Lemma failure_after_quota_counter (now : clock) (gid name : str)
    (d : Api.place) (sp : parsed_address) (rid : Z)
    (conn c1 c2 conn' : connection) (e : exn) :
  truthy_opt_str (Api.formattedAddress d) = true ->
  parse_street_name (Api.formattedAddress d) = Ok sp ->
  _insert_restaurant refuses inserted_updated_at now gid name d sp conn
  = (Ok rid, c1) ->
  add_quota_counter refuses now None c1 = (Ok tt, c2) ->
  store refuses inserted_updated_at now gid name d conn = (Raise e, conn') ->
  restaurants (committed (rollback conn')) = restaurants (working c1).
Proof.
  intros Haddr Hsp Hins Hquota H.
  unfold store in H; rewrite Haddr, Hsp in H.
  change (negb true) with false in H; cbv iota in H.
  rewrite (dbind_step (lift (Ok sp)) _ conn sp conn eq_refl) in H.
  rewrite (dbind_step _ _ conn rid c1 Hins) in H.
  rewrite (dbind_step _ _ c1 tt c2 Hquota) in H.
  assert (Hc : committed conn' = committed c2).
  { revert H.
    apply (dbind_raise_keeps_committed (_insert_opening_hours refuses d rid)).
    - apply _insert_opening_hours_keeps_committed.
    - intros _; apply dbind_raise_keeps_committed.
      + apply _insert_restaurant_types_keeps_committed.
      + intros _; apply commit_raise_keeps_committed. }
  apply add_quota_counter_ok in Hquota as (Hcw & Hr & _).
  simpl; rewrite Hc, Hcw; exact Hr.
Qed.

Lemma process_and_store_ok (now : clock) (name gid : str) (d : Api.place)
    (conn conn' : connection) :
  get_place_details post_search_text get_place name = Ok (Some gid, Some d) ->
  usable (Some gid, Some d) = true ->
  process_and_store post_search_text get_place refuses inserted_updated_at
                    now name conn = (Ok tt, conn') ->
  exists rid,
    store refuses inserted_updated_at now gid name d conn = (Ok rid, conn').
Proof.
  unfold process_and_store, usable; intros -> -> H.
  destruct (store _ _ _ _ _ _ conn) as [[rid|e] c]; [|discriminate].
  injection H as <-; eauto.
Qed.

(** C2, as the code has it: committing the same restaurant record twice,
    both commits succeeding, yields the same surrogate id; the restaurant
    rows are the same but for updated_at, which the second commit sets; the
    tag inserts of the second commit are no-ops.  The schedule rows are not
    deleted: each commit appends the normalized rows, so after the second
    commit the schedule holds the rows of the first followed by the same
    rows again. *)
Theorem recommit_same_record (now1 now2 : clock) (name gid : str)
    (d : Api.place) (conn0 conn1 conn2 : connection) :
  get_place_details post_search_text get_place name = Ok (Some gid, Some d) ->
  usable (Some gid, Some d) = true ->
  process_and_store post_search_text get_place refuses inserted_updated_at
                    now1 name conn0 = (Ok tt, conn1) ->
  process_and_store post_search_text get_place refuses inserted_updated_at
                    now2 name conn1 = (Ok tt, conn2) ->
  let has_gid := fun r => str_eqb (google_id (columns r)) gid in
  let t1 := committed conn1 in
  let t2 := committed conn2 in
  exists row,
    find has_gid (restaurants t1) = Some row
    /\ find has_gid (restaurants t2)
       = Some (RestaurantRow (id row) (columns row)
                             (Some (current_timestamp now2)))
    /\ restaurants t2 = map (touch gid (current_timestamp now2)) (restaurants t1)
    /\ restaurant_types t2 = restaurant_types t1
    /\ opening_hours t1
       = opening_hours (working conn0)
         ++ format_opening_hours_periods (periods_of d) (id row)
    /\ opening_hours t2
       = opening_hours t1
         ++ format_opening_hours_periods (periods_of d) (id row).
Proof.
  intros Hfetch Huse H1 H2 has_gid t1 t2; subst t1 t2.
  destruct (process_and_store_ok _ _ _ _ _ _ Hfetch Huse H1) as [rid1 S1].
  destruct (process_and_store_ok _ _ _ _ _ _ Hfetch Huse H2) as [rid2 S2].
  apply store_ok in S1 as (sp & p & Hsp & Hp & Hup1 & Hc1 & Hh1 & Ht1).
  apply store_ok in S2 as (sp' & p' & Hsp' & Hp' & Hup2 & Hc2 & Hh2 & Ht2).
  rewrite Hsp in Hsp'; injection Hsp' as <-.
  rewrite Hp in Hp'; injection Hp' as <-.
  pose proof (build_restaurant_params_google_id _ _ _ _ _ Hp) as Hgid.
  apply upsert_restaurant_row in Hup1 as [(row & Hfind & Hid) Hall].
  rewrite (upsert_restaurant_again _ _ _ _ _ _ Hfind Hall) in Hup2.
  injection Hup2 as Hrows2 Hrid2.
  assert (Hsame : forall r, same_google_id p r = has_gid r)
    by (intros r; unfold same_google_id, has_gid; now rewrite Hgid).
  rewrite Hgid in Hrows2.
  rewrite Hc1, Hc2 in *.
  assert (Hfind' : find has_gid (restaurants (working conn1)) = Some row).
  { rewrite <- Hfind; apply find_same_test; intros r; now rewrite Hsame. }
  exists row; split; [exact Hfind'|].
  assert (Hrow : has_gid row = true) by (apply find_some in Hfind' as [_ E]; exact E).
  split; [|split; [|split; [|split]]].
  - rewrite <- Hrows2, find_map_same, Hfind'; simpl.
    + unfold touch; fold (has_gid row); now rewrite Hrow.
    + intros r; unfold touch; fold (has_gid r).
      destruct (has_gid r) eqn:Er; [|exact Er].
      unfold has_gid in *; simpl; exact Er.
  - now rewrite <- Hrows2.
  - rewrite Ht2, <- Hrid2, Hid, Ht1; apply insert_types_twice.
  - now rewrite Hh1, Hid.
  - now rewrite Hh2, <- Hrid2, Hid.
Qed.

(** C3, as the code has it: a lookup that yields no place id or no details
    is skipped, the connection untouched, and the loop goes on with the
    names that follow; a missing address is rolled back and raised, and any
    exception [process_and_store] raises (a missing address, a failure of
    the storage, a failure of the lookup) ends the loop there, with the
    names that follow not processed. *)
Theorem fetch_failure_skipped_other_failures_raised (now : clock)
    (name : str) (rest : list str) (conn : connection) :
  (forall fetched,
     get_place_details post_search_text get_place name = Ok fetched ->
     usable fetched = false ->
     process_and_store post_search_text get_place refuses inserted_updated_at
                       now name conn = (Ok tt, conn)
     /\ process_names post_search_text get_place refuses inserted_updated_at
                      now (name :: rest) conn
        = process_names post_search_text get_place refuses inserted_updated_at
                        now rest conn)
  /\ (forall gid d,
        get_place_details post_search_text get_place name
        = Ok (Some gid, Some d) ->
        usable (Some gid, Some d) = true ->
        truthy_opt_str (Api.formattedAddress d) = false ->
        process_names post_search_text get_place refuses inserted_updated_at
                      now (name :: rest) conn
        = (Raise MissingAddressData, rollback conn))
  /\ (forall e conn',
        process_and_store post_search_text get_place refuses
                          inserted_updated_at now name conn = (Raise e, conn') ->
        process_names post_search_text get_place refuses inserted_updated_at
                      now (name :: rest) conn = (Raise e, conn')).
Proof.
  assert (Hloop : forall r c,
            process_and_store post_search_text get_place refuses
                              inserted_updated_at now name conn = (r, c) ->
            process_names post_search_text get_place refuses
                          inserted_updated_at now (name :: rest) conn
            = match r with
              | Ok _ => process_names post_search_text get_place refuses
                                      inserted_updated_at now rest c
              | Raise e => (Raise e, c)
              end).
  { intros r c H; unfold process_names; simpl; unfold dbind; rewrite H.
    destruct r; reflexivity. }
  split; [|split].
  - intros fetched Hfetch Huse.
    assert (H : process_and_store post_search_text get_place refuses
                  inserted_updated_at now name conn = (Ok tt, conn)).
    { unfold process_and_store; rewrite Hfetch.
      destruct fetched as [[gid|] [d|]]; try reflexivity.
      unfold usable in Huse; now rewrite Huse. }
    split; [exact H | exact (Hloop _ _ H)].
  - intros gid d Hfetch Huse Haddr.
    apply (Hloop (Raise MissingAddressData)).
    unfold process_and_store; rewrite Hfetch.
    unfold usable in Huse; rewrite Huse.
    unfold store; rewrite Haddr; reflexivity.
  - intros e conn' H; exact (Hloop _ _ H).
Qed.

End Transaction.

(** "Bar X" committed twice, the second time one thousand ticks later. *)
Lemma recommit_same_record_witness :
  let run1 :=
    process_and_store World.post_search_text World.get_place
      World.accepts_all World.inserted_updated_at World.now (py "Bar X")
      World.fresh in
  let run2 :=
    process_and_store World.post_search_text World.get_place
      World.accepts_all World.inserted_updated_at World.later (py "Bar X")
      (snd run1) in
  let has_gid := fun r => str_eqb (google_id (columns r)) (py "Bar X") in
  get_place_details World.post_search_text World.get_place (py "Bar X")
  = Ok (Some (py "Bar X"), Some World.bar_x)
  /\ usable (Some (py "Bar X"), Some World.bar_x) = true
  /\ run1 = (Ok tt, snd run1)
  /\ run2 = (Ok tt, snd run2)
  /\ exists row,
       find has_gid (restaurants (committed (snd run1))) = Some row
       /\ find has_gid (restaurants (committed (snd run2)))
          = Some (RestaurantRow (id row) (columns row) (Some 2000%Z))
       /\ restaurants (committed (snd run2))
          = map (touch (py "Bar X") 2000) (restaurants (committed (snd run1)))
       /\ restaurant_types (committed (snd run2))
          = restaurant_types (committed (snd run1))
       /\ opening_hours (committed (snd run1))
          = opening_hours (working World.fresh)
            ++ format_opening_hours_periods (periods_of World.bar_x) (id row)
       /\ opening_hours (committed (snd run2))
          = opening_hours (committed (snd run1))
            ++ format_opening_hours_periods (periods_of World.bar_x) (id row).
Proof.
  intros run1 run2 has_gid.
  assert (Hfetch : get_place_details World.post_search_text World.get_place
                     (py "Bar X") = Ok (Some (py "Bar X"), Some World.bar_x))
    by (vm_compute; reflexivity).
  assert (Huse : usable (Some (py "Bar X"), Some World.bar_x) = true)
    by (vm_compute; reflexivity).
  assert (H1 : run1 = (Ok tt, snd run1)) by (vm_compute; reflexivity).
  assert (H2 : run2 = (Ok tt, snd run2)) by (vm_compute; reflexivity).
  refine (conj Hfetch (conj Huse (conj H1 (conj H2 _)))).
  exact (recommit_same_record World.post_search_text World.get_place
           World.accepts_all World.inserted_updated_at World.now
           World.later (py "Bar X") (py "Bar X") World.bar_x World.fresh
           (snd run1) (snd run2) Hfetch Huse H1 H2).
Defined.

(** C2, as stated, fails on the schedule: nothing deletes the rows of the
    first commit.  "Bar X", open on Mondays, is committed twice; the first
    commit leaves 7 schedule rows, the second leaves 14. *)
Lemma recommit_duplicates_schedule :
  let run1 :=
    process_and_store World.post_search_text World.get_place
      World.accepts_all World.inserted_updated_at World.now (py "Bar X")
      World.fresh in
  let run2 :=
    process_and_store World.post_search_text World.get_place
      World.accepts_all World.inserted_updated_at World.later (py "Bar X")
      (snd run1) in
  fst run1 = Ok tt /\ fst run2 = Ok tt
  /\ map id (restaurants (committed (snd run2))) = [1%Z]
  /\ length (opening_hours (committed (snd run1))) = 7%nat
  /\ length (opening_hours (committed (snd run2))) = 14%nat
  /\ opening_hours (committed (snd run2))
     <> opening_hours (committed (snd run1)).
Proof. vm_compute; repeat split; discriminate. Qed.

(** "Nowhere" is not found by the search, the answer for "Sem Endereço" has
    no address, and the inserts of the schedule of "Bar X" are refused. *)
Lemma fetch_failure_skipped_other_failures_raised_witness :
  let names := [py "Bar X"] in
  let process (refuses : tables -> statement -> bool) :=
    process_and_store World.post_search_text World.get_place refuses
                      World.inserted_updated_at World.now in
  let loop (refuses : tables -> statement -> bool) :=
    process_names World.post_search_text World.get_place refuses
                  World.inserted_updated_at World.now in
  let refused := snd (process World.refuses_opening_hours (py "Bar X")
                              World.fresh) in
  (process World.accepts_all (py "Nowhere") World.fresh = (Ok tt, World.fresh)
   /\ loop World.accepts_all (py "Nowhere" :: names) World.fresh
      = loop World.accepts_all names World.fresh)
  /\ loop World.accepts_all (py "Sem Endereço" :: names) World.fresh
     = (Raise MissingAddressData, rollback World.fresh)
  /\ loop World.refuses_opening_hours (py "Bar X" :: names) World.fresh
     = (Raise DatabaseError, refused).
Proof.
  intros names process loop refused.
  assert (Hnone : get_place_details World.post_search_text World.get_place
                    (py "Nowhere") = Ok (None, None))
    by (vm_compute; reflexivity).
  assert (Hfetch : get_place_details World.post_search_text World.get_place
                     (py "Sem Endereço")
                   = Ok (Some (py "Sem Endereço"), Some World.no_address_place))
    by (vm_compute; reflexivity).
  assert (Huse : usable (Some (py "Sem Endereço"),
                         Some World.no_address_place) = true)
    by (vm_compute; reflexivity).
  assert (Hraise : process World.refuses_opening_hours (py "Bar X") World.fresh
                   = (Raise DatabaseError, refused))
    by (vm_compute; reflexivity).
  exact (conj
    (proj1 (fetch_failure_skipped_other_failures_raised
              World.post_search_text World.get_place World.accepts_all
              World.inserted_updated_at World.now (py "Nowhere") names
              World.fresh)
           (None, None) Hnone eq_refl)
    (conj
      (proj1 (proj2 (fetch_failure_skipped_other_failures_raised
                       World.post_search_text World.get_place
                       World.accepts_all World.inserted_updated_at World.now
                       (py "Sem Endereço") names World.fresh))
             (py "Sem Endereço") World.no_address_place Hfetch Huse eq_refl)
      (proj2 (proj2 (fetch_failure_skipped_other_failures_raised
                       World.post_search_text World.get_place
                       World.refuses_opening_hours World.inserted_updated_at
                       World.now (py "Bar X") names World.fresh))
             DatabaseError refused Hraise))).
Defined.

(** C3, as stated, fails: the answer for "Sem Endereço" has no address.
    Alone, "Bar X" is stored; handed to the loop after "Sem Endereço" it is
    not processed: the exception leaves the loop. *)
Lemma missing_address_aborts_batch :
  let loop (l : list str) :=
    process_names World.post_search_text World.get_place World.accepts_all
                  World.inserted_updated_at World.now l World.fresh in
  fst (loop [py "Bar X"]) = Ok tt
  /\ stored_names (committed (snd (loop [py "Bar X"]))) = [py "Bar X"]
  /\ fst (loop [py "Sem Endereço"; py "Bar X"]) = Raise MissingAddressData
  /\ stored_names (committed (snd (loop [py "Sem Endereço"; py "Bar X"]))) = [].
Proof. vm_compute; repeat split. Qed.

(** [main] hands the loop one name, the first row the server returns; which
    of the names to create that is lies with the order of the rows.  Of
    "Sem Endereço" and "Bar X", a server that returns the rows as listed has
    [main] raise on the first and store nothing; one that returns them last
    to first has it store "Bar X" and return. *)
Example main_processes_first_row_only :
  let run (next_row : list str -> nat) :=
    main World.post_search_text World.get_place World.accepts_all
         World.inserted_updated_at next_row World.now
         [py "Sem Endereço"; py "Bar X"] World.fresh in
  fst (run World.in_order) = Raise MissingAddressData
  /\ stored_names (committed (snd (run World.in_order))) = []
  /\ fst (run World.last_first) = Ok tt
  /\ stored_names (committed (snd (run World.last_first))) = [py "Bar X"].
Proof. vm_compute; repeat split. Qed.

(** A detail record that holds a price level and nothing else is a
    non-empty record: it is not skipped, and the missing address is
    raised. *)
Example price_level_only_is_not_skipped :
  let d := {| Api.displayName := None;
              Api.formattedAddress := None;
              Api.location := None;
              Api.googleMapsUri := None;
              Api.types := None;
              Api.primaryTypeDisplayName := None;
              Api.websiteUri := None;
              Api.regularOpeningHours := None;
              Api.businessStatus := None;
              Api.editorialSummary := None;
              Api.priceLevel := Some (py "PRICE_LEVEL_MODERATE");
              Api.rating := None;
              Api.servesVegetarianFood := None |} in
  let get_place (_ : str) := Ok (Response 200 d) in
  usable (Some (py "Bar X"), Some d) = true
  /\ process_and_store World.post_search_text get_place World.accepts_all
                       World.inserted_updated_at World.now (py "Bar X")
                       World.fresh
     = (Raise MissingAddressData, World.fresh).
Proof. vm_compute; split; reflexivity. Qed.

(** * Further properties *)

(** ** add_quota_counter *)

Lemma same_quota_spec (month service : str) (q : quota_row) :
  same_quota month service q = true
  <-> month_year q = month /\ api_service q = service.
Proof. unfold same_quota; now rewrite andb_true_iff, !str_eqb_eq. Qed.

Lemma same_quota_counted_again (month service : str) (q : quota_row) :
  same_quota month service (counted_again q) = same_quota month service q.
Proof. reflexivity. Qed.

Lemma filter_nil_existsb {A} (f : A -> bool) (l : list A) :
  filter f l = [] <-> existsb f l = false.
Proof.
  induction l as [|x l IH]; simpl; [tauto|].
  destruct (f x); simpl; [split; discriminate | exact IH].
Qed.

Lemma find_none_existsb {A} (f : A -> bool) (l : list A) :
  find f l = None <-> existsb f l = false.
Proof.
  induction l as [|x l IH]; simpl; [tauto|].
  destruct (f x); simpl; [split; discriminate | exact IH].
Qed.

Lemma increment_quota_map (month service : str) (rows : list quota_row) :
  increment_quota month service rows
  = map (fun q => if same_quota month service q then counted_again q else q)
        rows.
Proof. reflexivity. Qed.

Lemma str_eqb_sym (a b : str) : str_eqb a b = str_eqb b a.
Proof.
  destruct (str_eqb a b) eqn:E, (str_eqb b a) eqn:E'; try reflexivity.
  - apply str_eqb_eq in E; subst; now rewrite str_eqb_refl in E'.
  - apply str_eqb_eq in E'; subst; now rewrite str_eqb_refl in E.
Qed.

(** Two keys that differ have no row in common. *)
Lemma same_quota_other_key (month service month' service' : str)
    (q : quota_row) :
  str_eqb month' month && str_eqb service' service = false ->
  same_quota month service q = true ->
  same_quota month' service' q = false.
Proof.
  intros E Hq; apply same_quota_spec in Hq as [Hm Hs].
  unfold same_quota; rewrite Hm, Hs.
  now rewrite (str_eqb_sym month month'), (str_eqb_sym service service').
Qed.

(** The rows of a key after the rows of key (month, service) were counted. *)
Lemma counter_rows_increment (month service month' service' : str)
    (rows : list quota_row) :
  filter (same_quota month' service') (increment_quota month service rows)
  = if str_eqb month' month && str_eqb service' service
    then map counted_again (filter (same_quota month' service') rows)
    else filter (same_quota month' service') rows.
Proof.
  rewrite increment_quota_map.
  destruct (str_eqb month' month && str_eqb service' service) eqn:E.
  - apply andb_true_iff in E as [Em Es].
    apply str_eqb_eq in Em, Es; subst month' service'.
    induction rows as [|q rows IH]; [reflexivity|].
    cbn [map filter].
    destruct (same_quota month service q) eqn:Eq.
    + rewrite same_quota_counted_again, Eq; cbn [map]; now rewrite IH.
    + rewrite Eq; exact IH.
  - induction rows as [|q rows IH]; [reflexivity|].
    cbn [map filter].
    destruct (same_quota month service q) eqn:Eq.
    + rewrite same_quota_counted_again.
      rewrite (same_quota_other_key _ _ _ _ _ E Eq); exact IH.
    + destruct (same_quota month' service' q); [now rewrite IH | exact IH].
Qed.

Section QuotaCounter.

Variable refuses : tables -> statement -> bool.

(** One pass of the loop of [add_quota_counter], when it succeeds. *)
Lemma count_service_ok (month service : str) (conn conn' : connection) :
  count_service refuses month service conn = (Ok tt, conn') ->
  same_records conn conn'
  /\ google_api_quota (working conn')
     = if existsb (same_quota month service) (google_api_quota (working conn))
       then increment_quota month service (google_api_quota (working conn))
       else match quota_limits_standard service with
            | Some limit =>
                google_api_quota (working conn)
                ++ [QuotaRow month service limit 1]
            | None => google_api_quota (working conn)
            end.
Proof.
  intros H; split; [exact (count_service_same_records _ _ _ _ _ H)|].
  unfold count_service in H.
  apply dbind_ok in H as (found & conn1 & H1 & H2).
  unfold query in H1; destruct (refuses _ _); [discriminate|].
  injection H1 as <- <-.
  destruct (find _ _) as [q|] eqn:E.
  - assert (X : existsb (same_quota month service)
                        (google_api_quota (working conn)) = true).
    { destruct (existsb _ _) eqn:X; [reflexivity|].
      apply find_none_existsb in X; congruence. }
    rewrite X; apply execute_ok in H2; subst conn'; reflexivity.
  - apply find_none_existsb in E; rewrite E.
    destruct (quota_limits_standard service).
    + apply execute_ok in H2; subst conn'; reflexivity.
    + unfold ret in H2; now injection H2 as <-.
Qed.

Lemma filter_app_one (f : quota_row -> bool) (rows : list quota_row)
    (q : quota_row) :
  filter f (rows ++ [q]) = filter f rows ++ (if f q then [q] else []).
Proof. rewrite filter_app; simpl; now destruct (f q). Qed.

(** The rows of any key after one pass for (month, service). *)
Lemma count_service_counter_rows (month service month' service' : str)
    (conn conn' : connection) :
  count_service refuses month service conn = (Ok tt, conn') ->
  counter_rows month' service' (working conn')
  = if str_eqb month' month && str_eqb service' service
    then match counter_rows month' service' (working conn) with
         | [] => match quota_limits_standard service' with
                 | Some limit => [QuotaRow month' service' limit 1]
                 | None => []
                 end
         | q :: rows => map counted_again (q :: rows)
         end
    else counter_rows month' service' (working conn).
Proof.
  intros H; apply count_service_ok in H as [_ H].
  unfold counter_rows; rewrite H; clear H conn'.
  set (rows := google_api_quota (working conn)).
  destruct (existsb (same_quota month service) rows) eqn:X.
  - rewrite counter_rows_increment.
    destruct (str_eqb month' month && str_eqb service' service) eqn:E;
      [|reflexivity].
    apply andb_true_iff in E as [Em Es].
    apply str_eqb_eq in Em, Es; subst month' service'.
    destruct (filter (same_quota month service) rows) eqn:F; [|reflexivity].
    apply filter_nil_existsb in F; congruence.
  - destruct (str_eqb month' month && str_eqb service' service) eqn:E.
    + apply andb_true_iff in E as [Em Es].
      apply str_eqb_eq in Em, Es; subst month' service'.
      apply filter_nil_existsb in X.
      destruct (quota_limits_standard service); [|now rewrite X].
      rewrite filter_app_one, X; unfold same_quota; simpl.
      now rewrite !str_eqb_refl.
    + destruct (quota_limits_standard service); [|reflexivity].
      rewrite filter_app_one.
      replace (same_quota month' service' _) with false;
        [now rewrite app_nil_r|].
      unfold same_quota; simpl.
      now rewrite (str_eqb_sym month month'), (str_eqb_sym service service'), E.
Qed.

Lemma existsb_str_eqb (s : str) (l : list str) :
  existsb (str_eqb s) l = true <-> In s l.
Proof.
  rewrite existsb_exists; split.
  - intros (x & Hx & E); apply str_eqb_eq in E; now subst.
  - intros H; exists s; split; [assumption | apply str_eqb_refl].
Qed.

(** The rows of any key after the loop over distinct tiers. *)
Lemma for_each_count_service (month : str) (services : list str) :
  NoDup services ->
  forall conn conn',
    for_each services (count_service refuses month) conn = (Ok tt, conn') ->
    forall month' service',
      counter_rows month' service' (working conn')
      = if str_eqb month' month && existsb (str_eqb service') services
        then match counter_rows month' service' (working conn) with
             | [] => match quota_limits_standard service' with
                     | Some limit => [QuotaRow month' service' limit 1]
                     | None => []
                     end
             | q :: rows => map counted_again (q :: rows)
             end
        else counter_rows month' service' (working conn).
Proof.
  induction 1 as [|s services Hs Hnd IH]; intros conn conn' H month' service'.
  - unfold for_each, ret in H; injection H as <-.
    simpl; now rewrite andb_false_r.
  - simpl in H; apply dbind_ok in H as ([] & conn1 & H1 & H2).
    rewrite (IH _ _ H2 month' service').
    rewrite (count_service_counter_rows _ _ month' service' _ _ H1).
    cbn [existsb].
    destruct (str_eqb month' month); [|reflexivity]; cbn [andb].
    destruct (str_eqb service' s) eqn:Es; cbn [orb].
    + apply str_eqb_eq in Es; subst service'.
      replace (existsb (str_eqb s) services) with false; [reflexivity|].
      symmetry; destruct (existsb (str_eqb s) services) eqn:X; [|reflexivity].
      apply existsb_str_eqb in X; contradiction.
    + reflexivity.
Qed.

(** X1: [add_quota_counter] counts one call for every tier it is given (the
    three standard tiers by default), the tiers being distinct: for the
    current month, the rows of a tier are each counted once more, or, when
    the tier has no row yet, one row is created with the standard limit of
    the tier and a count of 1 (no row at all for a tier that has no standard
    limit).  The rows of every other month and tier are as they were, and
    the result is committed. *)
Theorem add_quota_counter_counts (now : clock)
    (api_services : option (list str)) (conn conn' : connection) :
  let services :=
    get_or api_services [py "pro"; py "essential"; py "enterprise"] in
  NoDup services ->
  add_quota_counter refuses now api_services conn = (Ok tt, conn') ->
  forall month service,
    counter_rows month service (committed conn')
    = if str_eqb month (first_of_month now)
         && existsb (str_eqb service) services
      then match counter_rows month service (working conn) with
           | [] => match quota_limits_standard service with
                   | Some limit => [QuotaRow month service limit 1]
                   | None => []
                   end
           | q :: rows => map counted_again (q :: rows)
           end
      else counter_rows month service (working conn).
Proof.
  intros services Hnd H month service.
  unfold add_quota_counter in H.
  apply dbind_ok in H as ([] & conn1 & H1 & H2).
  apply commit_ok in H2; subst conn'; cbn [committed].
  assert (E : match api_services with
              | Some l => l
              | None => [py "pro"; py "essential"; py "enterprise"]
              end = services) by (subst services; now destruct api_services).
  rewrite E in H1.
  exact (for_each_count_service _ _ Hnd _ _ H1 month service).
Qed.

End QuotaCounter.

(** On a connection without quota rows: the three standard tiers get their
    rows, another month and an unknown tier get none. *)
Lemma add_quota_counter_counts_witness :
  let services := get_or None [py "pro"; py "essential"; py "enterprise"] in
  let run := add_quota_counter World.accepts_all World.now None World.fresh in
  NoDup services
  /\ run = (Ok tt, snd run)
  /\ counter_rows (py "2025-06-01") (py "pro") (committed (snd run))
     = [QuotaRow (py "2025-06-01") (py "pro") 5000 1]
  /\ counter_rows (py "2025-06-01") (py "essential") (committed (snd run))
     = [QuotaRow (py "2025-06-01") (py "essential") 10000 1]
  /\ counter_rows (py "2025-05-01") (py "pro") (committed (snd run)) = []
  /\ counter_rows (py "2025-06-01") (py "gold") (committed (snd run)) = [].
Proof.
  intros services run.
  assert (Hnd : NoDup services).
  { subst services; cbn [get_or].
    repeat (constructor; [simpl; intuition discriminate|]); constructor. }
  assert (Hrun : run = (Ok tt, snd run)) by (vm_compute; reflexivity).
  pose proof (add_quota_counter_counts World.accepts_all World.now None
                World.fresh (snd run) Hnd Hrun) as H.
  refine (conj Hnd (conj Hrun (conj _ (conj _ (conj _ _))))).
  - exact (H (py "2025-06-01") (py "pro")).
  - exact (H (py "2025-06-01") (py "essential")).
  - exact (H (py "2025-05-01") (py "pro")).
  - exact (H (py "2025-06-01") (py "gold")).
Defined.


Section QuotaCounterFrame.

Variable refuses : tables -> statement -> bool.

Lemma ret_keeps_stored {A} (a : A) : keeps_stored (ret a).
Proof. intros conn r conn' H; injection H as <- <-; auto. Qed.

Lemma query_keeps_stored {A} (s : statement) (rows : tables -> A) :
  keeps_stored (query refuses s rows).
Proof.
  intros conn r conn'; unfold query.
  destruct (refuses _ _); intros H; injection H as <- <-; auto.
Qed.

Lemma execute_keeps_stored (s : statement) (effect : tables -> tables) :
  keeps_stored (execute refuses s effect).
Proof.
  intros conn r conn'; unfold execute.
  destruct (refuses _ _); intros H; injection H as <- <-; auto.
Qed.

Lemma dbind_keeps_stored {A B} (m : db A) (f : A -> db B) :
  keeps_stored m -> (forall a, keeps_stored (f a)) ->
  keeps_stored (dbind m f).
Proof.
  intros Hm Hf conn r conn'; unfold dbind.
  destruct (m conn) as [[a|e] c1] eqn:E; intros H.
  - destruct (Hm _ _ _ E) as [Hc Hs], (Hf a _ _ _ H) as [Hc' Hs'].
    split; congruence.
  - injection H as <- <-; exact (Hm _ _ _ E).
Qed.

Lemma for_each_keeps_stored {A} (body : A -> db unit) (l : list A) :
  (forall x, keeps_stored (body x)) -> keeps_stored (for_each l body).
Proof.
  intros Hbody; induction l as [|x l IH]; simpl.
  - apply ret_keeps_stored.
  - apply dbind_keeps_stored; auto.
Qed.

Lemma count_service_keeps_stored (month service : str) :
  keeps_stored (count_service refuses month service).
Proof.
  unfold count_service; apply dbind_keeps_stored.
  - apply query_keeps_stored.
  - intros [q|].
    + apply execute_keeps_stored.
    + destruct (quota_limits_standard service) as [limit|];
        [apply execute_keeps_stored | apply ret_keeps_stored].
Qed.

(** [add_quota_counter] never draws from the id sequence.  When it returns,
    the restaurants, the schedules and the type tags of the transaction are
    as they were and the connection is committed; when it raises, the
    committed tables are as they were. *)
Lemma add_quota_counter_outcome (now : clock)
    (api_services : option (list str)) (conn : connection) :
  let outcome := add_quota_counter refuses now api_services conn in
  restaurants_id_seq (snd outcome) = restaurants_id_seq conn
  /\ match fst outcome with
     | Ok _ =>
         restaurants (working (snd outcome)) = restaurants (working conn)
         /\ opening_hours (working (snd outcome))
            = opening_hours (working conn)
         /\ restaurant_types (working (snd outcome))
            = restaurant_types (working conn)
         /\ committed (snd outcome) = working (snd outcome)
     | Raise _ => committed (snd outcome) = committed conn
     end.
Proof.
  cbv zeta.
  destruct (add_quota_counter refuses now api_services conn)
    as [[[]|e] c] eqn:E; cbn [fst snd].
  - apply add_quota_counter_ok in E as (Hc & Hr & Hh & Ht & Hs); auto.
  - revert E; unfold add_quota_counter, dbind.
    set (services := match api_services with Some l => l | None => _ end).
    destruct (for_each services (count_service refuses (first_of_month now))
                       conn) as [[[]|e1] c1] eqn:E1;
      apply (for_each_keeps_stored _ services
               (count_service_keeps_stored (first_of_month now))) in E1;
      destruct E1 as [Hc Hs].
    + unfold commit; destruct (refuses (working c1) Commit);
        [|discriminate].
      intros H; injection H as _ <-; simpl; auto.
    + intros H; injection H as _ <-; auto.
Qed.

(** X2: [add_quota_counter] ends the transaction of its caller.  When it
    returns, it has committed the connection it was given: the restaurants,
    the schedules and the type tags the caller had written in the
    transaction are unchanged and are committed with the counters.  When it
    raises, the committed tables are as they were.  It never draws from the
    id sequence of the restaurants. *)
Theorem add_quota_counter_commits_the_connection (now : clock)
    (api_services : option (list str)) (conn : connection) :
  let outcome := add_quota_counter refuses now api_services conn in
  restaurants_id_seq (snd outcome) = restaurants_id_seq conn
  /\ match fst outcome with
     | Ok _ =>
         restaurants (working (snd outcome)) = restaurants (working conn)
         /\ opening_hours (working (snd outcome))
            = opening_hours (working conn)
         /\ restaurant_types (working (snd outcome))
            = restaurant_types (working conn)
         /\ committed (snd outcome) = working (snd outcome)
     | Raise _ => committed (snd outcome) = committed conn
     end.
Proof. exact (add_quota_counter_outcome now api_services conn). Qed.

End QuotaCounterFrame.

(** ** process_and_store: which failures are undone *)

Section Atomicity.

Variable post_search_text : str -> outcome (response search_result).
Variable get_place : str -> outcome (response Api.place).
Variable refuses : tables -> statement -> bool.
Variable inserted_updated_at : Z -> option Z.

Lemma _insert_restaurant_committed (now : clock) (gid name : str)
    (d : Api.place) (sp : parsed_address) (conn : connection) r conn' :
  _insert_restaurant refuses inserted_updated_at now gid name d sp conn
  = (r, conn') ->
  committed conn' = committed conn.
Proof.
  unfold _insert_restaurant, dbind, lift.
  destruct (build_restaurant_params gid name d sp) as [p|e].
  - destruct (refuses (working conn) (UpsertRestaurant p)).
    + intros H; now injection H as <- <-.
    + destruct (upsert_restaurant _ _ _ _ _); intros H; now injection H as <- <-.
  - intros H; now injection H as <- <-.
Qed.

(** X3: a failure of [process_and_store] that comes before
    [add_quota_counter] has returned (a missing address, a missing location,
    an upsert the server refuses, a failure while counting) is undone: the
    committed tables are as they were and the transaction holds nothing. *)
Theorem failure_before_quota_commit_is_undone (now : clock) (name gid : str)
    (d : Api.place) (conn conn' : connection) (e : exn) :
  get_place_details post_search_text get_place name = Ok (Some gid, Some d) ->
  usable (Some gid, Some d) = true ->
  (forall sp rid c1 c2,
     parse_street_name (Api.formattedAddress d) = Ok sp ->
     _insert_restaurant refuses inserted_updated_at now gid name d sp conn
     = (Ok rid, c1) ->
     add_quota_counter refuses now None c1 <> (Ok tt, c2)) ->
  process_and_store post_search_text get_place refuses inserted_updated_at
                    now name conn = (Raise e, conn') ->
  committed conn' = committed conn /\ working conn' = committed conn.
Proof.
  intros Hfetch Huse Hearly H.
  unfold process_and_store in H; rewrite Hfetch in H.
  unfold usable in Huse; rewrite Huse in H.
  destruct (store refuses inserted_updated_at now gid name d conn)
    as [[rid|e'] c] eqn:S; [discriminate|].
  injection H as <- <-; cbn [rollback committed working].
  enough (committed c = committed conn) by auto.
  unfold store in S.
  destruct (negb (truthy_opt_str (Api.formattedAddress d)));
    [now injection S as <- <-|].
  unfold dbind at 1, lift in S.
  destruct (parse_street_name (Api.formattedAddress d)) as [sp|e0] eqn:Hsp;
    [|now injection S as <- <-].
  unfold dbind at 1 in S.
  destruct (_insert_restaurant refuses inserted_updated_at now gid name d sp conn)
    as [[rid|e1] c1] eqn:Hins.
  - pose proof (_insert_restaurant_committed _ _ _ _ _ _ _ _ Hins) as Hc1.
    unfold dbind at 1 in S.
    destruct (add_quota_counter refuses now None c1) as [[[]|e2] c2] eqn:Hq.
    + exfalso; exact (Hearly sp rid c1 c2 eq_refl Hins Hq).
    + injection S as <- <-.
      pose proof (add_quota_counter_outcome refuses now None c1) as Ho.
      cbv zeta in Ho; rewrite Hq in Ho; simpl in Ho.
      destruct Ho as (_ & Ho); congruence.
  - injection S as <- <-.
    exact (_insert_restaurant_committed _ _ _ _ _ _ _ _ Hins).
Qed.

End Atomicity.

(** "Bar X" on a server that refuses the upsert. *)
Lemma failure_before_quota_commit_is_undone_witness :
  let refuses_upsert (_ : tables) (s : statement) :=
    match s with UpsertRestaurant _ => true | _ => false end in
  let outcome :=
    process_and_store World.post_search_text World.get_place refuses_upsert
      World.inserted_updated_at World.now (py "Bar X") World.fresh in
  outcome = (Raise DatabaseError, snd outcome)
  /\ committed (snd outcome) = committed World.fresh
  /\ working (snd outcome) = committed World.fresh.
Proof.
  intros refuses_upsert outcome.
  assert (Hfetch : get_place_details World.post_search_text World.get_place
                     (py "Bar X") = Ok (Some (py "Bar X"), Some World.bar_x))
    by (vm_compute; reflexivity).
  assert (Huse : usable (Some (py "Bar X"), Some World.bar_x) = true)
    by (vm_compute; reflexivity).
  assert (Hrun : outcome = (Raise DatabaseError, snd outcome))
    by (vm_compute; reflexivity).
  assert (Hearly : forall sp rid c1 c2,
            parse_street_name (Api.formattedAddress World.bar_x) = Ok sp ->
            _insert_restaurant refuses_upsert World.inserted_updated_at
              World.now (py "Bar X") (py "Bar X") World.bar_x sp World.fresh
            = (Ok rid, c1) ->
            add_quota_counter refuses_upsert World.now None c1 <> (Ok tt, c2)).
  { intros sp rid c1 c2 _ Hins; vm_compute in Hins; discriminate. }
  exact (conj Hrun
           (failure_before_quota_commit_is_undone World.post_search_text
              World.get_place refuses_upsert World.inserted_updated_at
              World.now (py "Bar X") (py "Bar X") World.bar_x World.fresh
              (snd outcome) DatabaseError Hfetch Huse Hearly Hrun)).
Defined.

(** ** GooglePlacesAPIClient *)

Section ApiClient.

Variable post_search_text : str -> outcome (response search_result).
Variable get_place : str -> outcome (response Api.place).

Lemma get_place_id_some (name gid : str) :
  get_place_id post_search_text name = Ok (Some gid) ->
  exists search first rest,
    post_search_text name = Ok search
    /\ status_code search = 200%Z
    /\ places (json search) = Some (first :: rest)
    /\ place_id first = Some gid.
Proof.
  unfold get_place_id.
  destruct (post_search_text name) as [search|e]; [|discriminate]; cbn [bind].
  destruct (status_code search =? 200)%Z eqn:E; [|discriminate].
  apply Z.eqb_eq in E.
  destruct (places (json search)) as [[|first rest]|] eqn:P;
    try discriminate; cbn [bind first_item].
  intros H; injection H as H; eauto 8.
Qed.

(** X4: what [get_place_details] returns is a pair without id and without
    details, or the non-empty id of the first place the search found, with
    status 200, together with the details fetched for that very id when
    that request had status 200, and without details otherwise.  Details
    never come without the id they belong to. *)
Theorem get_place_details_pairs (name : str) (google_id : option str)
    (details : option Api.place) :
  get_place_details post_search_text get_place name = Ok (google_id, details) ->
  (google_id = None /\ details = None)
  \/ exists gid search first rest fetched,
       google_id = Some gid
       /\ truthy_str gid = true
       /\ post_search_text name = Ok search
       /\ status_code search = 200%Z
       /\ places (json search) = Some (first :: rest)
       /\ place_id first = Some gid
       /\ get_place gid = Ok fetched
       /\ details = (if (status_code fetched =? 200)%Z
                     then Some (json fetched) else None).
Proof.
  unfold get_place_details.
  destruct (get_place_id post_search_text name) as [[gid|]|e] eqn:Hid;
    cbn [bind]; try discriminate.
  - destruct (truthy_str gid) eqn:T.
    + destruct (get_place gid) as [fetched|e] eqn:G; [|discriminate].
      cbn [bind]; intros H; right.
      apply get_place_id_some in Hid as (search & first & rest & A & B & C & D).
      exists gid, search, first, rest, fetched.
      destruct (status_code fetched =? 200)%Z; injection H as <- <-;
        repeat split; assumption.
    + intros H; injection H as <- <-; now left.
  - intros H; injection H as <- <-; now left.
Qed.

(** X5: the edges of the lookup.  A search answered with a status other
    than 200 gives no id and no details; a search answered with status 200
    raises KeyError when the answer has no list of places and IndexError
    when the list is empty (no None is returned for a place that was not
    found); an exception of the search itself is passed on. *)
Theorem get_place_details_edges (name : str) :
  (forall search,
     post_search_text name = Ok search ->
     (status_code search <> 200%Z ->
      get_place_id post_search_text name = Ok None
      /\ get_place_details post_search_text get_place name = Ok (None, None))
     /\ (status_code search = 200%Z -> places (json search) = None ->
         get_place_details post_search_text get_place name
         = Raise (KeyError (py "places")))
     /\ (status_code search = 200%Z -> places (json search) = Some [] ->
         get_place_details post_search_text get_place name = Raise IndexError))
  /\ (forall e,
        post_search_text name = Raise e ->
        get_place_details post_search_text get_place name = Raise e).
Proof.
  unfold get_place_details, get_place_id; split.
  - intros search ->; cbn [bind]; split; [|split].
    + intros H; apply Z.eqb_neq in H; rewrite H; split; reflexivity.
    + intros -> ->; reflexivity.
    + intros -> ->; reflexivity.
  - intros e ->; reflexivity.
Qed.

End ApiClient.

(** "Bar X" is found and fetched. *)
Lemma get_place_details_pairs_witness :
  get_place_details World.post_search_text World.get_place (py "Bar X")
  = Ok (Some (py "Bar X"), Some World.bar_x)
  /\ ((Some (py "Bar X") = None /\ Some World.bar_x = None)
      \/ exists gid search first rest fetched,
           Some (py "Bar X") = Some gid
           /\ truthy_str gid = true
           /\ World.post_search_text (py "Bar X") = Ok search
           /\ status_code search = 200%Z
           /\ places (json search) = Some (first :: rest)
           /\ place_id first = Some gid
           /\ World.get_place gid = Ok fetched
           /\ Some World.bar_x = (if (status_code fetched =? 200)%Z
                                 then Some (json fetched) else None)).
Proof.
  assert (H : get_place_details World.post_search_text World.get_place
                (py "Bar X") = Ok (Some (py "Bar X"), Some World.bar_x))
    by (vm_compute; reflexivity).
  exact (conj H (get_place_details_pairs World.post_search_text World.get_place
                   (py "Bar X") (Some (py "Bar X")) (Some World.bar_x) H)).
Defined.

(** The search for "Nowhere" is answered with status 404; an answer with
    status 200 and an empty list of places raises. *)
Lemma get_place_details_edges_witness :
  let empty_search (_ : str) : outcome (response search_result) :=
    Ok (Response 200 (SearchResult (Some []))) in
  get_place_details World.post_search_text World.get_place (py "Nowhere")
  = Ok (None, None)
  /\ get_place_details empty_search World.get_place (py "Bar X")
     = Raise IndexError.
Proof.
  intros empty_search.
  split.
  - refine (proj2 (proj1 (proj1 (get_place_details_edges
              World.post_search_text World.get_place (py "Nowhere"))
              (Response 404 (SearchResult None)) _) _)).
    + vm_compute; reflexivity.
    + discriminate.
  - exact (proj2 (proj2 (proj1 (get_place_details_edges empty_search
              World.get_place (py "Bar X"))
              (Response 200 (SearchResult (Some []))) eq_refl))
             eq_refl eq_refl).
Defined.

(** ** DataFormatter.format_opening_hours_description *)

Lemma startswith_nil (s : str) : startswith s [] = true.
Proof. now destruct s. Qed.

Lemma replace_char (c : char) (new s : str) :
  replace [c] new s = flat_map (fun x : char => if (x =? c)%N then new else [x]) s.
Proof.
  unfold replace; induction s as [|x s IH]; [reflexivity|].
  cbn [replace_from startswith flat_map length].
  rewrite startswith_nil, andb_true_r.
  destruct (x =? c)%N; cbn [app]; now rewrite IH.
Qed.

Lemma flat_map_of_join (f : char -> str) (sep : str) (l : list str) :
  flat_map f (join sep l) = join (flat_map f sep) (map (flat_map f) l).
Proof.
  induction l as [|x l IH]; [reflexivity|].
  destruct l as [|y l]; [reflexivity|].
  change (join sep (x :: y :: l)) with (x ++ sep ++ join sep (y :: l)).
  change (map (flat_map f) (x :: y :: l))
    with (flat_map f x :: map (flat_map f) (y :: l)).
  change (join (flat_map f sep) (flat_map f x :: map (flat_map f) (y :: l)))
    with (flat_map f x ++ flat_map f sep
          ++ join (flat_map f sep) (map (flat_map f) (y :: l))).
  now rewrite !flat_map_app, IH.
Qed.

Lemma flat_map_unchanged (c : char) (new s : str) :
  ~ In c s -> flat_map (fun x : char => if (x =? c)%N then new else [x]) s = s.
Proof.
  induction s as [|x s IH]; intros H; simpl; [reflexivity|].
  destruct (x =? c)%N eqn:E.
  - apply N.eqb_eq in E; subst; exfalso; apply H; now left.
  - simpl; rewrite IH; [reflexivity|]; intros X; apply H; now right.
Qed.

Lemma flat_map_without (c : char) (s : str) :
  flat_map (fun x : char => if (x =? c)%N then [] else [x]) s = without c s.
Proof.
  induction s as [|x s IH]; simpl; [reflexivity|].
  destruct (x =? c)%N; simpl; now rewrite IH.
Qed.

Lemma flat_map_replaced (c d : char) (new s : str) :
  ~ In d new -> (d = c \/ ~ In d s) ->
  ~ In d (flat_map (fun x : char => if (x =? c)%N then new else [x]) s).
Proof.
  intros Hnew Hs; induction s as [|x s IH]; simpl; [tauto|].
  rewrite in_app_iff; intros [H|H].
  - destruct (x =? c)%N eqn:E; [contradiction|].
    destruct H as [<-|[]].
    destruct Hs as [->|Hs]; [now rewrite N.eqb_refl in E|].
    apply Hs; now left.
  - apply IH; [|assumption].
    destruct Hs as [Hs|Hs]; [now left | right; intros X; apply Hs; now right].
Qed.

Lemma without_absent (c : char) (s : str) : ~ In c (without c s).
Proof.
  unfold without; intros H; apply filter_In in H as [_ H].
  now rewrite N.eqb_refl in H.
Qed.

Lemma in_join (c : char) (sep : str) (l : list str) :
  In c (join sep l) -> In c sep \/ exists x, In x l /\ In c x.
Proof.
  induction l as [|x l IH]; [contradiction|].
  destruct l as [|y l]; [intros H; right; exists x; split; [now left|assumption]|].
  change (join sep (x :: y :: l)) with (x ++ sep ++ join sep (y :: l)).
  rewrite !in_app_iff; intros [H|[H|H]].
  - right; exists x; split; [now left | assumption].
  - now left.
  - destruct (IH H) as [|(z & Hz & Hc)]; [now left|].
    right; exists z; split; [now right | assumption].
Qed.

(** X6: [format_opening_hours_description] returns None for None and for
    the empty list; for a list of lines it returns one text that holds no
    line break and no thin space, and when no line holds a line break that
    text is the lines, their thin spaces left out, joined with ", ". *)
Theorem format_opening_hours_description_one_line :
  format_opening_hours_description None = None
  /\ format_opening_hours_description (Some []) = None
  /\ forall line lines,
       exists text,
         format_opening_hours_description (Some (line :: lines)) = Some text
         /\ ~ In newline text
         /\ ~ In thin_space text
         /\ (Forall (fun l => ~ In newline l) (line :: lines) ->
             text = join (py ", ") (map (without thin_space) (line :: lines))).
Proof.
  split; [reflexivity|]. split; [reflexivity|].
  intros line lines; eexists; split; [reflexivity|].
  rewrite !replace_char.
  change 10%N with newline; change 8201%N with thin_space.
  set (L := line :: lines).
  assert (Hsep : ~ In newline (py ", ") /\ ~ In thin_space (py ", ")
                 /\ ~ In thin_space [newline])
    by (vm_compute; intuition discriminate).
  destruct Hsep as (Hnl & Hts & Hsep).
  split; [|split].
  - apply flat_map_replaced; [exact Hnl | now left].
  - apply flat_map_replaced; [exact Hts | right].
    rewrite flat_map_without; apply without_absent.
  - intros Hlines.
    rewrite (flat_map_of_join _ [newline] L).
    rewrite (flat_map_unchanged thin_space [] [newline] Hsep).
    rewrite flat_map_of_join.
    change (flat_map _ [newline]) with (py ", " ++ []).
    rewrite app_nil_r; f_equal.
    rewrite map_map; apply map_ext_in; intros l Hl.
    rewrite flat_map_without; apply flat_map_unchanged.
    rewrite Forall_forall in Hlines.
    intros X; apply (Hlines l Hl).
    unfold without in X; now apply filter_In in X as [X _].
Qed.

(** ** DataFormatter.format_opening_hours_periods, on any periods *)

Lemma NoDup_map_injective {A B} (f : A -> B) (l : list A) :
  NoDup (map f l) -> forall x y, In x l -> In y l -> f x = f y -> x = y.
Proof.
  induction l as [|a l IH]; intros Hnd x y Hx Hy E; [contradiction|].
  simpl in Hnd; inversion Hnd as [|? ? Hnotin Hnd']; subst.
  destruct Hx as [<-|Hx], Hy as [<-|Hy]; auto.
  - exfalso; apply Hnotin; rewrite E; now apply in_map.
  - exfalso; apply Hnotin; rewrite <- E; now apply in_map.
Qed.

Lemma format_day_name_injective (d d' : Z) :
  In d week -> In d' week -> format_day_name d = format_day_name d' -> d = d'.
Proof. apply NoDup_map_injective, week_names_distinct. Qed.

Lemma format_day_name_week (d : Z) (name : str) :
  format_day_name d = Some name -> In d week.
Proof.
  destruct d as [|p|p]; [intros _; now left | | discriminate].
  destruct p as [[[p|p|]|[p|p|]|]|[[p|p|]|[p|p|]|]|]; simpl;
    try discriminate; intros _; auto 10.
Qed.

Lemma format_period_day (rid : Z) (p : Api.period) :
  day_of_the_week (format_period rid p)
  = format_day_name (get_or (period_day p) 0%Z).
Proof. unfold format_period, period_day; now destruct (Api.open p). Qed.

(** The opened days are the days the periods carry. *)
Lemma opened_days_period_day (ps : list Api.period) (d : Z) :
  In d (opened_days ps) <-> exists p, In p ps /\ period_day p = Some d.
Proof.
  induction ps as [|p ps IH]; simpl.
  - split; [contradiction | intros (p & [] & _)].
  - assert (Hhere : In d (match Api.open p with
                          | Some o =>
                              match truthy_point o, Api.day o with
                              | true, Some d0 => d0 :: opened_days ps
                              | _, _ => opened_days ps
                              end
                          | None => opened_days ps
                          end)
                    <-> period_day p = Some d \/ In d (opened_days ps)).
    { unfold period_day, truthy_point.
      destruct (Api.open p) as [[[d0|] [h|] [m|]]|]; simpl;
        intuition congruence. }
    rewrite Hhere, IH; split.
    + intros [E|(q & Hq & E)]; [exists p | exists q]; auto.
    + intros (q & [<-|Hq] & E); [now left | right; eauto].
Qed.

(** X7: for any non-empty list of periods, well formed or not, and every
    day of the week from 0 to 6: the schedule [format_opening_hours_periods]
    returns holds the closed entry of the day (null times, the restaurant
    id) exactly when no period carries that day, and it holds no other
    closed entry; it holds an open entry labelled with the day exactly when
    a period carries that day or, for day 0, carries no day at all.  So a
    period without a day is listed as an open Sunday, beside a closed
    Sunday unless another period carries day 0.  Every day of the week has
    an entry, so there are at least 7. *)
Theorem format_opening_hours_periods_covers_week (rid : Z)
    (period : Api.period) (periods : list Api.period) :
  let given := period :: periods in
  let out := format_opening_hours_periods (Some given) rid in
  (forall d, In d week ->
     (In (closed_entry rid d) out
      <-> forall p, In p given -> period_day p <> Some d))
  /\ (forall e, In e out -> is_opened e = false ->
        exists d, In d week /\ e = closed_entry rid d)
  /\ (forall d, In d week ->
        ((exists e, In e out /\ is_opened e = true
                    /\ day_of_the_week e = format_day_name d)
         <-> exists p, In p given /\ get_or (period_day p) 0%Z = d))
  /\ (7 <= length out)%nat.
Proof.
  intros given out.
  assert (Hout : out = map (format_period rid) given
                       ++ map (closed_day_entry rid)
                              (filter (fun d => negb (day_in d (opened_days given)))
                                      week)) by reflexivity.
  clearbody out; subst out.
  set (closed := filter (fun d => negb (day_in d (opened_days given))) week).
  assert (Hdays : forall d, In d closed
                            <-> In d week
                                /\ forall p, In p given -> period_day p <> Some d).
  { intros d; unfold closed; rewrite filter_In, negb_true_iff.
    assert (H : day_in d (opened_days given) = false
                <-> forall p, In p given -> period_day p <> Some d).
    { split.
      - intros E p Hp Hd.
        assert (day_in d (opened_days given) = true); [|congruence].
        apply day_in_spec, opened_days_period_day; eauto.
      - intros Hno; destruct (day_in d (opened_days given)) eqn:E;
          [|reflexivity].
        apply day_in_spec, opened_days_period_day in E as (p & Hp & Hd).
        destruct (Hno p Hp Hd). }
    now rewrite H. }
  assert (Hclosed : forall d, In d week ->
            (In (closed_entry rid d)
                (map (format_period rid) given ++ map (closed_day_entry rid) closed)
             <-> forall p, In p given -> period_day p <> Some d)).
  { intros d Hd; rewrite in_app_iff, !in_map_iff; split.
    - intros [(q & E & _)|(d' & E & Hd')]; [discriminate|].
      apply Hdays in Hd' as [Hw Hd'].
      assert (d' = d).
      { apply format_day_name_injective; try assumption.
        now injection E. }
      now subst d'.
    - intros Hno; right; exists d; split; [reflexivity|].
      apply Hdays; auto. }
  assert (Hopen : forall d, In d week ->
            ((exists e, In e (map (format_period rid) given
                              ++ map (closed_day_entry rid) closed)
                        /\ is_opened e = true
                        /\ day_of_the_week e = format_day_name d)
             <-> exists p, In p given /\ get_or (period_day p) 0%Z = d)).
  { intros d Hd; split.
    - intros (e & He & Ho & Hn).
      apply in_app_iff in He as [He|He];
        apply in_map_iff in He as (x & <- & Hx); [|discriminate].
      exists x; split; [exact Hx|].
      rewrite format_period_day in Hn.
      destruct (format_day_name d) as [name|] eqn:En.
      + apply format_day_name_injective; try assumption; [|congruence].
        now apply (format_day_name_week _ name).
      + exfalso; revert En; clear - Hd.
        unfold week in Hd; simpl in Hd.
        destruct Hd as [<-|[<-|[<-|[<-|[<-|[<-|[<-|[]]]]]]]]; discriminate.
    - intros (p & Hp & <-).
      exists (format_period rid p); split; [|split].
      + apply in_app_iff; left; now apply in_map.
      + reflexivity.
      + apply format_period_day. }
  split; [exact Hclosed | split; [|split; [exact Hopen|]]].
  - intros e He Ho.
    apply in_app_iff in He as [He|He];
      apply in_map_iff in He as (x & <- & Hx); [discriminate|].
    exists x; split; [now apply Hdays | reflexivity].
  - rewrite <- (length_map day_of_the_week).
    change 7%nat with (length (map format_day_name week)).
    apply NoDup_incl_length; [apply week_names_distinct|].
    intros n Hn; apply in_map_iff in Hn as (d & <- & Hd).
    destruct (day_in d (opened_days given)) eqn:E.
    + apply day_in_spec, opened_days_period_day in E as (p & Hp & Ep).
      destruct (proj2 (Hopen d Hd)) as (e & He & _ & <-).
      * exists p; split; [exact Hp | now rewrite Ep].
      * now apply in_map.
    + change (format_day_name d)
        with (day_of_the_week (closed_entry rid d)).
      apply in_map, Hclosed; [assumption|].
      intros p Hp Ep.
      assert (day_in d (opened_days given) = true); [|congruence].
      apply day_in_spec, opened_days_period_day; eauto.
Qed.

(** ** DataFormatter.parse_street_name: what the result depends on *)

(** X8: [parse_street_name] reads an address word by word: two texts with
    the same words, however the words are spaced (runs of blanks, tabs, line
    breaks, blanks at either end), give the same result. *)
Theorem parse_street_name_spacing (a b : str) :
  split_ws a = split_ws b ->
  parse_street_name (Some a) = parse_street_name (Some b).
Proof.
  intros H; unfold parse_street_name.
  destruct a as [|x a], b as [|y b]; cbn [truthy_str negb].
  - reflexivity.
  - rewrite <- H; vm_compute; reflexivity.
  - rewrite H; vm_compute; reflexivity.
  - now rewrite H.
Qed.

Lemma parse_street_name_spacing_witness :
  let tab : char := 9%N in
  let a := py "Rua Augusta, 123 - Consolação, São Paulo - SP, 01305-000, Brasil" in
  let b := py "  Rua   Augusta," ++ [tab; newline]
           ++ py "123 -  Consolação,  São Paulo -   SP, 01305-000,   Brasil " in
  split_ws a = split_ws b
  /\ parse_street_name (Some a) = parse_street_name (Some b).
Proof.
  intros tab a b.
  assert (H : split_ws a = split_ws b) by (vm_compute; reflexivity).
  exact (conj H (parse_street_name_spacing a b H)).
Defined.

(** ** What a match has consumed *)

Lemma star_consumes p aft : forall bef gs k res,
  star p bef aft gs k = Some res ->
  exists s aft',
    forallb p s = true /\ aft = s ++ aft'
    /\ k (Cursor (rev s ++ bef) aft' gs) = Some res.
Proof.
  induction aft as [|c aft IH]; intros bef gs k res H; simpl in H.
  - exists [], []; auto.
  - destruct (p c) eqn:Pc; [|exists [], (c :: aft); auto].
    apply or_else_some in H as [H|H].
    + apply IH in H as (s & aft' & Hs & -> & H).
      exists (c :: s), aft'; simpl; rewrite Pc, Hs.
      rewrite <- app_assoc; auto.
    + exists [], (c :: aft); auto.
Qed.

(** A match through a pattern ends in the continuation, past a text of the
    pattern; the groups the pattern does not have are as they were. *)
Lemma rx_consumes r : forall cur k res,
  rx r cur k = Some res ->
  exists cur' s,
    k cur' = Some res
    /\ lang r s
    /\ after cur = s ++ after cur'
    /\ before cur' = rev s ++ before cur
    /\ (forall i, mentions r i = false ->
                  group_of i (groups cur') = group_of i (groups cur)).
Proof.
  induction r as [|p|p|p| | | |a IHa b IHb|a IHa b IHb|j a IHa];
    intros cur k res H; simpl in H.
  - exists cur, []; simpl; auto.
  - destruct (after cur) as [|c rest] eqn:E; [discriminate|].
    destruct (p c) eqn:Pc; [|discriminate].
    exists (advance c rest cur), [c]; simpl; repeat split; eauto.
  - apply star_consumes in H as (s & aft' & Hs & E & H).
    eexists; exists s; split; [exact H|]; simpl; auto.
  - destruct (after cur) as [|c rest] eqn:E.
    + exists cur, []; simpl; auto.
    + destruct (p c) eqn:Pc.
      * apply or_else_some in H as [H|H].
        -- exists (advance c rest cur), [c]; simpl; repeat split; eauto.
        -- exists cur, []; simpl; auto.
      * exists cur, []; simpl; auto.
  - destruct (before cur) eqn:E; [|discriminate].
    exists cur, []; simpl; auto.
  - destruct (at_end cur); [|discriminate].
    exists cur, []; simpl; auto.
  - destruct (word_boundary cur); [|discriminate].
    exists cur, []; simpl; auto.
  - apply IHa in H as (cur1 & s1 & H & L1 & A1 & B1 & G1).
    apply IHb in H as (cur2 & s2 & H & L2 & A2 & B2 & G2).
    exists cur2, (s1 ++ s2); split; [exact H|]; simpl.
    split; [eauto|]. split; [rewrite A1, A2; now rewrite app_assoc|].
    split; [rewrite B2, B1, rev_app_distr; now rewrite app_assoc|].
    intros i Hi; apply orb_false_iff in Hi as [Ha Hb].
    rewrite (G2 i Hb); now apply G1.
  - apply or_else_some in H as [H|H].
    + apply IHa in H as (cur1 & s1 & H & L1 & A1 & B1 & G1).
      exists cur1, s1; simpl; repeat split; auto.
      intros i Hi; apply orb_false_iff in Hi as [Ha Hb]; now apply G1.
    + apply IHb in H as (cur1 & s1 & H & L1 & A1 & B1 & G1).
      exists cur1, s1; simpl; repeat split; auto.
      intros i Hi; apply orb_false_iff in Hi as [Ha Hb]; now apply G1.
  - apply IHa in H as (cur1 & s1 & H & L1 & A1 & B1 & G1).
    eexists; exists s1; split; [exact H|]; simpl; repeat split; auto.
    intros i Hi; apply orb_false_iff in Hi as [Hj Ha].
    unfold group_of; simpl; rewrite Hj; now apply G1.
Qed.

Lemma matched_text (cur cur' : cursor) (s : str) :
  before cur' = rev s ++ before cur -> matched cur cur' = s.
Proof.
  intros E; unfold matched; rewrite E, length_app, length_rev.
  replace (length s + length (before cur) - length (before cur))%nat
    with (length s) by lia.
  rewrite <- (length_rev s), firstn_app, Nat.sub_diag, firstn_all.
  simpl; rewrite app_nil_r; apply rev_involutive.
Qed.

(** A group followed by a pattern without that group: the group holds a
    text of its pattern when the match is over. *)
Lemma rx_group (i : nat) (a tail : regex) (cur : cursor) k res :
  mentions tail i = false ->
  rx (Seq (Grp i a) tail) cur k = Some res ->
  exists cur' s, k cur' = Some res /\ lang a s
                 /\ group_of i (groups cur') = Some s.
Proof.
  intros Ht H; simpl in H.
  apply rx_consumes in H as (cur1 & s & H & L & _ & B & _).
  apply rx_consumes in H as (cur2 & s2 & H & _ & _ & _ & G).
  exists cur2, s; split; [exact H|]; split; [exact L|].
  rewrite (G i Ht); unfold group_of; simpl; rewrite Nat.eqb_refl; simpl.
  f_equal; now apply matched_text.
Qed.

(** Past a first pattern, the match goes on with the rest. *)
Lemma rx_rest (a b : regex) (cur : cursor) k res :
  rx (Seq a b) cur k = Some res -> exists cur1, rx b cur1 k = Some res.
Proof.
  intros H; simpl in H.
  apply rx_consumes in H as (cur1 & _ & H & _); eauto.
Qed.

Lemma match_at_groups (r : regex) (bef aft : str) (m : rmatch) :
  match_at r bef aft = Some m ->
  exists cur',
    rx r (Cursor bef aft []) (fun c => Some c) = Some cur'
    /\ forall i, group m i = group_of i (groups cur').
Proof.
  unfold match_at.
  destruct (rx r (Cursor bef aft []) (fun c => Some c)) as [cur'|];
    [|discriminate].
  intros H; injection H as <-; exists cur'; split; reflexivity.
Qed.

Lemma search_from_match (r : regex) (aft : str) : forall bef m,
  search_from r bef aft = Some m ->
  exists bef' aft', match_at r bef' aft' = Some m.
Proof.
  induction aft as [|c aft IH]; intros bef m H; simpl in H;
    apply or_else_some in H as [H|H]; try discriminate; eauto.
Qed.

(** ** DataFormatter.parse_street_name: the shape of the fields *)

Lemma rx_to_end (a : regex) (cur : cursor) k res :
  rx (Seq a Eol) cur k = Some res ->
  exists cur' s,
    k cur' = Some res /\ lang a s /\ after cur = s ++ after cur'
    /\ at_end cur' = true.
Proof.
  intros H; simpl in H.
  apply rx_consumes in H as (cur1 & s & H & L & A & _).
  simpl in H; destruct (at_end cur1) eqn:E; [|discriminate].
  exists cur1, s; auto.
Qed.

Lemma rx_from_start (b : regex) (cur : cursor) k res :
  rx (Seq Bol b) cur k = Some res -> rx b cur k = Some res.
Proof. simpl; destruct (before cur); [auto | discriminate]. Qed.

Lemma dropwhile_head (p : char -> bool) (s : str) (c : char) (rest : str) :
  dropwhile p s = c :: rest -> p c = false.
Proof.
  induction s as [|x s IH]; simpl; [discriminate|].
  destruct (p x) eqn:E; [exact IH|].
  intros H; injection H as <- _; exact E.
Qed.

Lemma in_dropwhile (p : char -> bool) (s : str) (c : char) :
  In c (dropwhile p s) -> In c s.
Proof.
  induction s as [|x s IH]; simpl; [tauto|].
  destruct (p x); [right; now apply IH | tauto].
Qed.

Lemma in_strip_by (p : char -> bool) (s : str) (c : char) :
  In c (strip_by p s) -> In c s.
Proof.
  unfold strip_by; intros H.
  apply in_rev, in_dropwhile, in_rev in H.
  now apply in_dropwhile in H.
Qed.

(** A stripped text does not end with a character that is stripped. *)
Lemma strip_by_last (p : char -> bool) (s t : str) (c : char) :
  strip_by p s = t ++ [c] -> p c = false.
Proof.
  unfold strip_by; intros H.
  apply (f_equal (@rev char)) in H.
  rewrite rev_involutive, rev_app_distr in H; simpl in H.
  now apply dropwhile_head in H.
Qed.

Lemma digit_is_no_dash (c : char) : is_digit c = true -> (c =? dash)%N = false.
Proof.
  intros H; destruct (c =? dash)%N eqn:E; [|reflexivity].
  apply N.eqb_eq in E; subst c; vm_compute in H; discriminate.
Qed.

Lemma without_digits (l : str) :
  forallb is_digit l = true -> without dash l = l.
Proof.
  induction l as [|c l IH]; simpl; [reflexivity|].
  intros H; apply andb_true_iff in H as [Hc Hl].
  rewrite (digit_is_no_dash c Hc); simpl; now rewrite IH.
Qed.

Lemma without_app (c : char) (a b : str) :
  without c (a ++ b) = without c a ++ without c b.
Proof. apply filter_app. Qed.

Ltac open_lang H :=
  simpl in H;
  repeat match goal with
         | X : exists _, _ |- _ => destruct X
         | X : _ /\ _ |- _ => destruct X
         end;
  subst.

(** The text of a postal code, its dash left out: eight digits. *)
Lemma postalcode_text (s : str) :
  lang (Cat [Rep 5 is_digit; Opt (is_char dash); Rep 3 is_digit]) s ->
  length (replace [dash] [] s) = 8%nat
  /\ forallb is_digit (replace [dash] [] s) = true.
Proof.
  intros L; rewrite replace_char, flat_map_without.
  unfold Rep in L; cbn [repeat Cat] in L.
  cbn [lang] in L.
  destruct L as (s1 & s2 & -> & L1 & (o & s3 & -> & Lo & L3)).
  assert (H1 : length s1 = 5%nat /\ forallb is_digit s1 = true).
  { open_lang L1; simpl.
    repeat match goal with X : is_digit _ = true |- _ => rewrite X; clear X end.
    auto. }
  assert (H3 : length s3 = 3%nat /\ forallb is_digit s3 = true).
  { open_lang L3; simpl.
    repeat match goal with X : is_digit _ = true |- _ => rewrite X; clear X end.
    auto. }
  assert (Ho : without dash o = []).
  { destruct Lo as [->|(c & -> & Hc)]; [reflexivity|].
    unfold is_char in Hc; unfold without; simpl; now rewrite Hc. }
  destruct H1 as [N1 D1], H3 as [N3 D3].
  rewrite !without_app, Ho, !without_digits by assumption.
  simpl; rewrite length_app, forallb_app, N1, N3, D1, D3; auto.
Qed.

Lemma state_text (s : str) :
  lang (Rep 2 is_upper_az) s ->
  length s = 2%nat /\ forallb is_upper_az s = true.
Proof.
  intros L; unfold Rep in L; cbn [repeat Cat] in L.
  open_lang L; simpl.
  repeat match goal with X : is_upper_az _ = true |- _ => rewrite X; clear X end.
  auto.
Qed.

Lemma country_text (s : str) : lang (Plus (not_char comma)) s -> ~ In comma s.
Proof.
  intros L; unfold Plus in L; cbn [lang] in L.
  destruct L as (s1 & s2 & -> & (c & -> & Hc) & Hs).
  unfold not_char in *; simpl; intros [E|E].
  - subst c; now rewrite N.eqb_refl in Hc.
  - rewrite forallb_forall in Hs; specialize (Hs _ E).
    now rewrite N.eqb_refl in Hs.
Qed.

Lemma number_text (s : str) : lang number_re s -> number_shaped s.
Proof.
  intros L; unfold number_re, Plus in L; cbn [lang] in L.
  destruct L as (s1 & o & -> & (d & ds & -> & (c & -> & Hc) & Hds) & Ho).
  exists ([c] ++ ds), o; repeat split; [discriminate | | exact Ho].
  simpl; now rewrite Hc.
Qed.

(** What the patterns of the parser capture. *)
Lemma postalcode_group (address : str) (m : rmatch) :
  re_search postalcode_re address = Some m ->
  exists s, group m 1 = Some s
            /\ lang (Cat [Rep 5 is_digit; Opt (is_char dash); Rep 3 is_digit]) s.
Proof.
  intros H; apply search_from_match in H as (bef & aft & H).
  apply match_at_groups in H as (cur' & H & G).
  unfold postalcode_re in H; cbn [Cat] in H.
  apply rx_rest in H as (cur1 & H).
  apply rx_group in H as (cur2 & s & E & L & Gs); [|reflexivity].
  injection E as ->; exists s; rewrite G; auto.
Qed.

Lemma state_group (address : str) (m : rmatch) :
  re_search state_re address = Some m ->
  exists s, group m 1 = Some s /\ lang (Rep 2 is_upper_az) s.
Proof.
  intros H; apply search_from_match in H as (bef & aft & H).
  apply match_at_groups in H as (cur' & H & G).
  unfold state_re in H; cbn [Cat] in H.
  apply rx_rest in H as (cur1 & H).
  apply rx_rest in H as (cur2 & H).
  apply rx_group in H as (cur3 & s & E & L & Gs); [|reflexivity].
  injection E as ->; exists s; rewrite G; auto.
Qed.

Lemma country_group (address : str) (m : rmatch) :
  re_search country_re address = Some m ->
  exists s, group m 1 = Some s /\ lang (Plus (not_char comma)) s.
Proof.
  intros H; apply search_from_match in H as (bef & aft & H).
  apply match_at_groups in H as (cur' & H & G).
  unfold country_re in H; cbn [Cat] in H.
  apply rx_rest in H as (cur1 & H).
  apply rx_rest in H as (cur2 & H).
  apply rx_group in H as (cur3 & s & E & L & Gs); [|reflexivity].
  injection E as ->; exists s; rewrite G; auto.
Qed.

Lemma number_group (tail : regex) (s : str) (m : rmatch) :
  mentions tail 1 = false ->
  re_match (Seq Bol (Seq (Grp 1 number_re) tail)) s = Some m ->
  exists n, group m 1 = Some n /\ lang number_re n.
Proof.
  intros Ht H; apply match_at_groups in H as (cur' & H & G).
  apply rx_rest in H as (cur1 & H).
  apply rx_group in H as (cur2 & n & E & L & Gs); [|exact Ht].
  injection E as ->; exists n; rewrite G; auto.
Qed.

(** A stripped text that is a number to its end is a number. *)
Lemma number_only_text (s : str) (m : rmatch) :
  re_match number_only_re (strip s) = Some m -> number_shaped (strip s).
Proof.
  intros H; apply match_at_groups in H as (cur' & H & _).
  unfold number_only_re in H; cbn [Cat] in H.
  apply rx_from_start in H.
  apply rx_to_end in H as (cur1 & n & _ & L & A & E).
  cbn [after] in A.
  unfold at_end in E.
  destruct (after cur1) as [|c [|c' rest]]; try discriminate.
  - rewrite app_nil_r in A; rewrite A; now apply number_text.
  - apply N.eqb_eq in E; subst c.
    apply (strip_by_last is_space) in A; vm_compute in A; discriminate.
Qed.

(** The fields a step does not write keep their shape. *)
Lemma well_shaped_same (r r' : parsed_address) :
  postalcode r' = postalcode r -> state r' = state r ->
  country r' = country r -> street_type r' = street_type r ->
  street_number r' = street_number r ->
  well_shaped r -> well_shaped r'.
Proof. unfold well_shaped; intros -> -> -> -> ->; auto. Qed.

Lemma shaped_country (r : parsed_address) (c : str) :
  ~ In comma c -> well_shaped r -> well_shaped (set_country (Some c) r).
Proof.
  intros Hc (P & S & C & T & N); unfold well_shaped; simpl.
  repeat apply conj; try assumption.
  intros c' E; now injection E as <-.
Qed.

Lemma shaped_postalcode (r : parsed_address) (pc : str) :
  length pc = 8%nat /\ forallb is_digit pc = true ->
  well_shaped r -> well_shaped (set_postalcode (Some pc) r).
Proof.
  intros Hc (P & S & C & T & N); unfold well_shaped; simpl.
  repeat apply conj; try assumption.
  intros c' E; now injection E as <-.
Qed.

Lemma shaped_state (r : parsed_address) (v : option str) :
  (forall st, v = Some st ->
              length st = 2%nat /\ forallb is_upper_az st = true) ->
  well_shaped r -> well_shaped (set_state v r).
Proof.
  intros Hc (P & S & C & T & N); unfold well_shaped; simpl.
  repeat apply conj; assumption.
Qed.

Lemma shaped_street_type (r : parsed_address) (t : str) :
  In t street_types -> well_shaped r ->
  well_shaped (set_street_type (Some t) r).
Proof.
  intros Hc (P & S & C & T & N); unfold well_shaped; simpl.
  repeat apply conj; try assumption.
  intros c' E; now injection E as <-.
Qed.

Lemma shaped_street_number (r : parsed_address) (v : option str) :
  (forall n, v = Some n -> number_shaped n) ->
  well_shaped r -> well_shaped (set_street_number v r).
Proof.
  intros Hc (P & S & C & T & N); unfold well_shaped; simpl.
  repeat apply conj; assumption.
Qed.

Lemma extract_country_shaped (r r' : parsed_address) (a a' : str) :
  extract_country r a = Ok (r', a') -> well_shaped r -> well_shaped r'.
Proof.
  unfold extract_country.
  destruct (re_search country_re a) as [m|] eqn:E;
    [|intros H; now injection H as <- <-].
  destruct (country_group a m E) as (s & -> & L); cbn [attr_of bind].
  intros H; injection H as <- _.
  apply shaped_country.
  intros X; apply in_strip_by in X; revert X; now apply country_text.
Qed.

Lemma extract_postalcode_shaped (r r' : parsed_address) (a a' : str) :
  extract_postalcode r a = Ok (r', a') -> well_shaped r -> well_shaped r'.
Proof.
  unfold extract_postalcode.
  destruct (re_search postalcode_re a) as [m|] eqn:E;
    [|intros H; now injection H as <- <-].
  destruct (postalcode_group a m E) as (s & -> & L); cbn [attr_of bind].
  intros H; injection H as <- _.
  apply shaped_postalcode; now apply postalcode_text.
Qed.

Lemma extract_state_shaped (r : parsed_address) (a : str) :
  well_shaped r -> well_shaped (fst (extract_state r a)).
Proof.
  unfold extract_state.
  destruct (re_search state_re a) as [m|] eqn:E; [|auto].
  destruct (state_group a m E) as (s & G & L); cbn [fst].
  apply shaped_state.
  intros st Hst; rewrite G in Hst; injection Hst as <-; now apply state_text.
Qed.

Lemma extract_city_shaped (r r' : parsed_address) (a a' : str) :
  extract_city r a = Ok (r', a') -> well_shaped r -> well_shaped r'.
Proof.
  unfold extract_city.
  destruct (truthy_str a); [|intros H; now injection H as <- <-].
  destruct (0 <? length (split_on comma a))%nat;
    [|intros H; now injection H as <- <-].
  destruct (last_item (split_on comma a)) as [x|e]; [|discriminate].
  cbn [bind]; intros H; injection H as <- _.
  now apply well_shaped_same.
Qed.

Lemma extract_street_shaped (r : parsed_address) (first_part : str) :
  well_shaped r -> well_shaped (extract_street r first_part).
Proof.
  unfold extract_street.
  destruct (find (startswith first_part) street_types) as [t|] eqn:E;
    [|now apply well_shaped_same].
  intros W.
  assert (W' : well_shaped (set_street_type (Some t) r))
    by (apply shaped_street_type; [now apply find_some in E as [E _] | exact W]).
  revert W'; now apply well_shaped_same.
Qed.

Lemma extract_number_shaped (r r' : parsed_address) (parts parts' : list str) :
  extract_number r parts = Ok (r', parts') -> well_shaped r -> well_shaped r'.
Proof.
  unfold extract_number.
  destruct parts as [|p0 parts]; [intros H; now injection H as <- <-|].
  cbn [Nat.leb length first_item bind].
  set (pn := strip (re_sub leading_dash_re [] (strip p0))).
  assert (Hset : forall (v : option str) more,
            (forall n, v = Some n -> number_shaped n) ->
            Ok (set_street_number v r, more) = Ok (r', parts') ->
            well_shaped r -> well_shaped r').
  { intros v more Hv H; injection H as <- _.
    now apply shaped_street_number. }
  destruct (re_match number_only_re pn) as [m|] eqn:E.
  - apply Hset; intros n Hn; injection Hn as <-.
    exact (number_only_text _ m E).
  - destruct (re_match number_dash_rest_re pn) as [m|] eqn:E1.
    + unfold number_dash_rest_re in E1; cbn [Cat] in E1.
      apply number_group in E1 as (n & G & L); [|reflexivity].
      destruct (group m 2) as [rest|]; [|discriminate].
      cbn [attr_of bind set_first].
      apply Hset; intros n' Hn'; rewrite G in Hn'; injection Hn' as <-.
      now apply number_text.
    + destruct (re_match number_space_rest_re pn) as [m|] eqn:E2;
        [|intros H; now injection H as <- <-].
      unfold number_space_rest_re in E2; cbn [Cat] in E2.
      apply number_group in E2 as (n & G & L); [|reflexivity].
      destruct (group m 2) as [rest|]; [|discriminate].
      cbn [attr_of bind set_first].
      apply Hset; intros n' Hn'; rewrite G in Hn'; injection Hn' as <-.
      now apply number_text.
Qed.

Lemma extract_complement_shaped (r : parsed_address) (parts : list str) :
  well_shaped r -> well_shaped (extract_complement r parts).
Proof.
  unfold extract_complement.
  destruct (0 <? length parts)%nat; [|auto].
  destruct (truthy_list _); [|auto].
  now apply well_shaped_same.
Qed.

Lemma extract_neighborhood_shaped (r r' : parsed_address) (parts : list str) :
  extract_neighborhood r parts = Ok r' -> well_shaped r -> well_shaped r'.
Proof.
  unfold extract_neighborhood.
  destruct (0 <? length parts)%nat; [|intros H; now injection H as <-].
  destruct (last_item parts) as [last|e]; [|discriminate]; cbn [bind].
  set (last_part := strip (re_sub leading_dash_re [] (strip last))).
  destruct (negb (rfind last_part (py " - ") =? -1)%Z).
  - destruct (truthy_str _).
    + destruct (set_last parts _) as [parts'|e]; [|discriminate].
      cbn [bind]; intros H; injection H as <-; intros W.
      apply extract_complement_shaped; revert W; now apply well_shaped_same.
    + cbn [bind]; intros H; injection H as <-; intros W.
      apply extract_complement_shaped; revert W; now apply well_shaped_same.
  - cbn [bind]; intros H; injection H as <-; intros W.
    apply extract_complement_shaped; revert W; now apply well_shaped_same.
Qed.

(** X9: whatever the address, the fields [parse_street_name] reads with a
    pattern or from its list have a fixed shape: a postal code is eight
    decimal digits, a state is two letters A-Z, a country holds no comma, a
    street type is one of the fifteen listed, and a street number is one or
    more decimal digits with at most one letter a-z or A-Z behind. *)
Theorem parse_street_name_field_shapes (address : option str)
    (r : parsed_address) :
  parse_street_name address = Ok r ->
  (forall pc, postalcode r = Some pc ->
              length pc = 8%nat /\ forallb is_digit pc = true)
  /\ (forall st, state r = Some st ->
                 length st = 2%nat /\ forallb is_upper_az st = true)
  /\ (forall c, country r = Some c -> ~ In comma c)
  /\ (forall t, street_type r = Some t -> In t street_types)
  /\ (forall n, street_number r = Some n ->
                exists digits letter,
                  n = digits ++ letter
                  /\ digits <> []
                  /\ forallb is_digit digits = true
                  /\ (letter = []
                      \/ exists c, letter = [c] /\ is_letter_az c = true)).
Proof.
  intros H; change (well_shaped r).
  assert (W0 : well_shaped no_address)
    by (unfold well_shaped; simpl; repeat apply conj;
        intros ? X; discriminate X).
  unfold parse_street_name in H.
  destruct address as [address|]; [|now injection H as <-].
  destruct (negb (truthy_str address)); [now injection H as <-|].
  set (a0 := join [blank] (split_ws address)) in H; clearbody a0.
  destruct (extract_country no_address a0) as [[r1 a1]|e] eqn:E1;
    [|discriminate]; cbn [bind] in H.
  apply extract_country_shaped in E1; [|exact W0].
  destruct (extract_postalcode r1 a1) as [[r2 a2]|e] eqn:E2;
    [|discriminate]; cbn [bind] in H.
  apply extract_postalcode_shaped in E2; [|exact E1].
  pose proof (extract_state_shaped r2 a2 E2) as E3.
  destruct (extract_state r2 a2) as [r3 a3]; cbn [fst] in E3.
  destruct (extract_city r3 a3) as [[r4 a4]|e] eqn:E4;
    [|discriminate]; cbn [bind] in H.
  apply extract_city_shaped in E4; [|exact E3].
  destruct (negb (truthy_str a4)); [now injection H as <-|].
  set (parts := map strip _) in H; clearbody parts.
  destruct parts as [|first_part parts]; [now injection H as <-|].
  cbn [length Nat.eqb first_item bind tl] in H.
  destruct (extract_number (extract_street r4 first_part) parts)
    as [[r5 parts5]|e] eqn:E5; [|discriminate]; cbn [bind] in H.
  apply extract_number_shaped in E5; [|now apply extract_street_shaped].
  now apply extract_neighborhood_shaped in H.
Qed.

Lemma parse_street_name_field_shapes_witness :
  let address :=
    py "Alameda Santos, 45B loja 2, Jardins, São Paulo - SP, 01419-000, Brasil" in
  let r := {| street_type := Some (py "Alameda");
              street_name := Some (py "Santos");
              street_number := Some (py "45B");
              street_complement := Some (py "loja 2");
              street_neighborhood := Some (py "Jardins");
              postalcode := Some (py "01419000");
              city := Some (py "São Paulo");
              state := Some (py "SP");
              country := Some (py "Brasil") |} in
  parse_street_name (Some address) = Ok r
  /\ (length (py "01419000") = 8%nat
      /\ forallb is_digit (py "01419000") = true)
  /\ (length (py "SP") = 2%nat /\ forallb is_upper_az (py "SP") = true)
  /\ In (py "Alameda") street_types.
Proof.
  intros address r.
  assert (H : parse_street_name (Some address) = Ok r)
    by (vm_compute; reflexivity).
  destruct (parse_street_name_field_shapes (Some address) r H)
    as (P & S & _ & T & _).
  exact (conj H (conj (P _ eq_refl) (conj (S _ eq_refl) (T _ eq_refl)))).
Defined.

(** ** RestaurantDataProcessor._insert_restaurant *)

Lemma upsert_restaurant_length (inserted_at : option Z) (now new_id : Z)
    (p : restaurant_params) (rows : list restaurant_row) :
  (length rows <= length (fst (upsert_restaurant inserted_at now new_id p rows))
   <= length rows + 1)%nat.
Proof.
  unfold upsert_restaurant; destruct (find _ rows); simpl.
  - rewrite length_map; lia.
  - rewrite length_app; simpl; lia.
Qed.

Section Upsert.

Variable refuses : tables -> statement -> bool.
Variable inserted_updated_at : Z -> option Z.

Lemma _insert_restaurant_ok (now : clock) (gid name : str) (d : Api.place)
    (sp : parsed_address) (conn conn' : connection) (rid : Z) :
  _insert_restaurant refuses inserted_updated_at now gid name d sp conn
  = (Ok rid, conn') ->
  exists p,
    build_restaurant_params gid name d sp = Ok p
    /\ upsert_restaurant (inserted_updated_at (current_timestamp now))
                         (current_timestamp now) (restaurants_id_seq conn) p
                         (restaurants (working conn))
       = (restaurants (working conn'), rid)
    /\ restaurants_id_seq conn' = (restaurants_id_seq conn + 1)%Z
    /\ committed conn' = committed conn
    /\ opening_hours (working conn') = opening_hours (working conn)
    /\ restaurant_types (working conn') = restaurant_types (working conn)
    /\ google_api_quota (working conn') = google_api_quota (working conn).
Proof.
  unfold _insert_restaurant, dbind, lift.
  destruct (build_restaurant_params gid name d sp) as [p|e]; [|discriminate].
  destruct (refuses (working conn) (UpsertRestaurant p)); [discriminate|].
  destruct (upsert_restaurant _ _ _ p _) as [rows rid'] eqn:E.
  intros H; injection H as <- <-; exists p; simpl; auto 10.
Qed.

(** X10: [_insert_restaurant] keeps the restaurants consistent (no two rows
    with one external id, no two with one surrogate id, the sequence past
    every id).  The row of the external id, with the id returned, holds the
    name and the parsed address it was given; the rows of the other
    external ids are exactly those there before; at most one row is
    added. *)
Theorem _insert_restaurant_keeps_consistent (now : clock) (gid name : str)
    (d : Api.place) (sp : parsed_address) (conn conn' : connection) (rid : Z) :
  _insert_restaurant refuses inserted_updated_at now gid name d sp conn
  = (Ok rid, conn') ->
  restaurants_consistent conn ->
  let rows := restaurants (working conn) in
  let rows' := restaurants (working conn') in
  restaurants_consistent conn'
  /\ (exists row,
        In row rows' /\ id row = rid
        /\ google_id (columns row) = gid
        /\ google_name (columns row) = name
        /\ address_columns (columns row) = sp)
  /\ (forall r, google_id (columns r) <> gid -> (In r rows' <-> In r rows))
  /\ (length rows <= length rows' <= length rows + 1)%nat.
Proof.
  intros H (Hg & Hi & Hs) rows rows'.
  apply _insert_restaurant_ok in H as (p & Hp & Hup & Hseq & _).
  assert (Hgid : google_id p = gid)
    by exact (build_restaurant_params_google_id _ _ _ _ _ Hp).
  assert (Hname : google_name p = name /\ address_columns p = sp).
  { unfold build_restaurant_params in Hp.
    destruct (Api.location d); [|discriminate].
    injection Hp as <-; split; reflexivity. }
  pose proof (upsert_restaurant_length
                (inserted_updated_at (current_timestamp now))
                (current_timestamp now) (restaurants_id_seq conn) p rows)
    as Hlen.
  pose proof (upsert_restaurant_row _ _ _ _ _ _ _ Hup) as [(row & Hrow & Hid) Hall].
  fold rows in Hup, Hg, Hi, Hs; fold rows' in Hup, Hrow, Hall.
  unfold rows in Hlen at 2; fold rows in Hlen.
  rewrite Hup in Hlen; cbn [fst] in Hlen.
  assert (Hsame : forall r, same_google_id p r = true
                            <-> google_id (columns r) = gid).
  { intros r; unfold same_google_id; now rewrite str_eqb_eq, Hgid. }
  unfold restaurants_consistent; fold rows'; rewrite Hseq.
  unfold upsert_restaurant in Hup.
  destruct (find (same_google_id p) rows) as [r0|] eqn:E;
    injection Hup as Hrows Hrid.
  - (* the row was there: updated in place *)
    set (f := fun r' => if same_google_id p r'
                        then RestaurantRow (id r') p (Some (current_timestamp now))
                        else r') in Hrows.
    assert (Hfg : forall r, google_id (columns (f r)) = google_id (columns r)).
    { intros r; unfold f; destruct (same_google_id p r) eqn:X; [|reflexivity].
      simpl; apply Hsame in X; congruence. }
    assert (Hfi : forall r, id (f r) = id r).
    { intros r; unfold f; now destruct (same_google_id p r). }
    split; [|split; [|split; [|exact Hlen]]].
    + rewrite <- Hrows; repeat split.
      * rewrite map_map; erewrite map_ext; [exact Hg | exact Hfg].
      * rewrite map_map; erewrite map_ext; [exact Hi | exact Hfi].
      * apply Forall_forall; intros r Hr.
        apply in_map_iff in Hr as (x & <- & Hx).
        rewrite Forall_forall in Hs; specialize (Hs x Hx).
        rewrite Hfi; lia.
    + exists row; apply find_some in Hrow as [Hin Hsm].
      pose proof (Hall row Hin Hsm) as Hc.
      rewrite Hc; destruct Hname; apply Hsame in Hsm; auto.
    + intros r Hr; rewrite <- Hrows; rewrite in_map_iff; split.
      * intros (x & <- & Hx); unfold f.
        destruct (same_google_id p x) eqn:X; [|exact Hx].
        exfalso; apply Hr; unfold f; rewrite X; exact Hgid.
      * intros Hin; exists r; split; [|exact Hin].
        unfold f; destruct (same_google_id p r) eqn:X; [|reflexivity].
        apply Hsame in X; contradiction.
  - (* no such row: one is appended, with the next id of the sequence *)
    assert (Hnone : forall r, In r rows -> google_id (columns r) <> gid).
    { intros r Hr X; apply Hsame in X.
      pose proof (find_none _ _ E r Hr); congruence. }
    split; [|split; [|split; [|exact Hlen]]].
    + rewrite <- Hrows, !map_app; simpl; repeat split.
      * apply NoDup_app; [exact Hg | repeat constructor; intros [] |].
        intros g Hin [<-|[]].
        apply in_map_iff in Hin as (r & Er & Hr).
        apply (Hnone r Hr); congruence.
      * apply NoDup_app; [exact Hi | repeat constructor; intros [] |].
        intros i Hin [<-|[]].
        apply in_map_iff in Hin as (r & Er & Hr).
        rewrite Forall_forall in Hs; specialize (Hs r Hr); lia.
      * apply Forall_app; split.
        -- apply Forall_forall; intros r Hr.
           rewrite Forall_forall in Hs; specialize (Hs r Hr); lia.
        -- repeat constructor; simpl; lia.
    + exists row; apply find_some in Hrow as [Hin Hsm].
      pose proof (Hall row Hin Hsm) as Hc.
      rewrite Hc; destruct Hname; apply Hsame in Hsm; auto.
    + intros r Hr; rewrite <- Hrows, in_app_iff; split; [|auto].
      intros [H|[<-|[]]]; [exact H|].
      exfalso; apply Hr; exact Hgid.
Qed.

End Upsert.

(** "Bar Y" is inserted beside "Bar X". *)
Lemma _insert_restaurant_keeps_consistent_witness :
  let first :=
    _insert_restaurant World.accepts_all World.inserted_updated_at World.now
      (py "Bar X") (py "Bar X") World.bar_x no_address World.fresh in
  let second :=
    _insert_restaurant World.accepts_all World.inserted_updated_at World.later
      (py "Bar Y") (py "Bar Y") World.bar_x no_address (snd first) in
  second = (Ok 2%Z, snd second)
  /\ restaurants_consistent (snd first)
  /\ restaurants_consistent (snd second)
  /\ length (restaurants (working (snd second))) = 2%nat.
Proof.
  intros first second.
  assert (H2 : second = (Ok 2%Z, snd second)) by (vm_compute; reflexivity).
  assert (W1 : restaurants_consistent (snd first)).
  { unfold restaurants_consistent; vm_compute.
    repeat split; repeat constructor; simpl; intuition. }
  destruct (_insert_restaurant_keeps_consistent World.accepts_all
              World.inserted_updated_at World.later (py "Bar Y") (py "Bar Y")
              World.bar_x no_address (snd first) (snd second) 2 H2 W1)
    as (W2 & _).
  refine (conj H2 (conj W1 (conj W2 _))).
  vm_compute; reflexivity.
Defined.

(** ** RestaurantDataProcessor._insert_restaurant_types *)

Lemma present_key (t : type_row) (rows : list type_row) :
  existsb (same_type t) rows = true -> In (type_key t) (map type_key rows).
Proof.
  intros H; apply existsb_exists in H as (r & Hr & E).
  apply same_type_key in E; rewrite <- E; now apply in_map.
Qed.

Lemma insert_types_added (ts : list type_row) : forall rows,
  exists added,
    insert_types ts rows = rows ++ added /\ incl added ts.
Proof.
  induction ts as [|t ts IH]; intros rows.
  - exists []; split; [simpl; now rewrite app_nil_r | intros ? []].
  - change (insert_types (t :: ts) rows)
      with (insert_types ts (insert_type t rows)).
    destruct (IH (insert_type t rows)) as (added & -> & Hincl).
    destruct (insert_type_cases t rows) as [[_ ->]|[_ ->]].
    + exists added; split; [reflexivity|].
      intros x Hx; right; now apply Hincl.
    + exists (t :: added); split; [now rewrite <- app_assoc|].
      intros x [<-|Hx]; [now left | right; now apply Hincl].
Qed.

Lemma insert_types_plain (rid : Z) (ts : list type_row) : forall rows,
  (forall t, In t ts -> is_primary_type t = false) ->
  primary_tags rid (insert_types ts rows) = primary_tags rid rows.
Proof.
  intros rows Hts.
  destruct (insert_types_added ts rows) as (added & -> & Hincl).
  rewrite primary_tags_app.
  assert (H : primary_tags rid added = []).
  { clear - Hts Hincl; induction added as [|a added IH]; [reflexivity|].
    simpl; rewrite (Hts a (Hincl a (or_introl eq_refl))), andb_false_r.
    apply IH; intros x Hx; apply Hincl; now right. }
  rewrite H; apply app_nil_r.
Qed.

Lemma truthy_str_spec (s : str) : truthy_str s = true <-> s <> [].
Proof. destruct s; simpl; split; congruence. Qed.

Section TypeTagEdges.

Variable refuses : tables -> statement -> bool.

(** X11: a successful [_insert_restaurant_types] leaves every non-empty
    listed type and the primary type name stored for the restaurant; it
    only appends rows, each for this restaurant, with a non-empty tag that
    is a listed type or the primary type name (an empty string among the
    types is never stored); and when the primary type name is itself one of
    the listed types, its insert meets the conflict and no tag is flagged
    primary by the call. *)
Theorem _insert_restaurant_types_stores (d : Api.place) (rid : Z)
    (conn conn' : connection) :
  _insert_restaurant_types refuses d rid conn = (Ok tt, conn') ->
  let listed := get_or (Api.types d) [] in
  let before := restaurant_types (working conn) in
  let after := restaurant_types (working conn') in
  (forall t, In t listed -> t <> [] -> In (rid, t) (map type_key after))
  /\ (forall p, primary_name d = Some p -> In (rid, p) (map type_key after))
  /\ (exists added,
        after = before ++ added
        /\ forall r, In r added ->
             type_restaurant_id r = rid
             /\ restaurant_type r <> []
             /\ (In (restaurant_type r) listed
                 \/ primary_name d = Some (restaurant_type r)))
  /\ (forall p, primary_name d = Some p -> In p listed ->
        primary_tags rid after = primary_tags rid before).
Proof.
  intros H listed before after.
  apply _insert_restaurant_types_ok in H.
  assert (E : after = insert_types (type_rows d rid) before)
    by (unfold after; rewrite H; reflexivity).
  clearbody after; subst after; clear H.
  assert (Hplain : forall t, In t listed -> t <> [] ->
            In (TypeRow rid t false)
               (map (fun t => TypeRow rid t false) (filter truthy_str listed))).
  { intros t Ht Hne.
    apply (in_map (fun t => TypeRow rid t false)), filter_In.
    split; [exact Ht|].
    now apply truthy_str_spec. }
  assert (Hprim : forall p, primary_name d = Some p -> p <> []).
  { unfold primary_name; intros p Hp.
    destruct (Api.text _) as [q|]; [|discriminate].
    destruct (truthy_str q) eqn:Tq; [|discriminate].
    injection Hp as <-; now apply truthy_str_spec. }
  split; [|split; [|split]].
  - intros t Ht Hne.
    apply (present_key (TypeRow rid t false)), insert_types_present.
    unfold type_rows; apply in_app_iff; left; now apply Hplain.
  - intros p Hp.
    apply (present_key (TypeRow rid p true)), insert_types_present.
    unfold type_rows; apply in_app_iff; right; rewrite Hp; now left.
  - destruct (insert_types_added (type_rows d rid) before)
      as (added & E & Hincl).
    exists added; split; [exact E|].
    intros r Hr; apply Hincl in Hr.
    unfold type_rows in Hr; apply in_app_iff in Hr as [Hr|Hr].
    + apply in_map_iff in Hr as (t & <- & Ht).
      apply filter_In in Ht as [Ht Hne]; apply truthy_str_spec in Hne.
      simpl; auto.
    + destruct (primary_name d) as [p|] eqn:Hp; [|contradiction].
      destruct Hr as [<-|[]]; simpl; auto.
  - intros p Hp Hin.
    set (plain := map (fun t => TypeRow rid t false) (filter truthy_str listed)).
    assert (Hthere : existsb (same_type (TypeRow rid p true))
                             (insert_types plain before) = true)
      by exact (insert_types_present plain before (TypeRow rid p false)
                  (Hplain p Hin (Hprim p Hp))).
    assert (E : insert_types (type_rows d rid) before
                = insert_types plain before).
    { unfold type_rows; rewrite Hp, insert_types_app; fold listed; fold plain.
      change (insert_types [TypeRow rid p true] (insert_types plain before))
        with (insert_type (TypeRow rid p true) (insert_types plain before)).
      unfold insert_type; now rewrite Hthere. }
    rewrite E; apply insert_types_plain.
    intros t Ht; apply in_map_iff in Ht as (x & <- & _); reflexivity.
Qed.

End TypeTagEdges.

(** A place whose primary type name "Bar" is also one of its types, with
    an empty string among them. *)
Lemma _insert_restaurant_types_stores_witness :
  let d :=
    {| Api.displayName := None;
       Api.formattedAddress := None;
       Api.location := None;
       Api.googleMapsUri := None;
       Api.types := Some [py "Bar"; []; py "Restaurante"];
       Api.primaryTypeDisplayName := Some (Api.LocalizedText (Some (py "Bar")));
       Api.websiteUri := None;
       Api.regularOpeningHours := None;
       Api.businessStatus := None;
       Api.editorialSummary := None;
       Api.priceLevel := None;
       Api.rating := None;
       Api.servesVegetarianFood := None |} in
  let run := _insert_restaurant_types World.accepts_all d 1 World.fresh in
  run = (Ok tt, snd run)
  /\ map type_key (restaurant_types (working (snd run)))
     = [(1%Z, py "Bar"); (1%Z, py "Restaurante")]
  /\ primary_tags 1 (restaurant_types (working (snd run))) = [].
Proof.
  intros d run.
  assert (H : run = (Ok tt, snd run)) by (vm_compute; reflexivity).
  pose proof (_insert_restaurant_types_stores World.accepts_all d 1
                World.fresh (snd run) H) as (_ & _ & _ & Hp).
  assert (H1 : primary_name d = Some (py "Bar")) by (vm_compute; reflexivity).
  assert (H2 : In (py "Bar") (get_or (Api.types d) []))
    by (left; vm_compute; reflexivity).
  specialize (Hp (py "Bar") H1 H2).
  assert (H3 : map type_key (restaurant_types (working (snd run)))
               = [(1%Z, py "Bar"); (1%Z, py "Restaurante")])
    by (vm_compute; reflexivity).
  refine (conj H (conj H3 _)).
  rewrite Hp; vm_compute; reflexivity.
Defined.

(** ** process_and_store and main: what is committed *)

Lemma upsert_restaurant_keeps_rows (inserted_at : option Z) (now new_id : Z)
    (p : restaurant_params) (rows : list restaurant_row) (r : restaurant_row) :
  In r rows ->
  exists r',
    In r' (fst (upsert_restaurant inserted_at now new_id p rows))
    /\ id r' = id r
    /\ google_id (columns r') = google_id (columns r).
Proof.
  intros Hr; unfold upsert_restaurant.
  destruct (find (same_google_id p) rows) as [r0|]; cbn [fst].
  - exists (if same_google_id p r
            then RestaurantRow (id r) p (Some now) else r).
    split; [|destruct (same_google_id p r) eqn:E; simpl; auto].
    + apply (in_map (fun r' => if same_google_id p r'
                               then RestaurantRow (id r') p (Some now)
                               else r')), Hr.
    + unfold same_google_id in E; apply str_eqb_eq in E; auto.
  - exists r; split; [apply in_app_iff; now left | auto].
Qed.

Lemma at_most_one_upsert_refl (rows : list restaurant_row) :
  at_most_one_upsert rows rows.
Proof. split; [lia | eauto]. Qed.

Lemma at_most_one_upsert_upsert (inserted_at : option Z) (now new_id : Z)
    (p : restaurant_params) (rows : list restaurant_row) :
  at_most_one_upsert rows (fst (upsert_restaurant inserted_at now new_id p rows)).
Proof.
  split; [apply upsert_restaurant_length|].
  intros r; apply upsert_restaurant_keeps_rows.
Qed.

Section Committed.

Variable post_search_text : str -> outcome (response search_result).
Variable get_place : str -> outcome (response Api.place).
Variable refuses : tables -> statement -> bool.
Variable inserted_updated_at : Z -> option Z.
Variable next_row : list str -> nat.

Lemma get_restaurants_to_insert_connection (names : list str)
    (conn : connection) r conn' :
  get_restaurants_to_insert refuses next_row names conn = (r, conn') ->
  conn' = conn
  /\ forall l, r = Ok l ->
       l = fetchall next_row
             (names_not_stored (restaurants (working conn)) names).
Proof.
  unfold get_restaurants_to_insert, query.
  destruct (values_rows _) as [n|]; [|intros H; injection H as <- <-; easy].
  destruct (negb _); [intros H; injection H as <- <-; easy|].
  destruct (refuses _ _); intros H; injection H as <- <-; [easy|].
  split; [reflexivity | intros l E; now injection E as <-].
Qed.

Lemma store_committed_restaurants (now : clock) (gid name : str)
    (d : Api.place) (conn : connection) r conn' :
  working conn = committed conn ->
  store refuses inserted_updated_at now gid name d conn = (r, conn') ->
  at_most_one_upsert (restaurants (committed conn))
                     (restaurants (committed conn')).
Proof.
  intros Hclean S; destruct r as [rid|e].
  - apply store_ok in S as (sp & p & _ & _ & Hup & Hc & _).
    rewrite Hc, <- Hclean.
    replace (restaurants (working conn')) with (fst (restaurants (working conn'), rid))
      by reflexivity.
    rewrite <- Hup; apply at_most_one_upsert_upsert.
  - pose proof S as S0; unfold store in S.
    destruct (truthy_opt_str (Api.formattedAddress d)) eqn:Haddr;
      cbn [negb] in S; [|injection S as <- <-; apply at_most_one_upsert_refl].
    unfold dbind at 1, lift in S.
    destruct (parse_street_name (Api.formattedAddress d)) as [sp|e0] eqn:Hsp;
      [|injection S as <- <-; apply at_most_one_upsert_refl].
    unfold dbind at 1 in S.
    destruct (_insert_restaurant refuses inserted_updated_at now gid name d sp conn)
      as [[rid|e1] c1] eqn:Hins.
    + unfold dbind at 1 in S.
      destruct (add_quota_counter refuses now None c1) as [[[]|e2] c2] eqn:Hq.
      * pose proof (failure_after_quota_counter refuses inserted_updated_at
                      now gid name d sp rid conn c1 c2 conn' e
                      Haddr Hsp Hins Hq S0) as Hkept.
        cbn [rollback committed] in Hkept; rewrite Hkept, <- Hclean.
        apply _insert_restaurant_ok in Hins as (p & _ & Hup & _).
        replace (restaurants (working c1))
          with (fst (restaurants (working c1), rid)) by reflexivity.
        rewrite <- Hup; apply at_most_one_upsert_upsert.
      * injection S as <- <-.
        pose proof (add_quota_counter_outcome refuses now None c1) as Ho.
        cbv zeta in Ho; rewrite Hq in Ho; simpl in Ho.
        destruct Ho as (_ & Ho); rewrite Ho.
        rewrite (_insert_restaurant_committed refuses inserted_updated_at
                   _ _ _ _ _ _ _ _ Hins).
        apply at_most_one_upsert_refl.
    + injection S as <- <-.
      rewrite (_insert_restaurant_committed refuses inserted_updated_at
                 _ _ _ _ _ _ _ _ Hins).
      apply at_most_one_upsert_refl.
Qed.

Lemma process_and_store_committed_restaurants (now : clock) (name : str)
    (conn : connection) r conn' :
  working conn = committed conn ->
  process_and_store post_search_text get_place refuses inserted_updated_at
                    now name conn = (r, conn') ->
  at_most_one_upsert (restaurants (committed conn))
                     (restaurants (committed conn')).
Proof.
  intros Hclean; unfold process_and_store.
  destruct (get_place_details post_search_text get_place name)
    as [[[gid|] [d|]]|e];
    try (intros H; injection H as <- <-; apply at_most_one_upsert_refl).
  destruct (truthy_str gid && truthy_place d);
    [|intros H; injection H as <- <-; apply at_most_one_upsert_refl].
  destruct (store refuses inserted_updated_at now gid name d conn)
    as [[rid|e] c] eqn:S; intros H; injection H as <- <-;
    apply (store_committed_restaurants _ _ _ _ _ _ _ Hclean) in S; exact S.
Qed.

(** X12: a failure of [process_and_store] that comes after
    [add_quota_counter] has returned (the schedule, the tags or the final
    commit refused) is not undone by the rollback: the committed tables are
    those [add_quota_counter] committed.  The restaurant row of the upsert
    stays stored, with the schedule and the tags as they were before the
    call. *)
Theorem failure_after_quota_commit_is_kept (now : clock) (name gid : str)
    (d : Api.place) (sp : parsed_address) (rid : Z)
    (conn c1 c2 conn' : connection) (e : exn) :
  get_place_details post_search_text get_place name = Ok (Some gid, Some d) ->
  usable (Some gid, Some d) = true ->
  truthy_opt_str (Api.formattedAddress d) = true ->
  parse_street_name (Api.formattedAddress d) = Ok sp ->
  _insert_restaurant refuses inserted_updated_at now gid name d sp conn
  = (Ok rid, c1) ->
  add_quota_counter refuses now None c1 = (Ok tt, c2) ->
  process_and_store post_search_text get_place refuses inserted_updated_at
                    now name conn = (Raise e, conn') ->
  committed conn' = committed c2
  /\ working conn' = committed c2
  /\ (exists row,
        In row (restaurants (committed conn'))
        /\ id row = rid
        /\ google_id (columns row) = gid
        /\ google_name (columns row) = name)
  /\ opening_hours (committed conn') = opening_hours (working conn)
  /\ restaurant_types (committed conn') = restaurant_types (working conn).
Proof.
  intros Hfetch Huse Haddr Hsp Hins Hq H.
  unfold process_and_store in H; rewrite Hfetch in H.
  unfold usable in Huse; rewrite Huse in H.
  destruct (store refuses inserted_updated_at now gid name d conn)
    as [[rid'|e'] c] eqn:S; [discriminate|].
  injection H as <- <-; cbn [rollback committed working].
  assert (Hc : committed c = committed c2).
  { unfold store in S; rewrite Haddr, Hsp in S.
    change (negb true) with false in S; cbv iota in S.
    rewrite (dbind_step (lift (Ok sp)) _ conn sp conn eq_refl) in S.
    rewrite (dbind_step _ _ conn rid c1 Hins) in S.
    rewrite (dbind_step _ _ c1 tt c2 Hq) in S.
    revert S.
    apply (dbind_raise_keeps_committed (_insert_opening_hours refuses d rid)).
    - apply _insert_opening_hours_keeps_committed.
    - intros _; apply dbind_raise_keeps_committed.
      + apply _insert_restaurant_types_keeps_committed.
      + intros _; apply commit_raise_keeps_committed. }
  apply add_quota_counter_ok in Hq as (Hcw & Hr & Hh & Ht & _).
  apply _insert_restaurant_ok in Hins
    as (p & Hp & Hup & _ & _ & Hh1 & Ht1 & _).
  rewrite Hc, Hcw, Hr, Hh, Ht, Hh1, Ht1.
  repeat apply conj; try reflexivity.
  pose proof (build_restaurant_params_google_id _ _ _ _ _ Hp) as Hgid.
  assert (Hname : google_name p = name).
  { unfold build_restaurant_params in Hp.
    destruct (Api.location d); [|discriminate].
    injection Hp as <-; reflexivity. }
  apply upsert_restaurant_row in Hup as [(row & Hrow & Hid) Hall].
  apply find_some in Hrow as [Hin Hsm].
  exists row; rewrite (Hall row Hin Hsm).
  unfold same_google_id in Hsm; apply str_eqb_eq in Hsm.
  repeat split; congruence.
Qed.

(** X13: after a successful [process_and_store] of a name whose lookup gave
    a place, nothing is pending, a restaurant row with the place id and
    that very name is committed, and [get_restaurants_to_insert] on the
    connection returns the name for no list of names: a stored name is not
    created again. *)
Theorem stored_name_is_not_returned (now : clock) (name gid : str)
    (d : Api.place) (conn conn' : connection) :
  get_place_details post_search_text get_place name = Ok (Some gid, Some d) ->
  usable (Some gid, Some d) = true ->
  process_and_store post_search_text get_place refuses inserted_updated_at
                    now name conn = (Ok tt, conn') ->
  working conn' = committed conn'
  /\ (exists row,
        In row (restaurants (committed conn'))
        /\ google_id (columns row) = gid
        /\ google_name (columns row) = name)
  /\ forall names to_insert c,
       get_restaurants_to_insert refuses next_row names conn'
       = (Ok to_insert, c) ->
       ~ In name to_insert.
Proof.
  intros Hfetch Huse H.
  destruct (process_and_store_ok _ _ _ _ _ _ _ _ _ _ Hfetch Huse H) as [rid S].
  apply store_ok in S as (sp & p & _ & Hp & Hup & Hc & _).
  pose proof (build_restaurant_params_google_id _ _ _ _ _ Hp) as Hgid.
  assert (Hname : google_name p = name).
  { unfold build_restaurant_params in Hp.
    destruct (Api.location d); [|discriminate].
    injection Hp as <-; reflexivity. }
  apply upsert_restaurant_row in Hup as [(row & Hrow & Hid) Hall].
  apply find_some in Hrow as [Hin Hsm].
  pose proof (Hall row Hin Hsm) as Hcols.
  unfold same_google_id in Hsm; apply str_eqb_eq in Hsm.
  split; [now rewrite Hc|].
  split; [exists row; rewrite Hc; repeat split; congruence|].
  intros names l c Hget Hl.
  apply get_restaurants_to_insert_connection in Hget as [_ Hget].
  rewrite (Hget l eq_refl) in Hl.
  apply (Permutation_in _ (fetchall_permutation next_row _)) in Hl.
  apply filter_In in Hl as [_ Hl]; apply negb_true_iff in Hl.
  assert (name_stored (restaurants (working conn')) name = true);
    [|congruence].
  apply name_stored_spec, in_map_iff; exists row; split; congruence.
Qed.

(** X14: a run of [main] on a connection with nothing pending stores at
    most one restaurant more, whatever the outcome and however many names
    are to be created: the committed restaurants are between as many as
    before and one more, every restaurant committed before is still there
    under its id and place id, and nothing is left pending. *)
Theorem main_stores_at_most_one (now : clock) (names : list str)
    (conn : connection) :
  working conn = committed conn ->
  let run := main post_search_text get_place refuses inserted_updated_at
                  next_row now names conn in
  let before := restaurants (committed conn) in
  let after := restaurants (committed (snd run)) in
  working (snd run) = committed (snd run)
  /\ (length before <= length after <= length before + 1)%nat
  /\ forall r, In r before ->
       exists r', In r' after /\ id r' = id r
                  /\ google_id (columns r') = google_id (columns r).
Proof.
  intros Hclean run before after.
  enough (Hrun : at_most_one_upsert before after
                 /\ working (snd run) = committed (snd run)).
  { destruct Hrun as [[Hlen Hkeep] Hw]; auto. }
  unfold after, before, run, main, process_names, dbind.
  destruct (get_restaurants_to_insert refuses next_row names conn)
    as [[l|e] c0] eqn:G;
    apply get_restaurants_to_insert_connection in G as [-> _].
  - destruct l as [|n l]; cbn [firstn for_each].
    + simpl; split; [apply at_most_one_upsert_refl | reflexivity].
    + unfold dbind, ret.
      destruct (process_and_store post_search_text get_place refuses
                  inserted_updated_at now n conn) as [[[]|e] c1] eqn:P;
        apply (process_and_store_committed_restaurants _ _ _ _ _ Hclean) in P;
        simpl; split; auto.
  - simpl; split; [apply at_most_one_upsert_refl | reflexivity].
Qed.

End Committed.

Section NothingToCreate.

Variable post_search_text : str -> outcome (response search_result).
Variable get_place : str -> outcome (response Api.place).
Variable refuses : tables -> statement -> bool.
Variable inserted_updated_at : Z -> option Z.
Variable next_row : list str -> nat.

(** X15: when every name of a non-empty list is the name of a stored
    restaurant, [main] returns without a lookup and without a statement
    other than the query: whatever the Places API would answer, the outcome
    is a normal return and the connection is the one given, rolled back by
    the close.  For the empty list [main] raises the driver's error. *)
Theorem main_nothing_to_create (now : clock) (names : list str)
    (conn : connection) :
  names <> [] ->
  refuses (working conn)
          (SelectNamesToInsert
             (join [comma] (repeat (py "(%s)") (length names))) names) = false ->
  (forall n, In n names -> In n (stored_names (working conn))) ->
  main post_search_text get_place refuses inserted_updated_at next_row
       now names conn
  = (Ok tt, rollback conn)
  /\ main post_search_text get_place refuses inserted_updated_at next_row
          now [] conn
     = (Raise ProgrammingError, rollback conn).
Proof.
  intros Hne Hrun Hall; split; [|reflexivity].
  assert (Hnone : names_not_stored (restaurants (working conn)) names = []).
  { unfold names_not_stored.
    assert (X : forall l, incl l names ->
                filter (fun nome => negb (name_stored (restaurants (working conn)) nome)) l = []).
    { induction l as [|n l IH]; intros Hl; [reflexivity|].
      simpl.
      replace (name_stored (restaurants (working conn)) n) with true.
      - apply IH; intros x Hx; apply Hl; now right.
      - symmetry; apply name_stored_spec, (Hall n), Hl; now left. }
    apply X, incl_refl. }
  unfold main, dbind, get_restaurants_to_insert.
  destruct names as [|n names]; [congruence|].
  cbn [length] in *.
  rewrite values_rows_placeholders, Nat.eqb_refl; simpl negb; cbv iota.
  unfold query; rewrite Hrun, Hnone; reflexivity.
Qed.

End NothingToCreate.

(** "Bar X" on a server that refuses the schedule: the row stays. *)
Lemma failure_after_quota_commit_is_kept_witness :
  let sp := {| street_type := Some (py "Av.");
               street_name := Some (py "Paulista");
               street_number := Some (py "1000");
               street_complement := None;
               street_neighborhood := Some (py "Bela Vista");
               postalcode := None;
               city := Some (py "São Paulo");
               state := Some (py "SP");
               country := Some (py "Brasil") |} in
  let upsert :=
    _insert_restaurant World.refuses_opening_hours World.inserted_updated_at
      World.now (py "Bar X") (py "Bar X") World.bar_x sp World.fresh in
  let counted :=
    add_quota_counter World.refuses_opening_hours World.now None (snd upsert) in
  let run :=
    process_and_store World.post_search_text World.get_place
      World.refuses_opening_hours World.inserted_updated_at World.now
      (py "Bar X") World.fresh in
  run = (Raise DatabaseError, snd run)
  /\ stored_names (committed (snd run)) = [py "Bar X"]
  /\ committed (snd run) = committed (snd counted)
  /\ opening_hours (committed (snd run)) = [].
Proof.
  intros sp upsert counted run.
  assert (Hfetch : get_place_details World.post_search_text World.get_place
                     (py "Bar X") = Ok (Some (py "Bar X"), Some World.bar_x))
    by (vm_compute; reflexivity).
  assert (Huse : usable (Some (py "Bar X"), Some World.bar_x) = true)
    by (vm_compute; reflexivity).
  assert (Haddr : truthy_opt_str (Api.formattedAddress World.bar_x) = true)
    by (vm_compute; reflexivity).
  assert (Hsp : parse_street_name (Api.formattedAddress World.bar_x) = Ok sp)
    by (vm_compute; reflexivity).
  assert (Hins : upsert = (Ok 1%Z, snd upsert)) by (vm_compute; reflexivity).
  assert (Hq : counted = (Ok tt, snd counted)) by (vm_compute; reflexivity).
  assert (Hrun : run = (Raise DatabaseError, snd run))
    by (vm_compute; reflexivity).
  assert (Hnames : stored_names (committed (snd run)) = [py "Bar X"])
    by (vm_compute; reflexivity).
  destruct (failure_after_quota_commit_is_kept World.post_search_text
              World.get_place World.refuses_opening_hours
              World.inserted_updated_at World.now (py "Bar X") (py "Bar X")
              World.bar_x sp 1 World.fresh (snd upsert) (snd counted)
              (snd run) DatabaseError Hfetch Huse Haddr Hsp Hins Hq Hrun)
    as (Hc & _ & _ & Hh & _).
  exact (conj Hrun (conj Hnames (conj Hc Hh))).
Defined.

(** "Bar X" is stored, then asked for again with "Bar Y". *)
Lemma stored_name_is_not_returned_witness :
  let run :=
    process_and_store World.post_search_text World.get_place World.accepts_all
      World.inserted_updated_at World.now (py "Bar X") World.fresh in
  let again :=
    get_restaurants_to_insert World.accepts_all World.last_first
                              [py "Bar X"; py "Bar Y"] (snd run) in
  run = (Ok tt, snd run)
  /\ again = (Ok [py "Bar Y"], snd run)
  /\ ~ In (py "Bar X") [py "Bar Y"].
Proof.
  intros run again.
  assert (Hfetch : get_place_details World.post_search_text World.get_place
                     (py "Bar X") = Ok (Some (py "Bar X"), Some World.bar_x))
    by (vm_compute; reflexivity).
  assert (Huse : usable (Some (py "Bar X"), Some World.bar_x) = true)
    by (vm_compute; reflexivity).
  assert (Hrun : run = (Ok tt, snd run)) by (vm_compute; reflexivity).
  assert (Hagain : again = (Ok [py "Bar Y"], snd run))
    by (vm_compute; reflexivity).
  destruct (stored_name_is_not_returned World.post_search_text World.get_place
              World.accepts_all World.inserted_updated_at World.last_first
              World.now (py "Bar X") (py "Bar X") World.bar_x World.fresh
              (snd run) Hfetch Huse Hrun) as (_ & _ & Hnot).
  exact (conj Hrun (conj Hagain
           (Hnot [py "Bar X"; py "Bar Y"] [py "Bar Y"] (snd run) Hagain))).
Defined.

(** Two names to create: one restaurant is stored. *)
Lemma main_stores_at_most_one_witness :
  let run :=
    main World.post_search_text World.get_place World.accepts_all
         World.inserted_updated_at World.last_first World.now
         [py "Bar X"; py "Bar Y"] World.fresh in
  working World.fresh = committed World.fresh
  /\ length (restaurants (committed World.fresh)) = 0%nat
  /\ length (restaurants (committed (snd run))) = 1%nat
  /\ working (snd run) = committed (snd run).
Proof.
  intros run.
  assert (Hclean : working World.fresh = committed World.fresh)
    by (vm_compute; reflexivity).
  assert (H0 : length (restaurants (committed World.fresh)) = 0%nat)
    by (vm_compute; reflexivity).
  assert (H1 : length (restaurants (committed (snd run))) = 1%nat)
    by (vm_compute; reflexivity).
  destruct (main_stores_at_most_one World.post_search_text World.get_place
              World.accepts_all World.inserted_updated_at World.last_first
              World.now [py "Bar X"; py "Bar Y"] World.fresh Hclean)
    as (Hw & _).
  exact (conj Hclean (conj H0 (conj H1 Hw))).
Defined.

(** "Bar X" is stored already: a run for it changes nothing. *)
Lemma main_nothing_to_create_witness :
  let stored :=
    snd (process_and_store World.post_search_text World.get_place
           World.accepts_all World.inserted_updated_at World.now (py "Bar X")
           World.fresh) in
  stored_names (working stored) = [py "Bar X"]
  /\ main World.post_search_text World.get_place World.accepts_all
          World.inserted_updated_at World.in_order World.later [py "Bar X"]
          stored
     = (Ok tt, rollback stored).
Proof.
  intros stored.
  assert (Hnames : stored_names (working stored) = [py "Bar X"])
    by (vm_compute; reflexivity).
  assert (Hne : [py "Bar X"] <> []) by discriminate.
  assert (Hrun : World.accepts_all (working stored)
                   (SelectNamesToInsert
                      (join [comma]
                            (repeat (py "(%s)") (length [py "Bar X"])))
                      [py "Bar X"]) = false)
    by (vm_compute; reflexivity).
  assert (Hall : forall n, In n [py "Bar X"] ->
                           In n (stored_names (working stored))).
  { intros n [<-|[]]; rewrite Hnames; left; reflexivity. }
  destruct (main_nothing_to_create World.post_search_text World.get_place
              World.accepts_all World.inserted_updated_at World.in_order
              World.later [py "Bar X"] stored Hne Hrun Hall) as (Hmain & _).
  exact (conj Hnames Hmain).
Defined.
